(** * Helios compiler: type model, call checking, module resolution and
    entry-point lowering

    A shallow embedding of the parts of the Helios compiler that the
    specification talks about:

    - [helios-eval-entities.js]: the type catalogue ([Type.isBaseOf],
      [Type.infer], [FuncType.checkCall]);
    - [helios-ast-statements.js]: IR generation of struct statements;
    - the program file ([Module.filterDependencies], [Program.parseImports],
      [Program.new], [Program.injectMutualRecursions], the entry-point
      checks and wrappers of [RedeemerProgram] / [DatumRedeemerProgram],
      and the parameter interface).

    The modules after [Structs] cover more of the same files: what a
    dependency resolution returns and how [Program.new] lays out the
    modules, the base-type relation as an order, inference as substitution
    and generic functions, function subtyping, the argument lists that
    entry points accept, testing programs, constants as parameters, the
    fields of data definitions, enum statements, impl blocks and the member
    lookups of user types.

    JavaScript exceptions are modelled by the [Result] type: a computation
    either returns a value or throws an error of some kind with a message. *)

From Stdlib Require Import String Ascii List ZArith Lia Bool Arith DecimalString
  DecimalNat.
From stdpp Require Import base gmap strings list.

Import ListNotations.
Local Open Scope string_scope.
Local Open Scope list_scope.

(** ** Errors

    [UserError] (tokens.js) has three user-facing categories; anything thrown
    with a plain [new Error(...)], which includes a failed [assert] or
    [assertDefined] (utils.js), is an internal error. *)

Inductive ErrorKind : Type :=
| SyntaxError
| TypeError
| ReferenceError
| InternalError.

Inductive Result (A : Type) : Type :=
| Ok (a : A)
| Throw (kind : ErrorKind) (msg : string).

Arguments Ok {A} a.
Arguments Throw {A} kind msg.

Definition bind {A B : Type} (r : Result A) (k : A -> Result B) : Result B :=
  match r with
  | Ok a => k a
  | Throw kind msg => Throw kind msg
  end.

Notation "'let*' x ':=' r 'in' k" := (bind r (fun x => k))
  (at level 10, x name, r at level 100, k at level 200).

Lemma bind_ok_inv {A B : Type} (r : Result A) (k : A -> Result B) (b : B) :
  bind r k = Ok b -> exists a, r = Ok a /\ k a = Ok b.
Proof. destruct r; simpl; [eauto | discriminate]. Qed.

Definition is_ok {A : Type} (r : Result A) : bool :=
  match r with Ok _ => true | Throw _ _ => false end.

Definition throws {A : Type} (kind : ErrorKind) (r : Result A) : Prop :=
  exists msg, r = Throw kind msg.

(** ** Plain objects

    An object that is written as a literal has the prototype
    [Object.prototype], so the operator [in] finds the names of the
    properties of that prototype (the ones of ECMAScript, with its annex
    B) as well as the keys of the object itself; [for ... in] does not
    enumerate them. *)

Definition Object_prototype : list string :=
  ["constructor"; "hasOwnProperty"; "isPrototypeOf"; "propertyIsEnumerable";
   "toLocaleString"; "toString"; "valueOf"; "__proto__";
   "__defineGetter__"; "__defineSetter__";
   "__lookupGetter__"; "__lookupSetter__"].

Definition inherited (name : string) : bool :=
  existsb (String.eqb name) Object_prototype.

(** * The type catalogue *)

Module Types.

(** Every class that extends [BuiltinType] (directly, or through
    [BuiltinEnumMember] or [HashType]) and takes no type argument.  The
    classes are listed in the order of the source file. *)

Inductive BuiltinClass : Type :=
| IntType | RealType | BoolType | StringType | ByteArrayType
| HashType | PubKeyHashType | StakeKeyHashType | PubKeyType | ScriptHashType
| ValidatorHashType | MintingPolicyHashType | StakingValidatorHashType
| DatumHashType | ScriptContextType
| ScriptPurposeType | MintingScriptPurposeType | SpendingScriptPurposeType
| RewardingScriptPurposeType | CertifyingScriptPurposeType
| StakingPurposeType | StakingRewardingPurposeType | StakingCertifyingPurposeType
| DCertType | RegisterDCertType | DeregisterDCertType | DelegateDCertType
| RegisterPoolDCertType | RetirePoolDCertType
| TxType | TxIdType | TxInputType | TxOutputType
| OutputDatumType | NoOutputDatumType | HashedOutputDatumType | InlineOutputDatumType
| RawDataType | TxOutputIdType | AddressType
| CredentialType | CredentialPubKeyType | CredentialValidatorType
| StakingHashType | StakingHashStakeKeyType | StakingHashValidatorType
| StakingCredentialType | StakingHashCredentialType | StakingPtrCredentialType
| TimeType | DurationType | TimeRangeType | AssetClassType | ValueType.

(** The position of a class in the list above; two objects have the same
    prototype exactly when their classes have the same tag. *)

Definition class_tag (c : BuiltinClass) : nat :=
  match c with
  | IntType => 0 | RealType => 1 | BoolType => 2 | StringType => 3
  | ByteArrayType => 4 | HashType => 5 | PubKeyHashType => 6
  | StakeKeyHashType => 7 | PubKeyType => 8 | ScriptHashType => 9
  | ValidatorHashType => 10 | MintingPolicyHashType => 11
  | StakingValidatorHashType => 12 | DatumHashType => 13
  | ScriptContextType => 14 | ScriptPurposeType => 15
  | MintingScriptPurposeType => 16 | SpendingScriptPurposeType => 17
  | RewardingScriptPurposeType => 18 | CertifyingScriptPurposeType => 19
  | StakingPurposeType => 20 | StakingRewardingPurposeType => 21
  | StakingCertifyingPurposeType => 22 | DCertType => 23
  | RegisterDCertType => 24 | DeregisterDCertType => 25
  | DelegateDCertType => 26 | RegisterPoolDCertType => 27
  | RetirePoolDCertType => 28 | TxType => 29 | TxIdType => 30
  | TxInputType => 31 | TxOutputType => 32 | OutputDatumType => 33
  | NoOutputDatumType => 34 | HashedOutputDatumType => 35
  | InlineOutputDatumType => 36 | RawDataType => 37 | TxOutputIdType => 38
  | AddressType => 39 | CredentialType => 40 | CredentialPubKeyType => 41
  | CredentialValidatorType => 42 | StakingHashType => 43
  | StakingHashStakeKeyType => 44 | StakingHashValidatorType => 45
  | StakingCredentialType => 46 | StakingHashCredentialType => 47
  | StakingPtrCredentialType => 48 | TimeType => 49 | DurationType => 50
  | TimeRangeType => 51 | AssetClassType => 52 | ValueType => 53
  end.

Definition same_prototype (c c' : BuiltinClass) : bool :=
  Nat.eqb (class_tag c) (class_tag c').

(** The non-function types.  [Builtin c priv] is an object of class [c];
    [priv] is the constructor argument that is not a type: [#size] of
    [ByteArrayType], [#purpose] of [ValidatorHashType],
    [MintingPolicyHashType], [StakingValidatorHashType] and
    [ScriptContextType], and [None] for the other classes.  A
    [StatementType] wraps its defining statement, which is identified by
    its symbolic path.  [TypeClassType] extends [ParamTypeRef].
    [FuncType] has an argument list of its own and is modelled apart
    (module [Calls]). *)

Inductive Ty : Type :=
| AnyType
| AnyDataType
| VoidType
| ErrorType
| ParamTypeRef (name : string)
| TypeClassType (name : string)
| StatementType (path : string)
| Builtin (c : BuiltinClass) (priv : option Z)
| ListType (itemType : Ty)
| MapType (keyType valueType : Ty)
| OptionType (someType : Ty)
| OptionSomeType (someType : Ty)
| OptionNoneType (someType : Ty).

(** [a && b] and [a || b] where evaluating an operand can throw ([None]). *)

Definition and_then (a : option bool) (b : option bool) : option bool :=
  match a with
  | Some true => b
  | Some false => Some false
  | None => None
  end.

Definition or_else (a : option bool) (b : option bool) : option bool :=
  match a with
  | Some true => Some true
  | Some false => b
  | None => None
  end.

(** [DataType.isBaseOf]: equality of prototypes. *)

Definition DataType_isBaseOf (c : BuiltinClass) (type : Ty) : bool :=
  match type with
  | Builtin c' _ => same_prototype c c'
  | _ => false
  end.

(** The builtin enums override [isBaseOf] as
    [super.isBaseOf(type) || (new M1()).isBaseOf(type) || ...];
    [enum_members c] lists the classes [M1, ...] of the override of [c]. *)

Definition enum_members (c : BuiltinClass) : list BuiltinClass :=
  match c with
  | ScriptPurposeType =>
      [MintingScriptPurposeType; SpendingScriptPurposeType;
       RewardingScriptPurposeType; CertifyingScriptPurposeType]
  | StakingPurposeType =>
      [StakingRewardingPurposeType; StakingCertifyingPurposeType]
  | DCertType =>
      [RegisterDCertType; DeregisterDCertType; DelegateDCertType;
       RegisterPoolDCertType; RetirePoolDCertType]
  | OutputDatumType =>
      [NoOutputDatumType; HashedOutputDatumType; InlineOutputDatumType]
  | CredentialType => [CredentialPubKeyType; CredentialValidatorType]
  | StakingHashType => [StakingHashStakeKeyType; StakingHashValidatorType]
  | StakingCredentialType =>
      [StakingHashCredentialType; StakingPtrCredentialType]
  | _ => []
  end.

Definition Builtin_isBaseOf (c : BuiltinClass) (type : Ty) : bool :=
  DataType_isBaseOf c type
  || existsb (fun m => DataType_isBaseOf m type) (enum_members c).

(** [OptionSomeType.isBaseOf] and [OptionNoneType.isBaseOf], given
    [this.#someType.isBaseOf]. *)

Definition OptionSomeType_isBaseOf (someType_isBaseOf : Ty -> option bool)
    (type : Ty) : option bool :=
  match type with
  | OptionSomeType s' => someType_isBaseOf s'
  | _ => Some false
  end.

Definition OptionNoneType_isBaseOf (someType_isBaseOf : Ty -> option bool)
    (type : Ty) : option bool :=
  match type with
  | OptionNoneType s' => someType_isBaseOf s'
  | _ => Some false
  end.

(** [this.isBaseOf(type)].  [None] is the [Error("not yet implemented")] of
    the base class [Type], which [ParamTypeRef] inherits. *)

Fixpoint isBaseOf (this type : Ty) : option bool :=
  match this with
  | AnyType => Some true
  | AnyDataType => Some true
  | VoidType =>
      Some (match type with VoidType | ErrorType => true | _ => false end)
  | ErrorType =>
      Some (match type with ErrorType => true | _ => false end)
  | ParamTypeRef _ => None
  | TypeClassType name =>
      Some (match type with
            | TypeClassType name' => String.eqb name' name
            | _ => false
            end)
  | StatementType path =>
      Some (match type with
            | StatementType path' => String.prefix path path'
            | _ => false
            end)
  | Builtin c _ => Some (Builtin_isBaseOf c type)
  | ListType itemType =>
      match type with
      | ListType itemType' => isBaseOf itemType itemType'
      | _ => Some false
      end
  | MapType keyType valueType =>
      match type with
      | MapType keyType' valueType' =>
          and_then (isBaseOf keyType keyType') (isBaseOf valueType valueType')
      | _ => Some false
      end
  | OptionType someType =>
      match type with
      | OptionType someType' => isBaseOf someType someType'
      | _ =>
          or_else (OptionSomeType_isBaseOf (isBaseOf someType) type)
                  (OptionNoneType_isBaseOf (isBaseOf someType) type)
      end
  | OptionSomeType someType => OptionSomeType_isBaseOf (isBaseOf someType) type
  | OptionNoneType someType => OptionNoneType_isBaseOf (isBaseOf someType) type
  end.

(** [Type.same(a, b)]. *)

Definition same (a b : Ty) : option bool :=
  and_then (isBaseOf a b) (isBaseOf b a).

(** [this.toString()] returns or throws.  [EvalEntity.toString] throws
    [Error("not yet implemented")]; [ParamTypeRef], [AnyDataType] and
    [HashType] inherit it.  Every other class of the catalogue has a
    [toString] of its own ([ErrorType] the one of [VoidType]), which for
    a type with type arguments interpolates their texts.  [printable t]
    tells whether [t.toString()] returns. *)

Fixpoint printable (t : Ty) : bool :=
  match t with
  | AnyType | VoidType | ErrorType => true
  | AnyDataType | ParamTypeRef _ => false
  | TypeClassType _ | StatementType _ => true
  | Builtin HashType _ => false
  | Builtin _ _ => true
  | ListType itemType => printable itemType
  | MapType keyType valueType => printable keyType && printable valueType
  | OptionType someType | OptionSomeType someType | OptionNoneType someType =>
      printable someType
  end.

(** The evaluation of [t.toString()] inside a message or a log line. *)

Definition toString_returns (t : Ty) : Result unit :=
  if printable t then Ok tt else Throw InternalError "not yet implemented".

(** The instances of [BuiltinType]. *)

Definition is_builtin (t : Ty) : bool :=
  match t with
  | Builtin _ _ | ListType _ | MapType _ _
  | OptionType _ | OptionSomeType _ | OptionNoneType _ => true
  | _ => false
  end.

(** Types all of whose type arguments are, down to the leaves, builtin
    types, statement types, type-class types or the type [AnyDataType]
    (which the catalogue uses as a value type of maps). *)

Fixpoint is_data (t : Ty) : bool :=
  match t with
  | Builtin _ _ | StatementType _ | TypeClassType _ | AnyDataType => true
  | ListType i => is_data i
  | MapType k v => is_data k && is_data v
  | OptionType s | OptionSomeType s | OptionNoneType s => is_data s
  | _ => false
  end.

(** The variant of a type together with its structural parameters (item,
    key, value and content types): the type with the non-type constructor
    arguments forgotten. *)

Fixpoint variant (t : Ty) : Ty :=
  match t with
  | Builtin c _ => Builtin c None
  | ListType i => ListType (variant i)
  | MapType k v => MapType (variant k) (variant v)
  | OptionType s => OptionType (variant s)
  | OptionSomeType s => OptionSomeType (variant s)
  | OptionNoneType s => OptionNoneType (variant s)
  | _ => t
  end.

(** *** Facts about [isBaseOf] *)

Lemma prefix_refl (s : string) : String.prefix s s = true.
Proof.
  induction s as [|c s IH]; simpl; [reflexivity|].
  destruct (ascii_dec c c); [exact IH | congruence].
Qed.

Lemma prefix_antisym (s t : string) :
  String.prefix s t = true -> String.prefix t s = true -> s = t.
Proof.
  revert t; induction s as [|c s IH]; intros [|d t]; simpl; try congruence.
  destruct (ascii_dec c d) as [->|]; [|discriminate].
  destruct (ascii_dec d d); [|discriminate].
  intros H1 H2; f_equal; auto.
Qed.

Lemma class_tag_inj (c c' : BuiltinClass) :
  class_tag c = class_tag c' -> c = c'.
Proof.
  destruct c; destruct c'; simpl; intros H;
    first [reflexivity | discriminate H].
Qed.

Lemma same_prototype_true (c c' : BuiltinClass) :
  same_prototype c c' = true <-> c = c'.
Proof.
  unfold same_prototype; rewrite Nat.eqb_eq; split.
  - apply class_tag_inj.
  - intros ->; reflexivity.
Qed.

(** A member of a builtin enum has no members of its own. *)

Lemma enum_members_leaf (c m : BuiltinClass) :
  In m (enum_members c) -> enum_members m = [] /\ m <> c.
Proof.
  destruct c; simpl; intros H;
    repeat (destruct H as [<-|H]; [split; [reflexivity|discriminate]|]);
    destruct H.
Qed.

Lemma Builtin_isBaseOf_cases (c c' : BuiltinClass) (p' : option Z) :
  Builtin_isBaseOf c (Builtin c' p') = true <->
  c = c' \/ In c' (enum_members c).
Proof.
  unfold Builtin_isBaseOf; simpl.
  rewrite orb_true_iff, same_prototype_true, existsb_exists; split.
  - intros [H|(m & Hm & Hp)]; [left; exact H|right].
    apply same_prototype_true in Hp; subst; exact Hm.
  - intros [H|H]; [left; exact H|right].
    exists c'; split; [exact H|apply same_prototype_true; reflexivity].
Qed.

Lemma Builtin_isBaseOf_antisym (c c' : BuiltinClass) (p p' : option Z) :
  Builtin_isBaseOf c (Builtin c' p') = true ->
  Builtin_isBaseOf c' (Builtin c p) = true ->
  c = c'.
Proof.
  rewrite !Builtin_isBaseOf_cases.
  intros [H|H] [H'|H']; auto.
  destruct (enum_members_leaf _ _ H) as [Hnil _].
  rewrite Hnil in H'; destruct H'.
Qed.

Lemma Builtin_isBaseOf_other (c : BuiltinClass) (type : Ty) :
  (forall c' p', type <> Builtin c' p') -> Builtin_isBaseOf c type = false.
Proof.
  intros H; unfold Builtin_isBaseOf.
  assert (Hd : forall m, DataType_isBaseOf m type = false).
  { intros m; destruct type; try reflexivity. exfalso; eapply H; reflexivity. }
  rewrite Hd; simpl.
  induction (enum_members c) as [|m l IH]; simpl; [reflexivity|].
  rewrite Hd; exact IH.
Qed.

Lemma and_then_true (a b : option bool) :
  and_then a b = Some true <-> a = Some true /\ b = Some true.
Proof.
  destruct a as [[|]|]; simpl; split; try tauto; try (intros [? ?]; congruence);
    intros; discriminate.
Qed.

(** Solves the cases where the two types are of different classes. *)

Ltac other_class :=
  match goal with
  | H : Builtin_isBaseOf ?c ?t = true |- _ =>
      rewrite Builtin_isBaseOf_other in H by (intros; discriminate);
      discriminate H
  | H : Some false = Some true |- _ => discriminate H
  | H : Some _ = Some true |- _ => injection H as H; other_class
  | H : or_else _ _ = Some true |- _ => simpl in H; other_class
  end.

Lemma isBaseOf_both_variant (a b : Ty) :
  isBaseOf a b = Some true -> isBaseOf b a = Some true ->
  is_data a = true -> is_data b = true ->
  variant a = variant b.
Proof.
  revert b; induction a as
    [ | | | | n | n | p | c priv | i IHi | k IHk v IHv | s IHs | s IHs | s IHs ];
    intros b Hab Hba Da Db; simpl in Da; try discriminate Da;
    destruct b; simpl in Db; try discriminate Db;
    simpl in Hab, Hba; try other_class.
  - reflexivity.
  - injection Hab as Hab. apply String.eqb_eq in Hab. subst; reflexivity.
  - injection Hab as Hab; injection Hba as Hba.
    rewrite (prefix_antisym _ _ Hab Hba); reflexivity.
  - injection Hab as Hab; injection Hba as Hba.
    rewrite (Builtin_isBaseOf_antisym _ _ _ _ Hab Hba); reflexivity.
  - simpl; f_equal; auto.
  - apply and_then_true in Hab as [Hk Hv].
    apply and_then_true in Hba as [Hk' Hv'].
    apply andb_true_iff in Da as [Dk Dv].
    apply andb_true_iff in Db as [Dk' Dv'].
    simpl; f_equal; auto.
  - simpl; f_equal; auto.
  - simpl; f_equal; auto.
  - simpl; f_equal; auto.
Qed.

Lemma isBaseOf_variant_eq (a b : Ty) :
  variant a = variant b -> is_data a = true -> isBaseOf a b = Some true.
Proof.
  revert b; induction a as
    [ | | | | n | n | p | c priv | i IHi | k IHk v IHv | s IHs | s IHs | s IHs ];
    intros b E Da; simpl in Da; try discriminate Da;
    destruct b; simpl in E; try discriminate E; try injection E as E; simpl.
  - reflexivity.
  - subst; rewrite String.eqb_refl; reflexivity.
  - subst; rewrite prefix_refl; reflexivity.
  - subst. f_equal. apply Builtin_isBaseOf_cases; left; reflexivity.
  - auto.
  - apply andb_true_iff in Da as [Dk Dv].
    apply and_then_true; split; auto.
  - auto.
  - auto.
  - auto.
Qed.

Lemma is_data_variant (a b : Ty) :
  variant a = variant b -> is_data a = is_data b.
Proof.
  revert b; induction a; intros b E; destruct b; simpl in E;
    try discriminate E; try injection E as E; simpl; try reflexivity; auto.
  f_equal; auto.
Qed.

(** The relation is one-way between an option type and its [Some] member,
    and between a map of [AnyDataType] values and a map of [Int] values. *)

Example OptionType_isBaseOf_Some :
  isBaseOf (OptionType (Builtin IntType None))
           (OptionSomeType (Builtin IntType None)) = Some true /\
  isBaseOf (OptionSomeType (Builtin IntType None))
           (OptionType (Builtin IntType None)) = Some false.
Proof. split; reflexivity. Qed.

Example MapType_of_AnyDataType_isBaseOf :
  isBaseOf (MapType (Builtin ScriptPurposeType None) AnyDataType)
           (MapType (Builtin ScriptPurposeType None) (Builtin IntType None))
  = Some true /\
  isBaseOf (MapType (Builtin ScriptPurposeType None) (Builtin IntType None))
           (MapType (Builtin ScriptPurposeType None) AnyDataType)
  = Some false.
Proof. split; reflexivity. Qed.

(** C7 (amended). For builtin types [A] and [B] whose type arguments are
    data types down to the leaves (builtin, statement or type-class
    types, or [AnyDataType]: no unresolved type parameter among them),
    [A.isBaseOf(B)] and [B.isBaseOf(A)] are both true if and only if [A]
    and [B] are the same builtin variant with the same item, key, value
    and content types. *)

Theorem isBaseOf_mutual_iff_same_variant (A B : Ty) :
  is_builtin A = true -> is_builtin B = true ->
  is_data A = true -> is_data B = true ->
  (isBaseOf A B = Some true /\ isBaseOf B A = Some true) <->
  variant A = variant B.
Proof.
  intros _ _ DA DB; split.
  - intros [H1 H2]; apply isBaseOf_both_variant; assumption.
  - intros E; split; apply isBaseOf_variant_eq; auto.
Qed.

Lemma isBaseOf_mutual_iff_same_variant_witness :
  (isBaseOf (MapType (Builtin ByteArrayType (Some 32%Z)) (ListType (Builtin IntType None)))
            (MapType (Builtin ByteArrayType None) (ListType (Builtin IntType None)))
   = Some true /\
   isBaseOf (MapType (Builtin ByteArrayType None) (ListType (Builtin IntType None)))
            (MapType (Builtin ByteArrayType (Some 32%Z)) (ListType (Builtin IntType None)))
   = Some true) <->
  variant (MapType (Builtin ByteArrayType (Some 32%Z)) (ListType (Builtin IntType None)))
  = variant (MapType (Builtin ByteArrayType None) (ListType (Builtin IntType None))).
Proof.
  apply isBaseOf_mutual_iff_same_variant; reflexivity.
Defined.

(** The claim as stated fails for a builtin type over an unresolved type
    parameter: [[]a], the return type that [ListType] gives its method
    [map], is a builtin type and the same variant as itself, and asking
    whether it is a base type of itself throws ([ParamTypeRef] inherits
    the [isBaseOf] of [Type], which throws "not yet implemented"), so the
    two answers are not both true. *)

Lemma isBaseOf_of_unresolved_list :
  is_builtin (ListType (ParamTypeRef "a")) = true /\
  variant (ListType (ParamTypeRef "a")) = variant (ListType (ParamTypeRef "a")) /\
  isBaseOf (ListType (ParamTypeRef "a")) (ListType (ParamTypeRef "a")) = None /\
  same (ListType (ParamTypeRef "a")) (ListType (ParamTypeRef "a")) <> Some true.
Proof. repeat split. discriminate. Qed.

End Types.

(** * Generic inference *)

Module Inference.
Import Types.

(** [ParamTypeRef.infer], inherited by [TypeClassType].  [map] is the
    [Map<string, Type>] of the pass; the new map is returned with the
    result.  [type] is [None] for [null].  For an existing binding the
    method first logs [prev.toString()], which throws for a binding
    without a text. *)

Definition ParamTypeRef_infer (name : string) (map : gmap string Ty)
    (type : option Ty) : Result (Ty * gmap string Ty) :=
  match map !! name with
  | None =>
      match type with
      | Some t => Ok (t, <[name := t]> map)
      | None => Throw InternalError (name ++ " should be in map")
      end
  | Some prev =>
      let* _ := toString_returns prev in
      Ok (prev, map)
  end.

(** [infer] of every class.  The default [Type.infer] returns [this]. *)

Fixpoint infer (this : Ty) (map : gmap string Ty) (type : option Ty)
    : Result (Ty * gmap string Ty) :=
  match this with
  | ParamTypeRef name | TypeClassType name => ParamTypeRef_infer name map type
  | ListType itemType =>
      match type with
      | None =>
          let* r := infer itemType map None in Ok (ListType (fst r), snd r)
      | Some (ListType itemType') =>
          let* r := infer itemType map (Some itemType') in
          Ok (ListType (fst r), snd r)
      | Some _ => Throw TypeError "unable to infer type"
      end
  | MapType keyType valueType =>
      match type with
      | None =>
          let* k := infer keyType map None in
          let* v := infer valueType (snd k) None in
          Ok (MapType (fst k) (fst v), snd v)
      | Some (MapType keyType' valueType') =>
          let* k := infer keyType map (Some keyType') in
          let* v := infer valueType (snd k) (Some valueType') in
          Ok (MapType (fst k) (fst v), snd v)
      | Some _ => Throw TypeError "unable to infer type"
      end
  | OptionType someType =>
      match type with
      | None =>
          let* r := infer someType map None in Ok (OptionType (fst r), snd r)
      | Some (OptionType someType')
      | Some (OptionSomeType someType')
      | Some (OptionNoneType someType') =>
          let* r := infer someType map (Some someType') in
          Ok (OptionType (fst r), snd r)
      | Some _ => Throw TypeError "unable to infer type"
      end
  | OptionSomeType someType =>
      match type with
      | None =>
          let* r := infer someType map None in
          Ok (OptionSomeType (fst r), snd r)
      | Some (OptionSomeType someType') =>
          let* r := infer someType map (Some someType') in
          Ok (OptionSomeType (fst r), snd r)
      | Some _ => Throw TypeError "unable to infer type"
      end
  | OptionNoneType someType =>
      match type with
      | None =>
          let* r := infer someType map None in
          Ok (OptionNoneType (fst r), snd r)
      | Some (OptionNoneType someType') =>
          let* r := infer someType map (Some someType') in
          Ok (OptionNoneType (fst r), snd r)
      | Some _ => Throw TypeError "unable to infer type"
      end
  | _ => Ok (this, map)
  end.

(** [ArgType] and [FuncType]. *)

Record ArgType : Type := mkArgType {
  arg_name : option string;
  arg_type : Ty;
  arg_optional : bool
}.

Record FuncType : Type := mkFuncType {
  argTypes : list ArgType;
  retTypes : list Ty
}.

Definition ArgType_infer (this : ArgType) (map : gmap string Ty)
    (type : option Ty) : Result (ArgType * gmap string Ty) :=
  let* r := infer (arg_type this) map type in
  Ok (mkArgType (arg_name this) (fst r) (arg_optional this), snd r).

(** [this.#argTypes.map((at, i) => at.infer(site, map, argTypes[i]))],
    from index [i] on; the array callbacks run from left to right on the
    one shared map. *)

Fixpoint infer_args (ats : list ArgType) (i : nat) (types : list Ty)
    (map : gmap string Ty) : Result (list ArgType * gmap string Ty) :=
  match ats with
  | [] => Ok ([], map)
  | a :: ats' =>
      let* r := ArgType_infer a map (types !! i) in
      let* rs := infer_args ats' (S i) types (snd r) in
      Ok (fst r :: fst rs, snd rs)
  end.

(** [this.#retTypes.map(rt => rt.infer(site, map, null))]. *)

Fixpoint infer_rets (rts : list Ty) (map : gmap string Ty)
    : Result (list Ty * gmap string Ty) :=
  match rts with
  | [] => Ok ([], map)
  | t :: rts' =>
      let* r := infer t map None in
      let* rs := infer_rets rts' (snd r) in
      Ok (fst r :: fst rs, snd rs)
  end.

(** [FuncType.inferArgs]. *)

Definition inferArgs (this : FuncType) (map : gmap string Ty)
    (types : list Ty) : Result (FuncType * gmap string Ty) :=
  if Nat.eqb (length types) (length (argTypes this)) then
    let* a := infer_args (argTypes this) 0 types map in
    let* r := infer_rets (retTypes this) (snd a) in
    Ok (mkFuncType (fst a) (fst r), snd r)
  else Throw TypeError "unable to infer from args".

(** *** Bindings are only ever added *)

Lemma ParamTypeRef_infer_extends name (map : gmap string Ty) type r map' :
  ParamTypeRef_infer name map type = Ok (r, map') -> map ⊆ map'.
Proof.
  unfold ParamTypeRef_infer, toString_returns.
  destruct (map !! name) as [prev|] eqn:E.
  - destruct (printable prev); [|discriminate].
    intros [= _ <-]; reflexivity.
  - destruct type as [t|]; [|discriminate].
    intros [= _ <-]. apply insert_subseteq; exact E.
Qed.

Ltac bind_inv H :=
  let a := fresh "a" in let Ha := fresh "Ha" in
  apply bind_ok_inv in H as (a & Ha & H).

Lemma infer_extends (this : Ty) :
  forall (map : gmap string Ty) type r map',
    infer this map type = Ok (r, map') -> map ⊆ map'.
Proof.
  induction this as
    [ | | | | n | n | p | c priv | i IHi | k IHk v IHv | s IHs | s IHs | s IHs ];
    intros map type r map' H; simpl in H;
    try (injection H as _ <-; reflexivity);
    try (eapply ParamTypeRef_infer_extends; exact H).
  - destruct type as [[]|]; try discriminate H;
      bind_inv H; destruct a as [t m]; injection H as _ <-.
    all: eapply IHi; eassumption.
  - destruct type as [[]|]; try discriminate H;
      bind_inv H; destruct a as [t m]; bind_inv H; destruct a as [t' m'];
      injection H as _ <-; simpl in *.
    all: etrans; [eapply IHk; eassumption | eapply IHv; eassumption].
  - destruct type as [[]|]; try discriminate H;
      bind_inv H; destruct a as [t m]; injection H as _ <-.
    all: eapply IHs; eassumption.
  - destruct type as [[]|]; try discriminate H;
      bind_inv H; destruct a as [t m]; injection H as _ <-.
    all: eapply IHs; eassumption.
  - destruct type as [[]|]; try discriminate H;
      bind_inv H; destruct a as [t m]; injection H as _ <-.
    all: eapply IHs; eassumption.
Qed.

Lemma infer_args_extends (ats : list ArgType) :
  forall i types (map : gmap string Ty) r map',
    infer_args ats i types map = Ok (r, map') -> map ⊆ map'.
Proof.
  induction ats as [|a ats IH]; intros i types map r map' H; simpl in H.
  - injection H as _ <-; reflexivity.
  - bind_inv H. destruct a0 as [a' m1]. bind_inv H. destruct a0 as [rs m2].
    injection H as _ <-. unfold ArgType_infer in Ha. bind_inv Ha.
    destruct a0 as [t m0]. injection Ha as _ <-. simpl in *.
    etrans; [eapply infer_extends; eassumption | eapply IH; eassumption].
Qed.

Lemma infer_rets_extends (rts : list Ty) :
  forall (map : gmap string Ty) r map',
    infer_rets rts map = Ok (r, map') -> map ⊆ map'.
Proof.
  induction rts as [|t rts IH]; intros map r map' H; simpl in H.
  - injection H as _ <-; reflexivity.
  - bind_inv H. destruct a as [t' m1]. bind_inv H. destruct a as [rs m2].
    injection H as _ <-. simpl in *.
    etrans; [eapply infer_extends; eassumption | eapply IH; eassumption].
Qed.

(** C3 (amended). In an inference pass the first concrete type matched
    against a free type parameter is stored as its binding; every later
    occurrence returns the stored binding unchanged, whatever concrete
    type it is matched against: the offered type is never compared with
    the binding, so a different type is not an error of the pass.  The
    one failure of a later occurrence is that of printing the stored
    binding, when it is a type without a text (an unresolved type
    parameter, [AnyDataType], [HashType], or a container of one of them).
    No step of a pass, on any declared type or argument list, removes or
    changes an existing binding. *)

Theorem infer_binding_is_kept (name : string) (map : gmap string Ty)
    (type : option Ty) :
  (forall t, map !! name = None -> type = Some t ->
     infer (ParamTypeRef name) map type = Ok (t, <[name := t]> map)) /\
  (forall prev, map !! name = Some prev ->
     infer (ParamTypeRef name) map type
     = if printable prev then Ok (prev, map)
       else Throw InternalError "not yet implemented") /\
  (forall this r map', infer this map type = Ok (r, map') ->
     forall k v, map !! k = Some v -> map' !! k = Some v) /\
  (forall fn types fn' map', inferArgs fn map types = Ok (fn', map') ->
     forall k v, map !! k = Some v -> map' !! k = Some v).
Proof.
  repeat split.
  - intros t Hnone ->. simpl. unfold ParamTypeRef_infer. rewrite Hnone.
    reflexivity.
  - intros prev Hprev. simpl. unfold ParamTypeRef_infer, toString_returns.
    rewrite Hprev. destruct (printable prev); reflexivity.
  - intros this r map' H k v Hk.
    apply infer_extends in H.
    eapply lookup_weaken; eassumption.
  - intros fn types fn' map' H k v Hk.
    unfold inferArgs in H.
    destruct (Nat.eqb _ _); [|discriminate H].
    bind_inv H. destruct a as [ats m1]. bind_inv H. destruct a as [rts m2].
    injection H as _ <-. simpl in *.
    apply infer_args_extends in Ha. apply infer_rets_extends in Ha0.
    eapply lookup_weaken; [|exact Ha0].
    eapply lookup_weaken; [|exact Ha]. exact Hk.
Qed.

Lemma infer_binding_is_kept_witness :
  infer (ParamTypeRef "a") (<["a" := Builtin IntType None]> ∅)
        (Some (ListType (Builtin IntType None)))
  = Ok (Builtin IntType None, <["a" := Builtin IntType None]> ∅).
Proof.
  exact (proj1 (proj2 (infer_binding_is_kept "a"
           (<["a" := Builtin IntType None]> ∅)
           (Some (ListType (Builtin IntType None)))))
           (Builtin IntType None) eq_refl).
Defined.

(** The claim as stated fails: with [a] bound to [Int], matching a later
    occurrence of [a] against [String], which is not the same type,
    returns [Int] and no error; so does the whole pass [inferArgs] on the
    parameter list [(a, a)] and the argument types [(Int, String)]. *)

Lemma infer_mismatch_is_not_an_error :
  same (Builtin IntType None) (Builtin StringType None) = Some false /\
  infer (ParamTypeRef "a") (<["a" := Builtin IntType None]> ∅)
        (Some (Builtin StringType None))
  = Ok (Builtin IntType None, <["a" := Builtin IntType None]> ∅) /\
  inferArgs
    (mkFuncType [mkArgType None (ParamTypeRef "a") false;
                 mkArgType None (ParamTypeRef "a") false]
                [ParamTypeRef "a"])
    ∅ [Builtin IntType None; Builtin StringType None]
  = Ok (mkFuncType [mkArgType None (Builtin IntType None) false;
                    mkArgType None (Builtin IntType None) false]
                   [Builtin IntType None],
        <["a" := Builtin IntType None]> ∅).
Proof. repeat split; reflexivity. Qed.

End Inference.

(** * Function calls *)

Module Calls.
Import Types Inference.

(** What [checkCall] needs of an argument: the virtual method
    [isInstanceOf(type)].  [None] is a thrown plain [Error] (the base
    implementation of [Instance] throws "not yet implemented", and so does
    [isBaseOf] of an unresolved [ParamTypeRef]). *)

Class InstanceLike (I : Type) := isInstanceOf : I -> Ty -> option bool.

(** The other method that [checkCall] calls on an argument is
    [toString()], for its messages: [instance_printable v] tells whether
    [v.toString()] returns. *)

Class Printable (I : Type) := instance_printable : I -> bool.

(** The instances that carry a non-function type.  [DataInstance] asks
    [type.isBaseOf(this.#type)]; [VoidInstance], and [ErrorInstance] which
    extends it, ask [type instanceof VoidType]. *)

Inductive Instance : Type :=
| DataInstance (type : Ty)
| VoidInstance
| ErrorInstance.

#[global] Instance Instance_isInstanceOf : InstanceLike Instance :=
  fun this type =>
    match this with
    | DataInstance t => isBaseOf type t
    | VoidInstance | ErrorInstance =>
        Some (match type with VoidType | ErrorType => true | _ => false end)
    end.

(** [DataInstance.toString] is [this.#type.toString()]; the text of a
    [VoidInstance] is ["()"]. *)

#[global] Instance Instance_printable : Printable Instance :=
  fun this =>
    match this with
    | DataInstance t => printable t
    | VoidInstance | ErrorInstance => true
    end.

(** [ArgType]: the getter [name] gives the empty string for an unnamed
    argument. *)

Definition ArgType_name (a : ArgType) : string :=
  match arg_name a with
  | None => ""
  | Some n => n
  end.

Definition isNamed (a : ArgType) : bool :=
  match arg_name a with
  | None => false
  | Some _ => true
  end.

Definition isOptional (a : ArgType) : bool := arg_optional a.

Definition nArgs (fn : FuncType) : nat := length (argTypes fn).

Definition nNonOptArgs (fn : FuncType) : nat :=
  length (List.filter (fun a => negb (isOptional a)) (argTypes fn)).

(** [FuncType.toString()] interpolates the text of every argument
    ([ArgType.toString], which ends with the text of the type of the
    argument) and the text of every return type. *)

Definition FuncType_printable (fn : FuncType) : bool :=
  forallb (fun a => printable (arg_type a)) (argTypes fn)
  && forallb printable (retTypes fn).

(** [this.#argTypes.findIndex(at => at.name == key)]; [None] for [-1]. *)

Fixpoint findIndex (key : string) (ats : list ArgType) : option nat :=
  match ats with
  | [] => None
  | a :: ats' =>
      if String.eqb (ArgType_name a) key then Some 0
      else option_map S (findIndex key ats')
  end.

Section CheckCall.
Context {I : Type} `{InstanceLike I} `{Printable I}.

(** [namedArgs] is the plain object [{[name: string]: Instance}], as the
    list of its own entries in enumeration order.  [own_key]: the object
    has an entry of that name.  [has_key] is [key in namedArgs], which
    holds for an inherited name as well. *)

Definition own_key (key : string) (namedArgs : list (string * I)) : bool :=
  existsb (fun kv => String.eqb (fst kv) key) namedArgs.

Definition has_key (key : string) (namedArgs : list (string * I)) : bool :=
  own_key key namedArgs || inherited key.

(** The loop [for (let i = 0; i < this.nNonOptArgs; i++)] over
    [this.#argTypes[i]], run when there are fewer positional arguments than
    non-optional ones. *)

Fixpoint check_covered (ats : list ArgType) (namedArgs : list (string * I))
    : Result unit :=
  match ats with
  | [] => Ok tt
  | a :: ats' =>
      if negb (isNamed a) then
        Throw TypeError "expected more positional arg(s)"
      else if negb (has_key (ArgType_name a) namedArgs) then
        Throw TypeError ("named arg " ++ ArgType_name a ++ " missing from call")
      else check_covered ats' namedArgs
  end.

(** [if (!v.isInstanceOf(type)) throw site.typeError(msg)]: the message
    interpolates [type.toString()] and then [v.toString()], and is
    evaluated before the type error is made. *)

Definition check_instance (v : I) (type : Ty) (msg : string) : Result unit :=
  match isInstanceOf v type with
  | Some true => Ok tt
  | Some false =>
      if printable type && instance_printable v then Throw TypeError msg
      else Throw InternalError "not yet implemented"
  | None => Throw InternalError "not yet implemented"
  end.

(** The loop over the positional arguments, [posArgs[i]] against
    [this.#argTypes[i]].  The arity check before it makes the last case
    unreachable. *)

Fixpoint check_positional (posArgs : list I) (ats : list ArgType)
    : Result unit :=
  match posArgs, ats with
  | [], _ => Ok tt
  | v :: posArgs', a :: ats' =>
      let* _ := check_instance v (arg_type a) "unexpected type for positional arg" in
      check_positional posArgs' ats'
  | _ :: _, [] => Throw InternalError "this.#argTypes[i] is undefined"
  end.

(** The loop [for (let key in namedArgs)] over the own entries.  The
    message for a name that no argument has interpolates
    [this.toString()]. *)

Fixpoint check_named (this : FuncType) (nPos : nat)
    (namedArgs : list (string * I)) : Result unit :=
  match namedArgs with
  | [] => Ok tt
  | (key, v) :: namedArgs' =>
      match findIndex key (argTypes this) with
      | None =>
          if FuncType_printable this then
            Throw TypeError
              ("arg named " ++ key ++ " not found in function type")
          else Throw InternalError "not yet implemented"
      | Some i =>
          if Nat.ltb i nPos then
            Throw TypeError
              ("named arg '" ++ key ++ "' already covered by positional arg")
          else
            match argTypes this !! i with
            | None => Throw InternalError "this.#argTypes[i] is undefined"
            | Some thisArg =>
                let* _ := check_instance v (arg_type thisArg)
                            ("unexpected type for arg '" ++ key ++ "'") in
                check_named this nPos namedArgs'
            end
      end
  end.

(** [FuncType.checkCall].  The texts of the error messages are shortened:
    the source also prints the counts and the types. *)

Definition checkCall (this : FuncType) (posArgs : list I)
    (namedArgs : list (string * I)) : Result (list Ty) :=
  let* _ :=
    if Nat.ltb (length posArgs) (nNonOptArgs this) then
      check_covered (take (nNonOptArgs this) (argTypes this)) namedArgs
    else if Nat.ltb (length (argTypes this)) (length posArgs) then
      Throw TypeError "expected fewer arg(s)"
    else Ok tt in
  let* _ := check_positional posArgs (argTypes this) in
  let* _ := check_named this (length posArgs) namedArgs in
  Ok (retTypes this).

(** When a call is accepted. *)

Definition supplied_by_name (namedArgs : list (string * I)) (a : ArgType)
    : Prop :=
  isNamed a = true /\ own_key (ArgType_name a) namedArgs = true.

Definition arity_ok (this : FuncType) (posArgs : list I)
    (namedArgs : list (string * I)) : Prop :=
  if Nat.ltb (length posArgs) (nNonOptArgs this)
  then Forall (supplied_by_name namedArgs)
              (take (nNonOptArgs this) (argTypes this))
  else length posArgs <= nArgs this.

Definition positional_ok (this : FuncType) (posArgs : list I) : Prop :=
  Forall (fun va => isInstanceOf (fst va) (arg_type (snd va)) = Some true)
         (combine posArgs (argTypes this)).

Definition named_ok (this : FuncType) (nPos : nat)
    (namedArgs : list (string * I)) : Prop :=
  Forall (fun kv =>
            exists i a,
              findIndex (fst kv) (argTypes this) = Some i /\
              nPos <= i /\
              argTypes this !! i = Some a /\
              isInstanceOf (snd kv) (arg_type a) = Some true)
         namedArgs.

Definition accepts (this : FuncType) (posArgs : list I)
    (namedArgs : list (string * I)) : Prop :=
  arity_ok this posArgs namedArgs /\
  positional_ok this posArgs /\
  named_ok this (length posArgs) namedArgs.

(** No declared argument has a name that every object inherits. *)

Definition ordinary_names (this : FuncType) : Prop :=
  Forall (fun a => inherited (ArgType_name a) = false) (argTypes this).

(** Every instance test that a call can make has an answer, and every
    text that a message of the call can interpolate exists. *)

Definition tests_defined (this : FuncType) (posArgs : list I)
    (namedArgs : list (string * I)) : Prop :=
  forall v a,
    (In v posArgs \/ In v (List.map snd namedArgs)) ->
    In a (argTypes this) ->
    isInstanceOf v (arg_type a) <> None.

Definition messages_defined (this : FuncType) (posArgs : list I)
    (namedArgs : list (string * I)) : Prop :=
  FuncType_printable this = true /\
  forall v, (In v posArgs \/ In v (List.map snd namedArgs)) ->
            instance_printable v = true.

(** *** The three loops *)

Lemma unit_result_ok (r : Result unit) (u : unit) : r = Ok u -> r = Ok tt.
Proof. destruct u; auto. Qed.

Lemma own_key_exists (key : string) (namedArgs : list (string * I)) :
  own_key key namedArgs = true -> exists v, In (key, v) namedArgs.
Proof.
  unfold own_key; rewrite existsb_exists.
  intros ([k v] & Hin & Hk); simpl in Hk.
  apply String.eqb_eq in Hk; subst; eauto.
Qed.

Lemma has_key_own (key : string) (namedArgs : list (string * I)) :
  inherited key = false -> has_key key namedArgs = own_key key namedArgs.
Proof. unfold has_key. intros ->. apply orb_false_r. Qed.

Lemma check_covered_spec (ats : list ArgType) (namedArgs : list (string * I)) :
  Forall (fun a => inherited (ArgType_name a) = false) ats ->
  (check_covered ats namedArgs = Ok tt /\ Forall (supplied_by_name namedArgs) ats)
  \/ (throws TypeError (check_covered ats namedArgs)
      /\ ~ Forall (supplied_by_name namedArgs) ats).
Proof.
  induction 1 as [|a ats Ha _ IH]; simpl.
  - left; split; [reflexivity | constructor].
  - destruct (isNamed a) eqn:En; simpl.
    + rewrite (has_key_own _ _ Ha).
      destruct (own_key (ArgType_name a) namedArgs) eqn:Ek; simpl.
      * destruct IH as [[IH1 IH2]|[IH1 IH2]].
        -- left; split; [exact IH1 | constructor; [split; assumption | exact IH2]].
        -- right; split; [exact IH1|].
           intros HF; apply IH2; inversion HF; assumption.
      * right; split; [eexists; reflexivity|].
        intros HF; inversion HF as [|? ? [_ Hk] _]; congruence.
    + right; split; [eexists; reflexivity|].
      intros HF; inversion HF as [|? ? [Hn _] _]; congruence.
Qed.

Lemma check_instance_spec (v : I) (type : Ty) (msg : string) :
  isInstanceOf v type <> None ->
  printable type = true -> instance_printable v = true ->
  (check_instance v type msg = Ok tt /\ isInstanceOf v type = Some true)
  \/ (throws TypeError (check_instance v type msg)
      /\ isInstanceOf v type <> Some true).
Proof.
  unfold check_instance; intros Hd -> ->.
  destruct (isInstanceOf v type) as [[|]|].
  - left; split; reflexivity.
  - right; split; [eexists; reflexivity | discriminate].
  - congruence.
Qed.

Lemma check_instance_ok (v : I) (type : Ty) (msg : string) :
  check_instance v type msg = Ok tt <-> isInstanceOf v type = Some true.
Proof.
  unfold check_instance; destruct (isInstanceOf v type) as [[|]|];
    [| destruct (printable type && instance_printable v) |];
    split; intros; congruence.
Qed.

Lemma check_positional_ok (posArgs : list I) (ats : list ArgType) :
  length posArgs <= length ats ->
  check_positional posArgs ats = Ok tt <->
  Forall (fun va => isInstanceOf (fst va) (arg_type (snd va)) = Some true)
         (combine posArgs ats).
Proof.
  revert ats; induction posArgs as [|v vs IH]; intros [|a ats] Hlen;
    simpl in *; try lia.
  - split; [constructor | reflexivity].
  - split; [constructor | reflexivity].
  - rewrite Forall_cons; simpl.
    rewrite <- (check_instance_ok v (arg_type a) "unexpected type for positional arg").
    rewrite <- IH by lia.
    destruct (check_instance v (arg_type a) _) as [[]|]; simpl.
    + tauto.
    + split; [discriminate | intros [? _]; discriminate].
Qed.

Lemma check_positional_kind (posArgs : list I) (ats : list ArgType) :
  length posArgs <= length ats ->
  (forall v a, In v posArgs -> In a ats -> isInstanceOf v (arg_type a) <> None) ->
  Forall (fun a => printable (arg_type a) = true) ats ->
  (forall v, In v posArgs -> instance_printable v = true) ->
  check_positional posArgs ats = Ok tt
  \/ throws TypeError (check_positional posArgs ats).
Proof.
  revert ats; induction posArgs as [|v vs IH]; intros [|a ats] Hlen Hd Hp Hv;
    simpl in *; try lia; auto.
  apply Forall_cons in Hp as [Hpa Hp].
  destruct (check_instance_spec v (arg_type a) "unexpected type for positional arg")
    as [[-> _]|[[msg ->] _]]; simpl.
  - apply Hd; auto.
  - exact Hpa.
  - apply Hv; auto.
  - apply IH; [lia | | exact Hp |]; intros; [apply Hd | apply Hv]; auto.
  - right; eexists; reflexivity.
Qed.

Lemma findIndex_lookup (key : string) (ats : list ArgType) (i : nat) :
  findIndex key ats = Some i ->
  exists a, ats !! i = Some a /\ ArgType_name a = key.
Proof.
  revert i; induction ats as [|a ats IH]; intros i; simpl; [discriminate|].
  destruct (String.eqb_spec (ArgType_name a) key) as [E|E].
  - intros [= <-]; eauto.
  - destruct (findIndex key ats) as [j|]; simpl; [|discriminate].
    intros [= <-]. destruct (IH j eq_refl) as (b & Hb & Hn). eauto.
Qed.

Lemma check_named_ok (this : FuncType) (nPos : nat)
    (namedArgs : list (string * I)) :
  check_named this nPos namedArgs = Ok tt <->
  Forall (fun kv =>
            exists i a,
              findIndex (fst kv) (argTypes this) = Some i /\ nPos <= i /\
              argTypes this !! i = Some a /\
              isInstanceOf (snd kv) (arg_type a) = Some true)
         namedArgs.
Proof.
  induction namedArgs as [|[key v] named IH]; simpl.
  - split; [constructor | reflexivity].
  - rewrite Forall_cons; simpl.
    destruct (findIndex key (argTypes this)) as [i|] eqn:Ei.
    + destruct (Nat.ltb_spec i nPos) as [Hlt|Hge].
      * split; [discriminate|].
        intros [(j & a & [= <-] & Hj & _) _]; lia.
      * destruct (argTypes this !! i) as [a|] eqn:Ea.
        -- destruct (check_instance v (arg_type a) _) as [[]|] eqn:Ec; simpl.
           ++ apply check_instance_ok in Ec. rewrite IH. split.
              ** intros HF; split; [|exact HF]. exists i, a; auto.
              ** intros [_ HF]; exact HF.
           ++ split; [discriminate|].
              intros [(j & b & [= <-] & _ & Hb & Hinst) _].
              rewrite Ea in Hb; injection Hb as <-.
              apply (check_instance_ok v (arg_type a)
                       ("unexpected type for arg '" ++ key ++ "'")) in Hinst.
              congruence.
        -- split; [discriminate|].
           intros [(j & b & [= <-] & _ & Hb & _) _]; congruence.
    + split; [destruct (FuncType_printable this); discriminate|].
      intros [(j & b & Hj & _) _]; discriminate.
Qed.

Lemma check_named_kind (this : FuncType) (nPos : nat)
    (namedArgs : list (string * I)) :
  (forall v a, In v (List.map snd namedArgs) -> In a (argTypes this) ->
               isInstanceOf v (arg_type a) <> None) ->
  FuncType_printable this = true ->
  (forall v, In v (List.map snd namedArgs) -> instance_printable v = true) ->
  check_named this nPos namedArgs = Ok tt
  \/ throws TypeError (check_named this nPos namedArgs).
Proof.
  intros Hd Hp. induction namedArgs as [|[key v] named IH]; simpl; intros Hv;
    auto.
  destruct (findIndex key (argTypes this)) as [i|] eqn:Ei;
    [|rewrite Hp; right; eexists; reflexivity].
  destruct (Nat.ltb i nPos); [right; eexists; reflexivity|].
  destruct (findIndex_lookup _ _ _ Ei) as (a & Ha & _). rewrite Ha.
  assert (Hin : In a (argTypes this)).
  { apply list_elem_of_In. eapply list_elem_of_lookup_2; exact Ha. }
  destruct (check_instance_spec v (arg_type a)
              ("unexpected type for arg '" ++ key ++ "'"))
    as [[-> _]|[[msg ->] _]]; simpl.
  - apply Hd; [left; reflexivity | exact Hin].
  - unfold FuncType_printable in Hp. apply andb_true_iff in Hp as [Hp _].
    rewrite forallb_forall in Hp. apply Hp, Hin.
  - apply Hv. left. reflexivity.
  - apply IH.
    + intros; apply Hd; simpl; auto.
    + intros; apply Hv; simpl; auto.
  - right; eexists; reflexivity.
Qed.

Lemma nNonOptArgs_le (this : FuncType) : nNonOptArgs this <= nArgs this.
Proof. unfold nNonOptArgs, nArgs. apply List.filter_length_le. Qed.

Lemma arity_ok_length (this : FuncType) (posArgs : list I)
    (namedArgs : list (string * I)) :
  arity_ok this posArgs namedArgs -> length posArgs <= length (argTypes this).
Proof.
  unfold arity_ok. pose proof (nNonOptArgs_le this) as Hle. unfold nArgs in *.
  destruct (Nat.ltb_spec (length posArgs) (nNonOptArgs this)); intros; lia.
Qed.

(** A call with some, but fewer than [nNonOptArgs], positional arguments
    is never accepted: the first declared argument would have to be
    supplied by name, which the loop over the named arguments refuses. *)

Lemma partial_positional_rejected (this : FuncType) (posArgs : list I)
    (namedArgs : list (string * I)) :
  0 < length posArgs < nNonOptArgs this ->
  ~ accepts this posArgs namedArgs.
Proof.
  intros [Hpos Hlt] (Har & _ & Hnamed).
  unfold arity_ok in Har.
  destruct (Nat.ltb_spec (length posArgs) (nNonOptArgs this)); [|lia].
  pose proof (nNonOptArgs_le this) as Hle. unfold nArgs in Hle.
  destruct (argTypes this) as [|a ats] eqn:Ea; simpl in Hle; [lia|].
  destruct (nNonOptArgs this) as [|q]; [lia|]. simpl in Har.
  inversion Har as [|? ? [Hn Hk] _]; subst.
  apply own_key_exists in Hk as [v Hin].
  unfold named_ok in Hnamed. rewrite List.Forall_forall in Hnamed.
  destruct (Hnamed _ Hin) as (i & b & Hi & Hge & _). simpl in Hi.
  rewrite Ea in Hi. simpl in Hi. rewrite String.eqb_refl in Hi.
  injection Hi as <-. lia.
Qed.

(** C6 (amended). For a function type none of whose arguments has a name
    that every object inherits, [checkCall] returns the declared return
    types exactly when the call is accepted: there are at least
    [nNonOptArgs] and at most [nArgs] positional arguments -- or, with
    fewer, every one of the first [nNonOptArgs] declared arguments is
    named and supplied by name --, every positional argument is an
    instance of the declared type at its position, and every named
    argument names a declared argument that no positional argument covers
    and is an instance of its type.  Every other call raises a type
    error, when every instance test has an answer and the types and
    arguments that the message prints have a text; in particular a call
    that supplies some but not all non-optional arguments positionally is
    always rejected. *)

Theorem checkCall_accepts_iff (this : FuncType) (posArgs : list I)
    (namedArgs : list (string * I)) :
  ordinary_names this ->
  (forall r, checkCall this posArgs namedArgs = Ok r <->
             r = retTypes this /\ accepts this posArgs namedArgs) /\
  (tests_defined this posArgs namedArgs ->
   messages_defined this posArgs namedArgs ->
   ~ accepts this posArgs namedArgs ->
   throws TypeError (checkCall this posArgs namedArgs)) /\
  (0 < length posArgs < nNonOptArgs this ->
   ~ accepts this posArgs namedArgs).
Proof.
  intros Hnames.
  assert (Harity :
    let r := (if Nat.ltb (length posArgs) (nNonOptArgs this)
              then check_covered (take (nNonOptArgs this) (argTypes this)) namedArgs
              else if Nat.ltb (length (argTypes this)) (length posArgs)
                   then Throw TypeError "expected fewer arg(s)" else Ok tt) in
    (r = Ok tt /\ arity_ok this posArgs namedArgs)
    \/ (throws TypeError r /\ ~ arity_ok this posArgs namedArgs)).
  { unfold arity_ok, nArgs. simpl.
    destruct (Nat.ltb (length posArgs) (nNonOptArgs this)).
    - apply check_covered_spec. apply Forall_take. exact Hnames.
    - destruct (Nat.ltb_spec (length (argTypes this)) (length posArgs)).
      + right; split; [eexists; reflexivity | lia].
      + left; split; [reflexivity | lia]. }
  simpl in Harity. unfold checkCall.
  split; [|split].
  - intros r. unfold accepts. split.
    + intros Hr. destruct Harity as [[E Har]|[[msg E] _]]; rewrite E in Hr;
        simpl in Hr; [|discriminate].
      pose proof (arity_ok_length _ _ _ Har) as Hlen.
      destruct (check_positional posArgs (argTypes this)) as [[]|] eqn:Ep;
        simpl in Hr; [|discriminate].
      destruct (check_named this (length posArgs) namedArgs)
        as [[]|] eqn:En; simpl in Hr; [|discriminate].
      injection Hr as <-. split; [reflexivity|]. split; [exact Har|]. split.
      * apply check_positional_ok; assumption.
      * apply check_named_ok; assumption.
    + intros (-> & Har & Hp & Hn).
      destruct Harity as [[E _]|[_ Hno]]; [|contradiction]. rewrite E; simpl.
      pose proof (arity_ok_length _ _ _ Har) as Hlen.
      apply (check_positional_ok _ _ Hlen) in Hp. rewrite Hp; simpl.
      apply check_named_ok in Hn. rewrite Hn; simpl. reflexivity.
  - intros Hd [Hfn Hinst] Hno.
    destruct Harity as [[E Har]|[[msg E] _]]; rewrite E; simpl;
      [|eexists; reflexivity].
    pose proof (arity_ok_length _ _ _ Har) as Hlen.
    assert (Hats : Forall (fun a => printable (arg_type a) = true)
                          (argTypes this)).
    { unfold FuncType_printable in Hfn. apply andb_true_iff in Hfn as [Hfn _].
      rewrite forallb_forall in Hfn. apply List.Forall_forall. exact Hfn. }
    destruct (check_positional_kind posArgs (argTypes this) Hlen) as [Ep|[m Ep]].
    { intros v a Hv Ha; apply Hd; auto. }
    { exact Hats. }
    { intros v Hv; apply Hinst; auto. }
    2:{ rewrite Ep; simpl; eexists; reflexivity. }
    rewrite Ep; simpl.
    destruct (check_named_kind this (length posArgs) namedArgs)
      as [En|[m En]].
    { intros v a Hv Ha; apply Hd; auto. }
    { exact Hfn. }
    { intros v Hv; apply Hinst; auto. }
    2:{ rewrite En; simpl; eexists; reflexivity. }
    exfalso; apply Hno. split; [exact Har|]. split.
    + apply check_positional_ok; assumption.
    + apply check_named_ok; assumption.
  - apply partial_positional_rejected.
Qed.

(** *** The conditions of the specification

    The five reasons for which the specification says a call is rejected:
    fewer positional arguments than non-optional arguments not covered by
    names; more positional arguments than declared arguments; a positional
    or named argument that is not an instance of the declared type; a
    named argument with no declared argument of that name; a named argument
    whose position a positional argument covers. *)

Definition is_instance (v : I) (type : Ty) : bool :=
  match isInstanceOf v type with
  | Some true => true
  | _ => false
  end.

Definition not_covered_by_name (namedArgs : list (string * I)) (a : ArgType)
    : bool :=
  negb (isOptional a)
  && negb (isNamed a && own_key (ArgType_name a) namedArgs).

Definition spec_rejects (this : FuncType) (posArgs : list I)
    (namedArgs : list (string * I)) : bool :=
  Nat.ltb (length posArgs)
          (length (List.filter (not_covered_by_name namedArgs) (argTypes this)))
  || Nat.ltb (length (argTypes this)) (length posArgs)
  || existsb (fun va => negb (is_instance (fst va) (arg_type (snd va))))
             (combine posArgs (argTypes this))
  || existsb
       (fun kv =>
          match findIndex (fst kv) (argTypes this) with
          | None => true
          | Some i =>
              Nat.ltb i (length posArgs)
              || match argTypes this !! i with
                 | Some a => negb (is_instance (snd kv) (arg_type a))
                 | None => false
                 end
          end)
       namedArgs.

End CheckCall.

Lemma checkCall_accepts_iff_witness :
  throws TypeError
    (checkCall
       (mkFuncType [mkArgType (Some "a") (Builtin IntType None) false;
                    mkArgType (Some "b") (Builtin IntType None) false]
                   [Builtin BoolType None])
       [DataInstance (Builtin IntType None)]
       [("b", DataInstance (Builtin IntType None))]).
Proof.
  assert (Hnames : ordinary_names
            (mkFuncType [mkArgType (Some "a") (Builtin IntType None) false;
                         mkArgType (Some "b") (Builtin IntType None) false]
                        [Builtin BoolType None]))
    by (repeat constructor).
  apply (proj1 (proj2 (checkCall_accepts_iff _ _ _ Hnames))).
  - intros v a Hv Ha. simpl in Hv, Ha.
    destruct Hv as [[<-|[]]|[<-|[]]]; destruct Ha as [<-|[<-|[]]]; discriminate.
  - split; [reflexivity|]. intros v Hv. simpl in Hv.
    destruct Hv as [[<-|[]]|[<-|[]]]; reflexivity.
  - apply (proj2 (proj2 (checkCall_accepts_iff _ _ _ Hnames))).
    simpl. unfold nNonOptArgs. simpl. lia.
Defined.

(** The claim as stated fails: [f(a: Int, b: Int) -> Bool] called as
    [f(1, b: 2)] meets none of the five conditions, and [checkCall] raises
    a type error instead of returning the return types. *)

Lemma checkCall_rejects_mixed_call :
  spec_rejects
    (mkFuncType [mkArgType (Some "a") (Builtin IntType None) false;
                 mkArgType (Some "b") (Builtin IntType None) false]
                [Builtin BoolType None])
    [DataInstance (Builtin IntType None)]
    [("b", DataInstance (Builtin IntType None))] = false /\
  checkCall
    (mkFuncType [mkArgType (Some "a") (Builtin IntType None) false;
                 mkArgType (Some "b") (Builtin IntType None) false]
                [Builtin BoolType None])
    [DataInstance (Builtin IntType None)]
    [("b", DataInstance (Builtin IntType None))]
  = Throw TypeError "named arg a missing from call".
Proof. split; reflexivity. Qed.

(** Outside those conditions the call check goes by what JavaScript
    does: an argument whose name every object inherits counts as supplied
    by name in a call without arguments, and a wrong argument whose type
    has no text fails while the message is made, with a plain error. *)

Example checkCall_inherited_name :
  checkCall
    (mkFuncType [mkArgType (Some "toString") (Builtin IntType None) false]
                [Builtin BoolType None])
    ([] : list Instance) []
  = Ok [Builtin BoolType None].
Proof. reflexivity. Qed.

Example checkCall_message_without_text :
  checkCall
    (mkFuncType [mkArgType (Some "a") (Builtin IntType None) false]
                [Builtin BoolType None])
    [DataInstance AnyDataType] []
  = Throw InternalError "not yet implemented".
Proof. reflexivity. Qed.

End Calls.

(** * IR fragments and the definition table *)

Module IRText.

(** Modelled from the spec: the class [IR] (tokens.js is not among the
    sources).  An IR fragment is a piece of source text or a sequence of
    fragments; the source position that a fragment also carries plays no
    role here and is left out. *)

#[local] Unset Elimination Schemes.

Inductive IR : Type :=
| IRstr (content : string)
| IRlist (content : list IR).

#[local] Set Elimination Schemes.

(** Induction on fragments, with the hypothesis for every fragment of a
    sequence. *)

Fixpoint IR_ind (P : IR -> Prop)
    (Hstr : forall s, P (IRstr s))
    (Hlist : forall l, Forall P l -> P (IRlist l))
    (ir : IR) : P ir :=
  match ir with
  | IRstr s => Hstr s
  | IRlist l =>
      Hlist l
        ((fix all (l : list IR) : Forall P l :=
            match l with
            | [] => @List.Forall_nil IR P
            | x :: l' => @List.Forall_cons IR P x l' (IR_ind P Hstr Hlist x) (all l')
            end) l)
  end.

(** The text of a fragment: the concatenation of its leaves, from left to
    right. *)

Fixpoint IR_text (ir : IR) : string :=
  match ir with
  | IRstr s => s
  | IRlist l => List.fold_right (fun x acc => IR_text x +:+ acc) "" l
  end.

(** [Array.prototype.join]. *)

Fixpoint join (sep : string) (l : list string) : string :=
  match l with
  | [] => ""
  | [x] => x
  | x :: l' => x +:+ sep +:+ join sep l'
  end.

(** Modelled from the spec: [IR.join] puts the separator between the
    fragments of a sequence. *)

Fixpoint intersperse (sep : IR) (l : list IR) : list IR :=
  match l with
  | [] => []
  | [x] => [x]
  | x :: l' => x :: sep :: intersperse sep l'
  end.

Definition IR_join (sep : string) (l : list IR) : IR :=
  IRlist (intersperse (IRstr sep) l).

(** [IRDefinitions] is a [Map<string, IR>]: the entries in insertion order,
    with distinct keys. *)

Definition IRDefinitions : Type := list (string * IR).

Definition map_keys (map : IRDefinitions) : list string := List.map fst map.

Fixpoint map_get (key : string) (map : IRDefinitions) : option IR :=
  match map with
  | [] => None
  | (k, v) :: map' => if String.eqb k key then Some v else map_get key map'
  end.

(** [map.set(key, value)]: an existing key keeps its place, a new key goes
    to the end. *)

Fixpoint map_set (key : string) (value : IR) (map : IRDefinitions)
    : IRDefinitions :=
  match map with
  | [] => [(key, value)]
  | (k, v) :: map' =>
      if String.eqb k key then (k, value) :: map'
      else (k, v) :: map_set key value map'
  end.

(** The characters that the regular expression class [\w] matches. *)

Definition is_word_char (c : ascii) : bool :=
  let n := nat_of_ascii c in
  (Nat.leb 48 n && Nat.leb n 57)
  || (Nat.leb 65 n && Nat.leb n 90)
  || (Nat.leb 97 n && Nat.leb n 122)
  || Nat.eqb n 95.

Fixpoint all_word_chars (s : string) : bool :=
  match s with
  | EmptyString => true
  | String c s' => is_word_char c && all_word_chars s'
  end.

(** A key of the table is a symbolic path: a non-empty string of word
    characters. *)

Definition is_path (k : string) : bool :=
  negb (String.eqb k "") && all_word_chars k.

(** Modelled from the spec: [IR.replace(re, newContent)] (tokens.js is not
    among the sources) for the expressions that [injectMutualRecursions]
    builds, [new RegExp(`\\b${k}\\b`, "gm")].  The spec describes it as
    rewriting every textual occurrence of the key.  For a key [k] that is a
    path, the expression matches exactly the maximal runs of word
    characters that are equal to [k]; the text is scanned from left to
    right, [cur] holds the run of word characters read so far, and a run
    that ends is replaced when it is [k]. *)

Definition flush (k newContent cur : string) : string :=
  if String.eqb cur k then newContent else cur.

Fixpoint replace_from (k newContent cur s : string) : string :=
  match s with
  | EmptyString => flush k newContent cur
  | String c s' =>
      if is_word_char c
      then replace_from k newContent (cur +:+ String c "") s'
      else flush k newContent cur
           +:+ String c (replace_from k newContent "" s')
  end.

Definition replace_word (k newContent s : string) : string :=
  replace_from k newContent "" s.

(** The replacement is made in every piece of text of the fragment. *)

Fixpoint IR_map (f : string -> string) (ir : IR) : IR :=
  match ir with
  | IRstr s => IRstr (f s)
  | IRlist l => IRlist (List.map (IR_map f) l)
  end.

Definition IR_replace (k newContent : string) (ir : IR) : IR :=
  IR_map (replace_word k newContent) ir.

(** ** [Program.injectMutualRecursions] *)

(** [`${k}(${others.join(", ")})`] and [`(${others.join(", ")}) -> {`]. *)

Definition application (k : string) (others : list string) : string :=
  k +:+ "(" +:+ join ", " others +:+ ")".

Definition lambda_head (others : list string) : string :=
  "(" +:+ join ", " others +:+ ") -> {".

(** The inner loop [for (let k_ of keys) map.set(k_,
    assertDefined(map.get(k_)).replace(...))]. *)

Fixpoint replace_in_all (k newContent : string) (keys : list string)
    (map : IRDefinitions) : Result IRDefinitions :=
  match keys with
  | [] => Ok map
  | k_ :: keys' =>
      match map_get k_ map with
      | None => Throw InternalError "unexpected undefined value"
      | Some ir =>
          replace_in_all k newContent keys'
            (map_set k_ (IR_replace k newContent ir) map)
      end
  end.

(** One turn of the outer loop, for the key [k] with [others] the keys
    from [k] on. *)

Definition inject_key (keys : list string) (k : string) (others : list string)
    (map : IRDefinitions) : Result IRDefinitions :=
  let* map1 := replace_in_all k (application k others) keys map in
  match map_get k map1 with
  | None => Throw InternalError "unexpected undefined value"
  | Some body =>
      let wrapped := IRlist [IRstr (lambda_head others); body; IRstr "}"] in
      Ok (map_set k wrapped map1)
  end.

(** The outer loop [for (let i = keys.length - 1; i >= 0; i--)], on the
    keys from some index on ([keys.slice(i)]): the turn of an index comes
    after the turns of all larger indices. *)

Fixpoint inject_from (keys : list string) (others : list string)
    (map : IRDefinitions) : Result IRDefinitions :=
  match others with
  | [] => Ok map
  | k :: later =>
      let* map1 := inject_from keys later map in
      inject_key keys k (k :: later) map1
  end.

Definition injectMutualRecursions (map : IRDefinitions)
    : Result IRDefinitions :=
  let keys := map_keys map in
  inject_from keys keys map.

(** ** What the rewriting amounts to

    The statement of the specification, made directly: every occurrence of
    a key [k_i] in a definition is replaced, in one pass over the text, by
    the application of [k_i] to the keys from [k_i] on, and the definition
    of [k_i] becomes the body of a function of those keys. *)

Definition applications_table : Type := list (string * string).

Fixpoint lookup_word (table : applications_table) (w : string) : string :=
  match table with
  | [] => w
  | (k, app) :: table' => if String.eqb w k then app else lookup_word table' w
  end.

Fixpoint rewrite_from (table : applications_table) (cur s : string) : string :=
  match s with
  | EmptyString => lookup_word table cur
  | String c s' =>
      if is_word_char c
      then rewrite_from table (cur +:+ String c "") s'
      else lookup_word table cur +:+ String c (rewrite_from table "" s')
  end.

Definition rewrite_occurrences (table : applications_table) (ir : IR) : IR :=
  IR_map (rewrite_from table "") ir.

(** The application that replaces each key: [k_i(k_i, ..., k_{n-1})]. *)

Fixpoint applications (keys : list string) : applications_table :=
  match keys with
  | [] => []
  | k :: later => (k, application k (k :: later)) :: applications later
  end.

(** The table after the injection: the definition of each key, with the
    occurrences of the keys of [table] rewritten, as the body of a function
    of the keys from its own key on. *)

Fixpoint wrapped_definitions (table : applications_table)
    (map : IRDefinitions) : IRDefinitions :=
  match map with
  | [] => []
  | (k, body) :: map' =>
      (k, IRlist [IRstr (lambda_head (k :: map_keys map'));
                  rewrite_occurrences table body;
                  IRstr "}"])
      :: wrapped_definitions table map'
  end.

(** ** The injection computes the rewriting *)

#[local] Arguments String.append _ _ : simpl nomatch.

Lemma append_assoc (a b c : string) : (a +:+ b) +:+ c = a +:+ (b +:+ c).
Proof. induction a as [|x a IH]; simpl; [reflexivity | rewrite IH; reflexivity]. Qed.

Lemma append_nil_r (a : string) : a +:+ "" = a.
Proof. induction a as [|x a IH]; simpl; [reflexivity | rewrite IH; reflexivity]. Qed.

Lemma all_word_chars_app (a b : string) :
  all_word_chars (a +:+ b) = all_word_chars a && all_word_chars b.
Proof.
  induction a as [|x a IH]; simpl; [reflexivity|].
  rewrite IH, andb_assoc; reflexivity.
Qed.

Lemma is_path_inv (k : string) :
  is_path k = true -> String.eqb "" k = false /\ all_word_chars k = true.
Proof.
  unfold is_path; rewrite andb_true_iff, negb_true_iff.
  intros [Hne Hw]; split; [|exact Hw].
  rewrite String.eqb_sym; exact Hne.
Qed.

Section Replace.
Variables k newContent : string.

Lemma replace_from_word (w : string) :
  all_word_chars w = true ->
  forall cur s,
    replace_from k newContent cur (w +:+ s)
    = replace_from k newContent (cur +:+ w) s.
Proof.
  induction w as [|c w IH]; simpl; intros Hw cur s.
  - rewrite append_nil_r; reflexivity.
  - apply andb_true_iff in Hw as [Hc Hw]. rewrite Hc.
    rewrite (IH Hw), append_assoc; reflexivity.
Qed.

Lemma replace_from_sep (c : ascii) (a b : string) :
  is_word_char c = false ->
  forall cur,
    replace_from k newContent cur (a +:+ String c b)
    = replace_from k newContent cur a
      +:+ String c (replace_from k newContent "" b).
Proof.
  intros Hc; induction a as [|x a IH]; simpl; intros cur.
  - rewrite Hc; reflexivity.
  - destruct (is_word_char x); [apply IH|].
    rewrite IH, append_assoc; reflexivity.
Qed.

Lemma replace_word_of_word (w : string) :
  all_word_chars w = true ->
  replace_word k newContent w = flush k newContent w.
Proof.
  intros Hw; unfold replace_word.
  rewrite <- (append_nil_r w) at 1.
  rewrite (replace_from_word w Hw); reflexivity.
Qed.

(** Texts made of paths other than [k] and of separators are left as they
    are. *)

Hypothesis k_not_empty : String.eqb "" k = false.

Definition other_path (w : string) : Prop :=
  all_word_chars w = true /\ String.eqb w k = false.

Lemma flush_empty : flush k newContent "" = "".
Proof. unfold flush; rewrite k_not_empty; reflexivity. Qed.

Lemma flush_other (w : string) : other_path w -> flush k newContent w = w.
Proof. intros [_ H]; unfold flush; rewrite H; reflexivity. Qed.

Lemma replace_join (ws : list string) (c : ascii) (tail : string) :
  Forall other_path ws ->
  is_word_char c = false ->
  replace_word k newContent (join ", " ws +:+ String c tail)
  = join ", " ws +:+ String c (replace_word k newContent tail).
Proof.
  intros Hws Hc; unfold replace_word.
  induction Hws as [|w ws Hw Hws IH].
  - simpl. rewrite Hc, flush_empty; reflexivity.
  - destruct ws as [|w' ws'].
    + simpl. rewrite (replace_from_word w (proj1 Hw)). simpl.
      rewrite Hc, (flush_other w Hw); reflexivity.
    + change (join ", " (w :: w' :: ws'))
        with (w +:+ ", " +:+ join ", " (w' :: ws')).
      rewrite !append_assoc.
      rewrite (replace_from_word w (proj1 Hw)). simpl.
      rewrite (flush_other w Hw), flush_empty. simpl in IH |- *.
      rewrite IH. reflexivity.
Qed.

Lemma replace_application (k' : string) (others : list string) :
  other_path k' -> Forall other_path others ->
  replace_word k newContent (application k' others) = application k' others.
Proof.
  intros Hk' Hothers; unfold application, replace_word.
  rewrite (replace_from_word k' (proj1 Hk')). simpl.
  rewrite (flush_other k' Hk').
  fold (replace_word k newContent (join ", " others +:+ ")")).
  rewrite (replace_join others ")"%char "" Hothers eq_refl).
  unfold replace_word; simpl. rewrite flush_empty; reflexivity.
Qed.

Lemma replace_lambda_head (others : list string) :
  Forall other_path others ->
  replace_word k newContent (lambda_head others) = lambda_head others.
Proof.
  intros Hothers; unfold lambda_head, replace_word. simpl.
  rewrite flush_empty. simpl.
  fold (replace_word k newContent (join ", " others +:+ ") -> {")).
  rewrite (replace_join others ")"%char " -> {" Hothers eq_refl).
  unfold replace_word; simpl. rewrite !flush_empty; reflexivity.
Qed.

Lemma replace_closing_brace : replace_word k newContent "}" = "}".
Proof. unfold replace_word; simpl. rewrite !flush_empty; reflexivity. Qed.

End Replace.

(** Replacing [k] after rewriting with a table is rewriting with the table
    extended by [k], when [k] is not a key of the table and does not occur
    in its applications. *)

Definition untouched (k newContent : string) (kr : string * string) : Prop :=
  String.eqb (fst kr) k = false /\ replace_word k newContent (snd kr) = snd kr.

Lemma replace_lookup_word (k newContent : string) (table : applications_table)
    (cur : string) :
  Forall (untouched k newContent) table ->
  all_word_chars cur = true ->
  replace_word k newContent (lookup_word table cur)
  = lookup_word ((k, newContent) :: table) cur.
Proof.
  intros Ht Hcur. simpl.
  induction Ht as [|[k' app] t [Hk Happ] _ IH]; simpl in *.
  - rewrite (replace_word_of_word k newContent cur Hcur); reflexivity.
  - destruct (String.eqb_spec cur k') as [->|Hne].
    + rewrite Hk; exact Happ.
    + exact IH.
Qed.

Lemma replace_rewrite_from (k newContent : string) (table : applications_table)
    (s : string) :
  Forall (untouched k newContent) table ->
  forall cur,
    all_word_chars cur = true ->
    replace_word k newContent (rewrite_from table cur s)
    = rewrite_from ((k, newContent) :: table) cur s.
Proof.
  intros Ht. induction s as [|c s IH]; intros cur Hcur.
  - apply replace_lookup_word; assumption.
  - cbn [rewrite_from]. destruct (is_word_char c) eqn:Hc.
    + apply IH. rewrite all_word_chars_app, Hcur; simpl. rewrite Hc; reflexivity.
    + unfold replace_word.
      rewrite (replace_from_sep k newContent c _ _ Hc).
      fold (replace_word k newContent (lookup_word table cur)).
      fold (replace_word k newContent (rewrite_from table "" s)).
      rewrite (replace_lookup_word _ _ _ cur Ht Hcur), (IH "" eq_refl).
      reflexivity.
Qed.

Lemma rewrite_from_nil (s : string) :
  forall cur, rewrite_from [] cur s = cur +:+ s.
Proof.
  induction s as [|c s IH]; intros cur; simpl.
  - rewrite append_nil_r; reflexivity.
  - destruct (is_word_char c); rewrite IH.
    + rewrite append_assoc; reflexivity.
    + reflexivity.
Qed.

Lemma IR_map_ext (f g : string -> string) :
  (forall s, f s = g s) -> forall ir, IR_map f ir = IR_map g ir.
Proof.
  intros Hfg ir; induction ir as [s|l IH] using IR_ind; simpl.
  - rewrite Hfg; reflexivity.
  - f_equal. induction IH as [|x l Hx _ IHl]; simpl; [reflexivity|].
    rewrite Hx, IHl; reflexivity.
Qed.

Lemma IR_map_compose (f g : string -> string) (ir : IR) :
  IR_map f (IR_map g ir) = IR_map (fun s => f (g s)) ir.
Proof.
  induction ir as [s|l IH] using IR_ind; simpl; [reflexivity|].
  f_equal. induction IH as [|x l Hx _ IHl]; simpl; [reflexivity|].
  rewrite Hx, IHl; reflexivity.
Qed.

Lemma IR_map_id (f : string -> string) :
  (forall s, f s = s) -> forall ir, IR_map f ir = ir.
Proof.
  intros Hf ir; induction ir as [s|l IH] using IR_ind; simpl.
  - rewrite Hf; reflexivity.
  - f_equal. induction IH as [|x l Hx _ IHl]; simpl; [reflexivity|].
    rewrite Hx, IHl; reflexivity.
Qed.

Lemma rewrite_occurrences_nil (ir : IR) : rewrite_occurrences [] ir = ir.
Proof. apply IR_map_id. intros s. apply rewrite_from_nil. Qed.

Lemma IR_replace_rewrite (k newContent : string) (table : applications_table)
    (ir : IR) :
  Forall (untouched k newContent) table ->
  IR_replace k newContent (rewrite_occurrences table ir)
  = rewrite_occurrences ((k, newContent) :: table) ir.
Proof.
  intros Ht. unfold IR_replace, rewrite_occurrences.
  rewrite IR_map_compose. apply IR_map_ext.
  intros s. apply replace_rewrite_from; [exact Ht | reflexivity].
Qed.

(** The inner loop changes every definition and nothing else. *)

Definition map_values (f : IR -> IR) (map : IRDefinitions) : IRDefinitions :=
  List.map (fun kv => (fst kv, f (snd kv))) map.

Lemma map_keys_values (f : IR -> IR) (map : IRDefinitions) :
  map_keys (map_values f map) = map_keys map.
Proof.
  unfold map_keys, map_values. rewrite List.map_map. reflexivity.
Qed.

Lemma map_values_middle (f : IR -> IR) (k : string) (body : IR)
    (pre suf : IRDefinitions) :
  map_values f (pre ++ (k, body) :: suf)
  = map_values f pre ++ (k, f body) :: map_values f suf.
Proof. unfold map_values. rewrite List.map_app. reflexivity. Qed.

Lemma map_keys_app (m1 m2 : IRDefinitions) :
  map_keys (m1 ++ m2) = map_keys m1 ++ map_keys m2.
Proof. apply List.map_app. Qed.

Lemma map_get_app_fresh (k : string) (v : IR) (done rest : IRDefinitions) :
  k ∉ map_keys done -> map_get k (done ++ (k, v) :: rest) = Some v.
Proof.
  induction done as [|[k' v'] done IH]; simpl; intros Hk.
  - rewrite String.eqb_refl; reflexivity.
  - apply not_elem_of_cons in Hk as [Hne Hk].
    destruct (String.eqb_spec k' k); [congruence | auto].
Qed.

Lemma map_set_app_fresh (k : string) (x v : IR) (done rest : IRDefinitions) :
  k ∉ map_keys done ->
  map_set k x (done ++ (k, v) :: rest) = done ++ (k, x) :: rest.
Proof.
  induction done as [|[k' v'] done IH]; simpl; intros Hk.
  - rewrite String.eqb_refl; reflexivity.
  - apply not_elem_of_cons in Hk as [Hne Hk].
    destruct (String.eqb_spec k' k); [congruence|]. rewrite IH; auto.
Qed.

Lemma replace_in_all_values (k newContent : string) (todo : IRDefinitions) :
  forall done,
    NoDup (map_keys done ++ map_keys todo) ->
    replace_in_all k newContent (map_keys todo) (done ++ todo)
    = Ok (done ++ map_values (IR_replace k newContent) todo).
Proof.
  induction todo as [|[k_ v] todo IH]; intros done Hnd; simpl.
  - reflexivity.
  - assert (Hfresh : k_ ∉ map_keys done).
    { apply NoDup_app in Hnd as (_ & Hdisj & _).
      intros Hin. apply (Hdisj _ Hin). simpl. left. }
    rewrite (map_get_app_fresh _ _ _ _ Hfresh).
    rewrite (map_set_app_fresh _ _ _ _ _ Hfresh).
    rewrite (cons_middle _ done todo), app_assoc.
    rewrite IH.
    + rewrite <- app_assoc. reflexivity.
    + rewrite map_keys_app, <- app_assoc. exact Hnd.
Qed.

Lemma inject_key_spec (k : string) (others : list string) (body : IR)
    (pre suf : IRDefinitions) :
  NoDup (map_keys (pre ++ (k, body) :: suf)) ->
  inject_key (map_keys (pre ++ (k, body) :: suf)) k others
             (pre ++ (k, body) :: suf)
  = Ok (map_values (IR_replace k (application k others)) pre
        ++ (k, IRlist [IRstr (lambda_head others);
                       IR_replace k (application k others) body;
                       IRstr "}"])
        :: map_values (IR_replace k (application k others)) suf).
Proof.
  intros Hnd. unfold inject_key.
  pose proof (replace_in_all_values k (application k others)
                (pre ++ (k, body) :: suf) [] Hnd) as E.
  simpl in E. rewrite E. simpl. rewrite map_values_middle.
  assert (Hfresh : k ∉ map_keys (map_values (IR_replace k (application k others)) pre)).
  { rewrite map_keys_values. rewrite map_keys_app in Hnd.
    apply NoDup_app in Hnd as (_ & Hdisj & _).
    intros Hin. apply (Hdisj _ Hin). simpl. left. }
  rewrite (map_get_app_fresh _ _ _ _ Hfresh).
  rewrite (map_set_app_fresh _ _ _ _ _ Hfresh). reflexivity.
Qed.

(** The wrapped definitions are untouched by the replacement of an earlier
    key, except inside their bodies. *)

Lemma applications_untouched (k newContent : string) (later : list string) :
  String.eqb "" k = false ->
  Forall (other_path k) later ->
  Forall (untouched k newContent) (applications later).
Proof.
  intros Hk Hlater. induction Hlater as [|k' later Hk' Hlater IH]; simpl.
  - constructor.
  - constructor; [|exact IH]. split; simpl.
    + exact (proj2 Hk').
    + apply replace_application; [exact Hk | exact Hk' |].
      constructor; assumption.
Qed.

Lemma wrapped_definitions_replace (k newContent : string)
    (table : applications_table) (suf : IRDefinitions) :
  String.eqb "" k = false ->
  Forall (other_path k) (map_keys suf) ->
  Forall (untouched k newContent) table ->
  map_values (IR_replace k newContent) (wrapped_definitions table suf)
  = wrapped_definitions ((k, newContent) :: table) suf.
Proof.
  intros Hk Hsuf Ht. induction suf as [|[k' body] suf IH]; simpl in *.
  - reflexivity.
  - rewrite IH by (inversion Hsuf; assumption).
    unfold IR_replace at 1. simpl.
    rewrite (replace_lambda_head k newContent Hk (k' :: map_keys suf) Hsuf).
    rewrite (replace_closing_brace k newContent Hk).
    fold (IR_replace k newContent (rewrite_occurrences table body)).
    rewrite (IR_replace_rewrite _ _ _ _ Ht). reflexivity.
Qed.

Lemma map_keys_wrapped (table : applications_table) (suf : IRDefinitions) :
  map_keys (wrapped_definitions table suf) = map_keys suf.
Proof.
  induction suf as [|[k body] suf IH]; simpl; [reflexivity|].
  rewrite IH; reflexivity.
Qed.

Lemma inject_from_spec (suf : IRDefinitions) :
  forall pre,
    NoDup (map_keys (pre ++ suf)) ->
    Forall (fun k => is_path k = true) (map_keys (pre ++ suf)) ->
    inject_from (map_keys (pre ++ suf)) (map_keys suf) (pre ++ suf)
    = Ok (map_values (rewrite_occurrences (applications (map_keys suf))) pre
          ++ wrapped_definitions (applications (map_keys suf)) suf).
Proof.
  induction suf as [|[k body] suf IH]; intros pre Hnd Hpaths; simpl.
  - rewrite !app_nil_r. unfold map_values.
    rewrite (List.map_ext _ (fun kv => kv)), List.map_id; [reflexivity|].
    intros [k v]; simpl. rewrite rewrite_occurrences_nil; reflexivity.
  - pose proof (IH (pre ++ [(k, body)])) as IH'.
    rewrite <- app_assoc in IH'. simpl in IH'.
    rewrite (IH' Hnd Hpaths). simpl.
    set (table := applications (map_keys suf)).
    change [(k, body)] with ([] ++ (k, body) :: []).
    rewrite app_assoc, map_values_middle, app_nil_r. simpl.
    rewrite <- app_assoc. simpl.
    (* the keys are those of the original table *)
    assert (Hkeys :
      map_keys (pre ++ (k, body) :: suf)
      = map_keys (map_values (rewrite_occurrences table) pre
                  ++ (k, rewrite_occurrences table body)
                  :: wrapped_definitions table suf)).
    { rewrite !map_keys_app. simpl.
      rewrite map_keys_values, map_keys_wrapped. reflexivity. }
    rewrite Hkeys.
    rewrite inject_key_spec by (rewrite <- Hkeys; exact Hnd).
    (* [k] is a path, different from every later key *)
    rewrite map_keys_app in Hnd, Hpaths. simpl in Hnd, Hpaths.
    apply NoDup_app in Hnd as (_ & _ & Hnd).
    apply NoDup_cons in Hnd as [Hk_later _].
    apply Forall_app in Hpaths as [_ Hpaths].
    apply Forall_cons in Hpaths as [Hk Hlater].
    apply is_path_inv in Hk as [Hk_ne Hk_word].
    assert (Hother : Forall (other_path k) (map_keys suf)).
    { apply Forall_forall. intros k' Hin. split.
      - rewrite Forall_forall in Hlater.
        exact (proj2 (is_path_inv _ (Hlater _ Hin))).
      - apply String.eqb_neq. intros ->. contradiction. }
    assert (Ht : Forall (untouched k (application k (k :: map_keys suf))) table).
    { apply applications_untouched; assumption. }
    f_equal. f_equal; [|f_equal].
    + unfold map_values. rewrite List.map_map. apply List.map_ext.
      intros [k' v]; simpl. rewrite IR_replace_rewrite by exact Ht. reflexivity.
    + rewrite IR_replace_rewrite by exact Ht. reflexivity.
    + apply wrapped_definitions_replace; assumption.
Qed.

(** C4. On a definition table whose keys [k_0, ..., k_{n-1}] (in insertion
    order) are paths, the injection succeeds, and in the resulting table
    every occurrence of a key [k_i] in a definition has become the
    application [k_i(k_i, k_{i+1}, ..., k_{n-1})] and the definition of
    [k_i] has become the body of a function whose parameters are exactly
    [k_i, ..., k_{n-1}]. *)

Theorem injectMutualRecursions_rewrites (map : IRDefinitions) :
  NoDup (map_keys map) ->
  Forall (fun k => is_path k = true) (map_keys map) ->
  injectMutualRecursions map
  = Ok (wrapped_definitions (applications (map_keys map)) map).
Proof.
  intros Hnd Hpaths. unfold injectMutualRecursions.
  exact (inject_from_spec map [] Hnd Hpaths).
Qed.

Lemma injectMutualRecursions_rewrites_witness :
  injectMutualRecursions
    [("__module__m__even", IRstr "(n) -> {__module__m__odd(n - 1)}");
     ("__module__m__odd", IRstr "(n) -> {__module__m__even(n - 1)}")]
  = Ok [("__module__m__even",
         IRlist [IRstr "(__module__m__even, __module__m__odd) -> {";
                 IRstr "(n) -> {__module__m__odd(__module__m__odd)(n - 1)}";
                 IRstr "}"]);
        ("__module__m__odd",
         IRlist [IRstr "(__module__m__odd) -> {";
                 IRstr "(n) -> {__module__m__even(__module__m__even, __module__m__odd)(n - 1)}";
                 IRstr "}"])].
Proof.
  apply (injectMutualRecursions_rewrites
           [("__module__m__even", IRstr "(n) -> {__module__m__odd(n - 1)}");
            ("__module__m__odd", IRstr "(n) -> {__module__m__even(n - 1)}")]).
  - apply (bool_decide_unpack _). vm_compute. exact I.
  - repeat constructor.
Defined.

End IRText.

(** * Modules and their dependencies *)

Module Resolver.
Import Types.

(** The top-level statements, as far as modules and programs look at them.
    A struct or enum statement is an [OtherStatement]. *)

Inductive Statement : Type :=
| ImportFromStatement (name origName moduleName : string)
| ImportModuleStatement (moduleName : string)
| ConstStatement (name : string) (type : Ty)
| FuncStatement (name : string) (argTypeNames : list string) (retTypes : list Ty)
| OtherStatement (name : string).

Definition statement_name (s : Statement) : string :=
  match s with
  | ImportFromStatement name _ _ => name
  | ImportModuleStatement moduleName => moduleName
  | ConstStatement name _ => name
  | FuncStatement name _ _ => name
  | OtherStatement name => name
  end.

(** [s.moduleName.value] when [s instanceof ImportFromStatement ||
    s instanceof ImportModuleStatement]. *)

Definition import_of (s : Statement) : option string :=
  match s with
  | ImportFromStatement _ _ moduleName => Some moduleName
  | ImportModuleStatement moduleName => Some moduleName
  | _ => None
  end.

Record Module : Type := mkModule {
  name : string;
  statements : list Statement
}.

(** [ms.some(d => d.name.value == mn)] and
    [modules.find(m => m.name.value == mn)]. *)

Definition has_name (mn : string) (ms : list Module) : bool :=
  existsb (fun d => String.eqb (name d) mn) ms.

Definition find_module (mn : string) (modules : list Module) : option Module :=
  List.find (fun m => String.eqb (name m) mn) modules.

(** The loop of [filterDependencies] over the statements of [this], with
    [deps] the dependencies found so far; [recurse m] is the recursive call
    [m.filterDependencies(modules, newStack)].  [None] stands for a
    computation that has not finished. *)

Fixpoint walk_statements (recurse : Module -> option (Result (list Module)))
    (this : Module) (modules stack : list Module)
    (stmts : list Statement) (deps : list Module)
    : option (Result (list Module)) :=
  match stmts with
  | [] => Some (Ok deps)
  | s :: stmts' =>
      match import_of s with
      | None => walk_statements recurse this modules stack stmts' deps
      | Some mn =>
          if String.eqb mn (name this) then
            Some (Throw SyntaxError "can't import self")
          else if has_name mn stack then
            Some (Throw SyntaxError "circular import detected")
          else if has_name mn deps then
            walk_statements recurse this modules stack stmts' deps
          else
            match find_module mn modules with
            | None =>
                Some (Throw ReferenceError ("module '" ++ mn ++ "' not found"))
            | Some m =>
                match recurse m with
                | None => None
                | Some (Throw kind msg) => Some (Throw kind msg)
                | Some (Ok r) =>
                    let newDeps :=
                      List.filter (fun d => negb (has_name (name d) deps))
                                  (r ++ [m]) in
                    walk_statements recurse this modules stack stmts'
                                    (deps ++ newDeps)
                end
            end
      end
  end.

(** [this.filterDependencies(modules, stack)], with a bound [fuel] on the
    depth of the recursion. *)

Fixpoint filterDependencies_upto (fuel : nat) (this : Module)
    (modules stack : list Module) : option (Result (list Module)) :=
  match fuel with
  | 0 => None
  | S fuel' =>
      walk_statements
        (fun m => filterDependencies_upto fuel' m modules (this :: stack))
        this modules stack (statements this) []
  end.

(** The recursion is never deeper than the number of candidate modules
    plus one (theorem [filterDependencies_terminates] below). *)

Definition filterDependencies (this : Module) (modules stack : list Module)
    : Result (list Module) :=
  match filterDependencies_upto (S (length modules)) this modules stack with
  | Some r => r
  | None => Throw InternalError "recursion deeper than the number of modules"
  end.

(** ** [Program.parseImports] and [Program.new] *)

(** The loop of [parseImports] over the parsed modules, with [names] the
    [Set<string>] of the names seen. *)

Fixpoint check_unique (names : gset string) (imports : list Module)
    : Result unit :=
  match imports with
  | [] => Ok tt
  | m :: imports' =>
      if bool_decide (name m ∈ names) then
        Throw SyntaxError ("non-unique module name '" ++ name m ++ "'")
      else check_unique ({[name m]} ∪ names) imports'
  end.

(** [imports] are the modules that [Module.new] has built from the
    auxiliary sources (tokenizing and building the statements is the work
    of other files). *)

Definition parseImports (mainName : string) (imports : list Module)
    : Result (list Module) :=
  let* _ := check_unique {[mainName]} imports in
  Ok imports.

Inductive ScriptPurpose : Type :=
| Testing | Spending | Minting | Staking | ModulePurpose.

(** The program classes; the modules of a program are kept with a mark
    that tells the [MainModule]. *)

Inductive ProgramClass : Type :=
| TestingProgram | SpendingProgram | MintingProgram | StakingProgram.

Record Program : Type := mkProgram {
  program_class : ProgramClass;
  program_modules : list (Module * bool)
}.

Section ProgramNew.

(** [program.evalTypes()] followed by [program.fillTypes(topScope)]: type
    checking, which either throws or leaves the program as it is. *)

Variable evalTypes : Program -> Result unit.

(** [Program.new], from the result of [Program.parseMain] (the purpose,
    the main module and the module of the statements after [main], if any)
    and the parsed auxiliary modules. *)

Definition Program_new (purpose : ScriptPurpose) (main : Module)
    (post : option Module) (parsed : list Module) : Result Program :=
  let* imports := parseImports (name main) parsed in
  let* mainImports := filterDependencies main imports [] in
  let* postImports :=
    match post with
    | None => Ok []
    | Some p =>
        let* deps := filterDependencies p imports [] in
        Ok (List.filter (fun m => negb (has_name (name m) mainImports)) deps)
    end in
  let modules :=
    List.map (fun m => (m, false)) mainImports
    ++ [(main, true)]
    ++ List.map (fun m => (m, false)) postImports
    ++ match post with Some p => [(p, false)] | None => [] end in
  let* program :=
    match purpose with
    | Testing => Ok (mkProgram TestingProgram modules)
    | Spending => Ok (mkProgram SpendingProgram modules)
    | Minting => Ok (mkProgram MintingProgram modules)
    | Staking => Ok (mkProgram StakingProgram modules)
    | ModulePurpose => Throw SyntaxError "can't use module for main"
    end in
  let* _ := evalTypes program in
  Ok program.

End ProgramNew.

(** ** Termination *)

Section Resolution.
Variable modules : list Module.

(** The candidate modules whose name is not on the stack extended with
    [this]: the recursion goes from a module to one of these. *)

Definition off_stack (this : Module) (stack : list Module) : list Module :=
  List.filter (fun x => negb (has_name (name x) (this :: stack))) modules.

Lemma filter_length_lt {A : Type} (p q : A -> bool) (l : list A) (a : A) :
  (forall x, p x = true -> q x = true) ->
  In a l -> q a = true -> p a = false ->
  length (List.filter p l) < length (List.filter q l).
Proof.
  intros Hpq Hin Hqa Hpa. induction l as [|x l IH]; simpl in *; [contradiction|].
  assert (Hle : length (List.filter p l) <= length (List.filter q l)).
  { clear -Hpq. induction l as [|y l IH]; simpl; [lia|].
    destruct (p y) eqn:Ep.
    - rewrite (Hpq _ Ep); simpl; lia.
    - destruct (q y); simpl; lia. }
  destruct Hin as [->|Hin].
  - rewrite Hqa, Hpa; simpl; lia.
  - specialize (IH Hin). destruct (p x) eqn:Ep.
    + rewrite (Hpq _ Ep); simpl; lia.
    + destruct (q x); simpl; lia.
Qed.

Lemma find_module_some (mn : string) (m : Module) :
  find_module mn modules = Some m -> In m modules /\ name m = mn.
Proof.
  unfold find_module. intros H. apply List.find_some in H as [Hin Hn].
  apply String.eqb_eq in Hn. auto.
Qed.

Lemma off_stack_decreases (this m : Module) (stack : list Module) :
  In m modules ->
  String.eqb (name m) (name this) = false ->
  has_name (name m) stack = false ->
  length (off_stack m (this :: stack)) < length (off_stack this stack).
Proof.
  intros Hin Hne Hstack. unfold off_stack.
  apply (filter_length_lt _ _ _ m).
  - intros x. simpl. rewrite !negb_true_iff, !orb_false_iff. tauto.
  - exact Hin.
  - simpl. rewrite String.eqb_sym, Hne, Hstack. reflexivity.
  - simpl. rewrite String.eqb_refl. reflexivity.
Qed.

Lemma walk_statements_finishes
    (recurse : Module -> option (Result (list Module)))
    (this : Module) (stack : list Module) :
  (forall m, In m modules ->
             String.eqb (name m) (name this) = false ->
             has_name (name m) stack = false ->
             recurse m <> None) ->
  forall stmts deps,
    walk_statements recurse this modules stack stmts deps <> None.
Proof.
  intros Hrec stmts. induction stmts as [|s stmts IH]; intros deps; simpl.
  - discriminate.
  - destruct (import_of s) as [mn|]; [|apply IH].
    destruct (String.eqb mn (name this)) eqn:Eself; [discriminate|].
    destruct (has_name mn stack) eqn:Estack; [discriminate|].
    destruct (has_name mn deps); [apply IH|].
    destruct (find_module mn modules) as [m|] eqn:Efind; [|discriminate].
    apply find_module_some in Efind as [Hin <-].
    specialize (Hrec m Hin Eself Estack).
    destruct (recurse m) as [[r|kind msg]|]; [apply IH | discriminate | congruence].
Qed.

Lemma filterDependencies_upto_finishes (fuel : nat) :
  forall this stack,
    length (off_stack this stack) < fuel ->
    filterDependencies_upto fuel this modules stack <> None.
Proof.
  induction fuel as [|fuel IH]; intros this stack Hlt; [lia|]. simpl.
  apply walk_statements_finishes. intros m Hin Hne Hstack.
  apply IH. pose proof (off_stack_decreases this m stack Hin Hne Hstack). lia.
Qed.

Lemma off_stack_le (this : Module) (stack : list Module) :
  length (off_stack this stack) <= length modules.
Proof. unfold off_stack. apply List.filter_length_le. Qed.

(** ** A resolution that returns has met no cycle *)

(** [m] imports the module named [mn]; [a] depends on [b] when [a] imports
    a name that is looked up as [b] among the candidates. *)

Definition imports (m : Module) (mn : string) : Prop :=
  exists s, In s (statements m) /\ import_of s = Some mn.

Definition depends_on (a b : Module) : Prop :=
  exists mn, imports a mn /\ find_module mn modules = Some b.

Definition returns (m : Module) (stack : list Module) : Prop :=
  exists fuel deps,
    filterDependencies_upto fuel m modules stack = Some (Ok deps).

Definition names_incl (s s' : list Module) : Prop :=
  forall n, has_name n s = true -> has_name n s' = true.

(** A dependency in a result: it is the candidate of its name, and its own
    resolution has returned, on a stack that holds at least [stack]. *)

Definition resolved_on (stack : list Module) (d : Module) : Prop :=
  find_module (name d) modules = Some d /\
  exists stack', names_incl stack stack' /\ returns d stack'.

Lemma names_incl_refl (s : list Module) : names_incl s s.
Proof. intros n H; exact H. Qed.

Lemma names_incl_trans (s1 s2 s3 : list Module) :
  names_incl s1 s2 -> names_incl s2 s3 -> names_incl s1 s3.
Proof. intros H12 H23 n H; auto. Qed.

Lemma names_incl_cons (m : Module) (s : list Module) : names_incl s (m :: s).
Proof. intros n H; simpl. rewrite H, orb_true_r; reflexivity. Qed.

Lemma resolved_on_weaken (s s' : list Module) (d : Module) :
  names_incl s s' -> resolved_on s' d -> resolved_on s d.
Proof.
  intros Hincl [Hfind (s'' & Hincl' & Hret)]. split; [exact Hfind|].
  exists s''. split; [eapply names_incl_trans; eassumption | exact Hret].
Qed.

Lemma has_name_In (mn : string) (ms : list Module) :
  has_name mn ms = true <-> exists d, In d ms /\ name d = mn.
Proof.
  unfold has_name. rewrite existsb_exists. split.
  - intros (d & Hin & Hn). apply String.eqb_eq in Hn. eauto.
  - intros (d & Hin & Hn). exists d. split; [exact Hin|].
    apply String.eqb_eq; exact Hn.
Qed.

Lemma Forall_list_filter {A : Type} (P : A -> Prop) (p : A -> bool)
    (l : list A) :
  Forall P l -> Forall P (List.filter p l).
Proof.
  rewrite !List.Forall_forall. intros H x Hx.
  apply List.filter_In in Hx as [Hx _]. auto.
Qed.

Lemma walk_statements_ok
    (recurse : Module -> option (Result (list Module)))
    (this : Module) (stack : list Module) :
  (forall m r, recurse m = Some (Ok r) ->
               Forall (resolved_on (this :: stack)) r
               /\ returns m (this :: stack)) ->
  forall stmts deps result,
    Forall (resolved_on (this :: stack)) deps ->
    walk_statements recurse this modules stack stmts deps = Some (Ok result) ->
    Forall (resolved_on (this :: stack)) result
    /\ (forall d, In d deps -> In d result)
    /\ (forall s mn, In s stmts -> import_of s = Some mn ->
          mn <> name this /\ has_name mn stack = false
          /\ has_name mn result = true).
Proof.
  intros Hrec stmts. induction stmts as [|s stmts IH]; intros deps result Hdeps H;
    simpl in H.
  - injection H as <-. split; [exact Hdeps|]. split; [auto|]. intros s mn [].
  - destruct (import_of s) as [mn|] eqn:Eimp.
    2:{ destruct (IH _ _ Hdeps H) as (H1 & H2 & H3).
        split; [exact H1|]. split; [exact H2|].
        intros s' mn' [<-|Hin] Hs'; [congruence | eapply H3; eassumption]. }
    destruct (String.eqb_spec mn (name this)) as [Eself|Eself]; [discriminate|].
    destruct (has_name mn stack) eqn:Estack; [discriminate|].
    destruct (has_name mn deps) eqn:Edeps.
    { destruct (IH _ _ Hdeps H) as (H1 & H2 & H3).
      split; [exact H1|]. split; [exact H2|].
      intros s' mn' [<-|Hin] Hs'; [|eapply H3; eassumption].
      rewrite Eimp in Hs'; injection Hs' as <-.
      split; [exact Eself|]. split; [exact Estack|].
      apply has_name_In in Edeps as (d & Hd & Hn).
      apply has_name_In. exists d. auto. }
    destruct (find_module mn modules) as [m|] eqn:Efind; [|discriminate].
    destruct (recurse m) as [[r|kind msg]|] eqn:Erec; try discriminate.
    destruct (Hrec _ _ Erec) as [Hr Hm].
    destruct (find_module_some _ _ Efind) as [Hin Hname].
    assert (Hnew : Forall (resolved_on (this :: stack))
                     (deps ++ List.filter (fun d => negb (has_name (name d) deps))
                                          (r ++ [m]))).
    { apply Forall_app. split; [exact Hdeps|].
      apply Forall_list_filter. apply Forall_app. split; [exact Hr|].
      constructor; [|constructor]. split.
      - rewrite Hname. exact Efind.
      - exists (this :: stack). split; [apply names_incl_refl | exact Hm]. }
    destruct (IH _ _ Hnew H) as (H1 & H2 & H3).
    split; [exact H1|]. split.
    + intros d Hd. apply H2. apply List.in_or_app. left; exact Hd.
    + intros s' mn' [<-|Hin'] Hs'; [|eapply H3; eassumption].
      rewrite Eimp in Hs'; injection Hs' as <-.
      split; [exact Eself|]. split; [exact Estack|].
      apply has_name_In. exists m. split; [|exact Hname].
      apply H2. apply List.in_or_app. right.
      apply List.filter_In. split.
      * apply List.in_or_app. right. left. reflexivity.
      * rewrite Hname, Edeps. reflexivity.
Qed.

Lemma filterDependencies_upto_ok (fuel : nat) :
  forall this stack deps,
    filterDependencies_upto fuel this modules stack = Some (Ok deps) ->
    Forall (resolved_on (this :: stack)) deps
    /\ (forall mn, imports this mn ->
          mn <> name this /\ has_name mn stack = false
          /\ has_name mn deps = true).
Proof.
  induction fuel as [|fuel IH]; intros this stack deps H; [discriminate|].
  simpl in H.
  apply walk_statements_ok in H as (H1 & _ & H3).
  - split; [exact H1|]. intros mn (s & Hs & Hmn). eapply H3; eassumption.
  - intros m r Hr. split.
    + destruct (IH _ _ _ Hr) as [Hall _].
      eapply Forall_impl; [exact Hall|].
      intros d. apply resolved_on_weaken. apply names_incl_cons.
    + exists fuel, r. exact Hr.
  - constructor.
Qed.

Lemma returns_step (c b : Module) (stack : list Module) :
  returns c stack -> depends_on c b ->
  exists stack', names_incl (c :: stack) stack' /\ returns b stack'.
Proof.
  intros (fuel & deps & Hrun) (mn & Himp & Hfind).
  destruct (filterDependencies_upto_ok _ _ _ _ Hrun) as [Hall Himports].
  destruct (Himports _ Himp) as (_ & _ & Hin).
  apply has_name_In in Hin as (d & Hd & Hn).
  rewrite List.Forall_forall in Hall.
  destruct (Hall _ Hd) as [Hfd Hret].
  rewrite Hn, Hfind in Hfd. injection Hfd as ->. exact Hret.
Qed.

Lemma returns_reach (c d : Module) :
  rtc depends_on c d ->
  forall stack,
    returns c stack ->
    exists stack',
      names_incl stack stack' /\ returns d stack'
      /\ (c = d \/ has_name (name c) stack' = true).
Proof.
  induction 1 as [c|c b d Hstep _ IH]; intros stack Hret.
  - exists stack. split; [apply names_incl_refl|]. auto.
  - destruct (returns_step _ _ _ Hret Hstep) as (s1 & Hincl1 & Hret1).
    destruct (IH _ Hret1) as (s2 & Hincl2 & Hret2 & _).
    exists s2. split; [|split; [exact Hret2|right]].
    + eapply names_incl_trans; [apply names_incl_cons|].
      eapply names_incl_trans; eassumption.
    + apply Hincl2, Hincl1. simpl. rewrite String.eqb_refl. reflexivity.
Qed.

Lemma returns_no_cycle (this c d : Module) (stack : list Module) :
  returns this stack ->
  rtc depends_on this c -> rtc depends_on c d -> imports d (name c) ->
  False.
Proof.
  intros Hret Hc Hd Himp.
  destruct (returns_reach _ _ Hc _ Hret) as (s1 & _ & Hret1 & _).
  destruct (returns_reach _ _ Hd _ Hret1) as (s2 & _ & (fuel & deps & Hrun) & Hor).
  destruct (filterDependencies_upto_ok _ _ _ _ Hrun) as [_ Himports].
  destruct (Himports _ Himp) as (Hne & Hstack & _).
  destruct Hor as [->|Hin]; congruence.
Qed.

(** ** The errors of a resolution *)

Definition resolution_error (kind : ErrorKind) (msg : string) : Prop :=
  (kind = SyntaxError
   /\ (msg = "can't import self" \/ msg = "circular import detected"))
  \/ (kind = ReferenceError
      /\ exists mn, msg = "module '" +:+ mn +:+ "' not found"
                    /\ find_module mn modules = None).

Lemma walk_statements_error
    (recurse : Module -> option (Result (list Module)))
    (this : Module) (stack : list Module) :
  (forall m kind msg, recurse m = Some (Throw kind msg) ->
                      resolution_error kind msg) ->
  forall stmts deps kind msg,
    walk_statements recurse this modules stack stmts deps
    = Some (Throw kind msg) ->
    resolution_error kind msg.
Proof.
  intros Hrec stmts. induction stmts as [|s stmts IH]; intros deps kind msg H;
    simpl in H; [discriminate|].
  destruct (import_of s) as [mn|]; [|eapply IH; eassumption].
  destruct (String.eqb mn (name this)).
  { injection H as <- <-. left; auto. }
  destruct (has_name mn stack).
  { injection H as <- <-. left; auto. }
  destruct (has_name mn deps); [eapply IH; eassumption|].
  destruct (find_module mn modules) as [m|] eqn:Efind.
  - destruct (recurse m) as [[r|k' msg']|] eqn:Erec; try discriminate.
    + eapply IH; eassumption.
    + injection H as <- <-. eapply Hrec; eassumption.
  - injection H as <- <-. right. split; [reflexivity|]. eauto.
Qed.

Lemma filterDependencies_upto_error (fuel : nat) :
  forall this stack kind msg,
    filterDependencies_upto fuel this modules stack = Some (Throw kind msg) ->
    resolution_error kind msg.
Proof.
  induction fuel as [|fuel IH]; intros this stack kind msg H; [discriminate|].
  simpl in H. eapply walk_statements_error; [|exact H].
  intros m k' msg' Hm. eapply IH; exact Hm.
Qed.

(** ** Imports that are met first *)

Fixpoint first_import (stmts : list Statement) : option string :=
  match stmts with
  | [] => None
  | s :: stmts' =>
      match import_of s with
      | Some mn => Some mn
      | None => first_import stmts'
      end
  end.

Lemma walk_statements_self_first
    (recurse : Module -> option (Result (list Module)))
    (this : Module) (stack : list Module) (stmts : list Statement) :
  first_import stmts = Some (name this) ->
  walk_statements recurse this modules stack stmts []
  = Some (Throw SyntaxError "can't import self").
Proof.
  induction stmts as [|s stmts IH]; simpl; [discriminate|].
  destruct (import_of s) as [mn|]; [|exact IH].
  intros [= ->]. rewrite String.eqb_refl. reflexivity.
Qed.

Lemma walk_statements_on_stack_first
    (recurse : Module -> option (Result (list Module)))
    (this : Module) (stack : list Module) (stmts : list Statement)
    (mn : string) :
  first_import stmts = Some mn ->
  mn <> name this -> has_name mn stack = true ->
  walk_statements recurse this modules stack stmts []
  = Some (Throw SyntaxError "circular import detected").
Proof.
  intros Hfirst Hne Hstack.
  induction stmts as [|s stmts IH]; simpl in *; [discriminate|].
  destruct (import_of s) as [mn'|]; [|exact (IH Hfirst)].
  injection Hfirst as ->.
  destruct (String.eqb_spec mn (name this)); [contradiction|].
  rewrite Hstack. reflexivity.
Qed.

Lemma walk_statements_recurse_first
    (recurse : Module -> option (Result (list Module)))
    (this m : Module) (stack : list Module) (stmts : list Statement)
    (mn : string) (kind : ErrorKind) (msg : string) :
  first_import stmts = Some mn ->
  mn <> name this -> has_name mn stack = false ->
  find_module mn modules = Some m ->
  recurse m = Some (Throw kind msg) ->
  walk_statements recurse this modules stack stmts []
  = Some (Throw kind msg).
Proof.
  intros Hfirst Hne Hstack Hfind Hrec.
  induction stmts as [|s stmts IH]; simpl in *; [discriminate|].
  destruct (import_of s) as [mn'|]; [|exact (IH Hfirst)].
  injection Hfirst as ->.
  destruct (String.eqb_spec mn (name this)); [contradiction|].
  rewrite Hstack, Hfind, Hrec. reflexivity.
Qed.

End Resolution.

(** More fuel does not change a result. *)

Lemma walk_statements_mono (modules : list Module)
    (rec1 rec2 : Module -> option (Result (list Module)))
    (this : Module) (stack : list Module) :
  (forall m r, rec1 m = Some r -> rec2 m = Some r) ->
  forall stmts deps r,
    walk_statements rec1 this modules stack stmts deps = Some r ->
    walk_statements rec2 this modules stack stmts deps = Some r.
Proof.
  intros Hrec stmts. induction stmts as [|s stmts IH]; intros deps r H;
    simpl in *; [exact H|].
  destruct (import_of s) as [mn|]; [|auto].
  destruct (String.eqb mn (name this)); [exact H|].
  destruct (has_name mn stack); [exact H|].
  destruct (has_name mn deps); [auto|].
  destruct (find_module mn modules) as [m|]; [|exact H].
  destruct (rec1 m) as [x|] eqn:E1; [|discriminate].
  rewrite (Hrec _ _ E1). destruct x; auto.
Qed.

Lemma filterDependencies_upto_mono (modules : list Module) (fuel : nat) :
  forall fuel' this stack r,
    fuel <= fuel' ->
    filterDependencies_upto fuel this modules stack = Some r ->
    filterDependencies_upto fuel' this modules stack = Some r.
Proof.
  induction fuel as [|fuel IH]; intros fuel' this stack r Hle H;
    [discriminate|].
  destruct fuel' as [|fuel']; [lia|]. simpl in *.
  eapply walk_statements_mono; [|exact H].
  intros m x Hx. apply IH; [lia | exact Hx].
Qed.

(** C5 (amended). Dependency resolution terminates for every module,
    candidate set and stack: the recursion is never deeper than the number
    of candidates plus one.  When the module imports itself, or an import
    cycle can be reached from it, the resolution does not return: it
    raises the syntax error "can't import self" or "circular import
    detected", unless an import of a module that is not among the
    candidates is met first, which raises the reference error "module ...
    not found".  A self-import met before any other import raises "can't
    import self"; an import of a module on the resolution stack met before
    any other import raises "circular import detected", and so do two
    modules whose first imports are each other. *)

Theorem filterDependencies_terminates_and_rejects_cycles
    (this : Module) (modules stack : list Module) :
  (forall fuel, S (length modules) <= fuel ->
     filterDependencies_upto fuel this modules stack
     = Some (filterDependencies this modules stack)) /\
  (forall c d,
     rtc (depends_on modules) this c -> rtc (depends_on modules) c d ->
     imports d (name c) ->
     exists kind msg,
       filterDependencies this modules stack = Throw kind msg
       /\ resolution_error modules kind msg) /\
  (first_import (statements this) = Some (name this) ->
   filterDependencies this modules stack
   = Throw SyntaxError "can't import self") /\
  (forall mn,
     first_import (statements this) = Some mn ->
     mn <> name this -> has_name mn stack = true ->
     filterDependencies this modules stack
     = Throw SyntaxError "circular import detected") /\
  (forall mn m,
     first_import (statements this) = Some mn ->
     mn <> name this -> has_name mn stack = false ->
     find_module mn modules = Some m ->
     first_import (statements m) = Some (name this) ->
     filterDependencies this modules stack
     = Throw SyntaxError "circular import detected").
Proof.
  assert (Hrun : filterDependencies_upto (S (length modules)) this modules stack
                 = Some (filterDependencies this modules stack)).
  { unfold filterDependencies.
    destruct (filterDependencies_upto (S (length modules)) this modules stack)
      as [r|] eqn:E; [reflexivity|].
    exfalso. revert E. apply filterDependencies_upto_finishes.
    pose proof (off_stack_le modules this stack). lia. }
  split; [|split; [|split; [|split]]].
  - intros fuel Hle.
    eapply filterDependencies_upto_mono; [exact Hle | exact Hrun].
  - intros c d Hc Hd Himp.
    destruct (filterDependencies this modules stack) as [deps|kind msg] eqn:E.
    + exfalso. eapply (returns_no_cycle modules this c d stack); try eassumption.
      exists (S (length modules)), deps. exact Hrun.
    + exists kind, msg. split; [reflexivity|].
      eapply filterDependencies_upto_error. exact Hrun.
  - intros Hfirst. simpl in Hrun.
    rewrite (walk_statements_self_first modules _ _ _ _ Hfirst) in Hrun.
    injection Hrun as <-. reflexivity.
  - intros mn Hfirst Hne Hstack. simpl in Hrun.
    rewrite (walk_statements_on_stack_first modules _ _ _ _ _ Hfirst Hne Hstack)
      in Hrun.
    injection Hrun as <-. reflexivity.
  - intros mn m Hfirst Hne Hstack Hfind Hback.
    destruct (find_module_some _ _ _ Hfind) as [Hin Hname].
    destruct modules as [|m0 modules']; [destruct Hin|].
    change (length (m0 :: modules')) with (S (length modules')) in Hrun.
    cbn [filterDependencies_upto] in Hrun.
    rewrite (walk_statements_recurse_first (m0 :: modules') _ this m stack _ mn
               SyntaxError "circular import detected" Hfirst Hne Hstack Hfind)
      in Hrun.
    + injection Hrun as <-. reflexivity.
    + apply (walk_statements_on_stack_first _ _ _ _ _ (name this) Hback).
      * congruence.
      * simpl. rewrite String.eqb_refl. reflexivity.
Qed.

Lemma filterDependencies_terminates_and_rejects_cycles_witness :
  filterDependencies
    (mkModule "a" [OtherStatement "S"; ImportModuleStatement "b"])
    [mkModule "a" [OtherStatement "S"; ImportModuleStatement "b"];
     mkModule "b" [ImportFromStatement "S" "S" "a"]]
    []
  = Throw SyntaxError "circular import detected".
Proof.
  apply (proj2 (proj2 (proj2 (proj2
    (filterDependencies_terminates_and_rejects_cycles
       (mkModule "a" [OtherStatement "S"; ImportModuleStatement "b"])
       [mkModule "a" [OtherStatement "S"; ImportModuleStatement "b"];
        mkModule "b" [ImportFromStatement "S" "S" "a"]]
       []))))
    "b" (mkModule "b" [ImportFromStatement "S" "S" "a"])).
  - reflexivity.
  - discriminate.
  - reflexivity.
  - reflexivity.
  - reflexivity.
Defined.

(** The claim as stated fails: a module that imports itself, but imports a
    missing module before, raises the reference error of the missing
    module and not the syntax error "can't import self". *)

Lemma self_import_after_missing_module :
  imports (mkModule "m" [ImportModuleStatement "x"; ImportModuleStatement "m"])
          (name (mkModule "m" [ImportModuleStatement "x";
                               ImportModuleStatement "m"])) /\
  filterDependencies
    (mkModule "m" [ImportModuleStatement "x"; ImportModuleStatement "m"]) [] []
  = Throw ReferenceError "module 'x' not found".
Proof.
  split; [|reflexivity].
  exists (ImportModuleStatement "m"). split; [right; left|]; reflexivity.
Qed.

(** ** Unique module names *)

Lemma check_unique_spec (imports : list Module) :
  forall (names : gset string) (seen : list string),
    (forall n, n ∈ names <-> In n seen) ->
    NoDup seen ->
    (NoDup (seen ++ List.map name imports) ->
     check_unique names imports = Ok tt)
    /\ (~ NoDup (seen ++ List.map name imports) ->
        exists n, In n (List.map name imports)
                  /\ check_unique names imports
                     = Throw SyntaxError
                         ("non-unique module name '" +:+ n +:+ "'")).
Proof.
  induction imports as [|m imports IH]; intros names seen Hnames Hseen; simpl.
  - rewrite app_nil_r. split; [reflexivity | contradiction].
  - destruct (bool_decide_reflect (name m ∈ names)) as [Hin|Hnin].
    + apply Hnames in Hin. split.
      * intros Hnd. exfalso. apply NoDup_app in Hnd as (_ & Hdisj & _).
        apply (Hdisj (name m)); [apply list_elem_of_In; exact Hin | left].
      * intros _. exists (name m). split; [left|]; reflexivity.
    + assert (Hnames' : forall n, n ∈ {[name m]} ∪ names
                                  <-> In n (seen ++ [name m])).
      { intros n. rewrite elem_of_union, elem_of_singleton, List.in_app_iff.
        rewrite Hnames. simpl. intuition. }
      assert (Hseen' : NoDup (seen ++ [name m])).
      { apply NoDup_app. split; [exact Hseen|]. split; [|apply NoDup_singleton].
        intros x Hx Hx'. apply list_elem_of_singleton in Hx' as ->.
        apply Hnin, Hnames, list_elem_of_In, Hx. }
      destruct (IH _ _ Hnames' Hseen') as [IH1 IH2].
      rewrite <- app_assoc in IH1, IH2. simpl in IH1, IH2.
      split; [exact IH1|].
      intros Hnd. destruct (IH2 Hnd) as (n & Hn & E).
      exists n. split; [right; exact Hn | exact E].
Qed.

(** C10. The names of the main module and of the auxiliary modules must
    be pairwise different: when they are not, construction fails with the
    syntax error "non-unique module name", whatever the imports of the
    modules are and whatever type checking would say (neither has run);
    when they are, [parseImports] returns the modules. *)

Theorem Program_new_requires_unique_names
    (evalTypes : Program -> Result unit) (purpose : ScriptPurpose)
    (main : Module) (post : option Module) (parsed : list Module) :
  (~ NoDup (name main :: List.map name parsed) ->
   exists n,
     In n (List.map name parsed)
     /\ Program_new evalTypes purpose main post parsed
        = Throw SyntaxError ("non-unique module name '" +:+ n +:+ "'"))
  /\ (NoDup (name main :: List.map name parsed) ->
      parseImports (name main) parsed = Ok parsed).
Proof.
  destruct (check_unique_spec parsed {[name main]} [name main]) as [H1 H2].
  { intros n. rewrite elem_of_singleton. simpl. intuition. }
  { apply NoDup_singleton. }
  simpl in H1, H2. split.
  - intros Hnd. destruct (H2 Hnd) as (n & Hn & E).
    exists n. split; [exact Hn|].
    unfold Program_new, parseImports. rewrite E. reflexivity.
  - intros Hnd. unfold parseImports. rewrite (H1 Hnd). reflexivity.
Qed.

Lemma Program_new_requires_unique_names_witness :
  exists n,
    In n ["util"; "main"]
    /\ Program_new (fun _ => Ok tt) Spending
         (mkModule "main" [FuncStatement "main" [] []]) None
         [mkModule "util" []; mkModule "main" []]
       = Throw SyntaxError ("non-unique module name '" +:+ n +:+ "'").
Proof.
  apply (proj1 (Program_new_requires_unique_names (fun _ => Ok tt) Spending
                  (mkModule "main" [FuncStatement "main" [] []]) None
                  [mkModule "util" []; mkModule "main" []])).
  simpl. intros Hnd. apply NoDup_cons in Hnd as [Hnin _].
  apply Hnin. right. left.
Defined.

End Resolver.

(** * The entry point of spending, minting and staking programs *)

Module Entry.
Import Types IRText.

#[local] Arguments String.append _ _ : simpl nomatch.

(** [`${i}`] for a number. *)

Definition nat_to_string (n : nat) : string :=
  NilEmpty.string_of_uint (Nat.to_uint n).

(** [argTypeNames.some(name => name == "")]: an empty type name comes from
    an underscore. *)

Definition haveUnderscores (argTypeNames : list string) : bool :=
  existsb (fun name => String.eqb name "") argTypeNames.

(** The checks on the return types of [main], shared by the two classes;
    [BoolType.isBaseOf(t)].  The message for a return type that is not
    [Bool] interpolates [retTypes[0].toString()]. *)

Definition check_retTypes (retTypes : list Ty) : Result unit :=
  match retTypes with
  | [t] =>
      if Builtin_isBaseOf BoolType t then Ok tt
      else
        let* _ := toString_returns t in
        Throw TypeError "illegal return type for main, expected 'Bool'"
  | _ => Throw TypeError "illegal number of return values for main, expected 1"
  end.

(** ** [DatumRedeemerProgram] (spending) *)

(** The loop over [argTypeNames], from index [i] on. *)

Fixpoint DatumRedeemer_check_args (underscores : bool) (i : nat)
    (argTypeNames : list string)
    (haveDatum haveRedeemer haveScriptContext : bool) : Result unit :=
  match argTypeNames with
  | [] => Ok tt
  | t :: rest =>
      if String.eqb t "" then
        DatumRedeemer_check_args underscores (S i) rest
          haveDatum haveRedeemer haveScriptContext
      else if String.eqb t "Datum" then
        if underscores && negb (Nat.eqb i 0) then
          Throw TypeError
            ("unexpected Datum type for arg " ++ nat_to_string i ++ " of main")
        else if haveDatum then
          Throw TypeError "duplicate 'Datum' argument"
        else if haveRedeemer then
          Throw TypeError "'Datum' must come before 'Redeemer'"
        else if haveScriptContext then
          Throw TypeError "'Datum' must come before 'ScriptContext'"
        else
          DatumRedeemer_check_args underscores (S i) rest
            true haveRedeemer haveScriptContext
      else if String.eqb t "Redeemer" then
        if underscores && negb (Nat.eqb i 1) then
          Throw TypeError
            ("unexpected Redeemer type for arg " ++ nat_to_string i ++ " of main")
        else if haveRedeemer then
          Throw TypeError "duplicate 'Redeemer' argument"
        else if haveScriptContext then
          Throw TypeError "'Redeemer' must come before 'ScriptContext'"
        else
          DatumRedeemer_check_args underscores (S i) rest
            haveDatum true haveScriptContext
      else if String.eqb t "ScriptContext" then
        if underscores && negb (Nat.eqb i 2) then
          Throw TypeError
            ("unexpected ScriptContext type for arg " ++ nat_to_string i
             ++ " of main")
        else if haveScriptContext then
          Throw TypeError "duplicate 'ScriptContext' argument"
        else
          DatumRedeemer_check_args underscores (S i) rest
            haveDatum haveRedeemer true
      else
        Throw TypeError
          ("illegal argument type, must be 'Datum', 'Redeemer' or 'ScriptContext', got '"
           ++ t ++ "'")
  end.

(** The checks on the arguments of [main].  The result tells whether the
    deprecation warning "main with variable arguments" was given. *)

Definition DatumRedeemer_check_main_args (argTypeNames : list string)
    : Result bool :=
  let underscores := haveUnderscores argTypeNames in
  let* warned :=
    if Nat.ltb 3 (length argTypeNames) then
      Throw TypeError "too many arguments for main"
    else if underscores then
      if Nat.eqb (length argTypeNames) 3 then Ok false
      else Throw InternalError "expected 3 args"
    else if negb (Nat.eqb (length argTypeNames) 3) then Ok true
    else Ok false in
  let* _ := DatumRedeemer_check_args underscores 0 argTypeNames
              false false false in
  Ok warned.

(** [DatumRedeemerProgram.evalTypesInternal], after the modules have been
    evaluated by [super.evalTypesInternal(scope)]: the checks on
    [main.argTypeNames] and [main.retTypes]. *)

Definition DatumRedeemerProgram_evalTypesInternal
    (argTypeNames : list string) (retTypes : list Ty) : Result bool :=
  let* warned := DatumRedeemer_check_main_args argTypeNames in
  let* _ := check_retTypes retTypes in
  Ok warned.

(** ** [RedeemerProgram] (minting and staking) *)

Fixpoint Redeemer_check_args (underscores : bool) (i : nat)
    (argTypeNames : list string)
    (haveRedeemer haveScriptContext : bool) : Result unit :=
  match argTypeNames with
  | [] => Ok tt
  | t :: rest =>
      if String.eqb t "" then
        Redeemer_check_args underscores (S i) rest
          haveRedeemer haveScriptContext
      else if String.eqb t "Redeemer" then
        if underscores && negb (Nat.eqb i 0) then
          Throw TypeError
            ("unexpected Redeemer type for arg " ++ nat_to_string i ++ " of main")
        else if haveRedeemer then
          Throw TypeError "duplicate 'Redeemer' argument"
        else if haveScriptContext then
          Throw TypeError "'Redeemer' must come before 'ScriptContext'"
        else
          Redeemer_check_args underscores (S i) rest true haveScriptContext
      else if String.eqb t "ScriptContext" then
        if underscores && negb (Nat.eqb i 1) then
          Throw TypeError
            ("unexpected ScriptContext type for arg " ++ nat_to_string i
             ++ " of main")
        else if haveScriptContext then
          Throw TypeError "duplicate 'ScriptContext' argument"
        else
          Redeemer_check_args underscores (S i) rest haveRedeemer true
      else
        Throw TypeError
          ("illegal argument type, must be 'Redeemer' or 'ScriptContext', got '"
           ++ t ++ "'")
  end.

Definition Redeemer_check_main_args (argTypeNames : list string)
    : Result bool :=
  let underscores := haveUnderscores argTypeNames in
  let* warned :=
    if Nat.ltb 2 (length argTypeNames) then
      Throw TypeError "too many arguments for main"
    else if underscores then
      if Nat.eqb (length argTypeNames) 2 then Ok false
      else Throw InternalError "expected 2 arguments"
    else if negb (Nat.eqb (length argTypeNames) 2) then Ok true
    else Ok false in
  let* _ := Redeemer_check_args underscores 0 argTypeNames false false in
  Ok warned.

Definition RedeemerProgram_evalTypesInternal
    (argTypeNames : list string) (retTypes : list Ty) : Result bool :=
  let* warned := Redeemer_check_main_args argTypeNames in
  let* _ := check_retTypes retTypes in
  Ok warned.

(** ** Lowering of the entry point *)

Section ToIR.

(** [TAB] (config.js) and [this.mainPath]. *)

Variables TAB mainPath : string.

Definition newline : string := String "010"%char "".
Definition double_quote : string := String "034"%char "".

(** [outerArgs.push(new IR("_"))] while [outerArgs.length < n]. *)

Definition pad_outer (n : nat) (outerArgs : list IR) : list IR :=
  outerArgs ++ List.repeat (IRstr "_") (n - length outerArgs).

(** The fragment [new IR([...])] built at the end of both [toIR]s, from
    the outer and the inner arguments. *)

Definition entry_point (outerArgs innerArgs : list IR) : IR :=
  IRlist [
    IRstr (TAB +:+ "/*entry point*/" +:+ newline +:+ TAB +:+ "(");
    IR_join ", " outerArgs;
    IRstr (") -> {" +:+ newline +:+ TAB +:+ TAB);
    IRstr ("__core__ifThenElse(" +:+ newline +:+ TAB +:+ TAB +:+ TAB
           +:+ mainPath +:+ "(" +:+ mainPath +:+ ")(");
    IR_join ", " innerArgs;
    IRstr ("),"
           +:+ newline +:+ TAB +:+ TAB +:+ TAB +:+ "() -> {()},"
           +:+ newline +:+ TAB +:+ TAB +:+ TAB +:+ "() -> {error("
           +:+ double_quote +:+ "transaction rejected" +:+ double_quote
           +:+ ")}"
           +:+ newline +:+ TAB +:+ TAB +:+ ")()");
    IRstr (newline +:+ TAB +:+ "}")
  ].

(** The loop of [DatumRedeemerProgram.toIR] over [argTypeNames]. *)

Fixpoint DatumRedeemer_args (argTypeNames : list string)
    (outerArgs innerArgs : list IR) : Result (list IR * list IR) :=
  match argTypeNames with
  | [] => Ok (outerArgs, innerArgs)
  | t :: rest =>
      if String.eqb t "Datum" then
        DatumRedeemer_args rest
          (outerArgs ++ [IRstr "datum"]) (innerArgs ++ [IRstr "datum"])
      else if String.eqb t "Redeemer" then
        DatumRedeemer_args rest
          ((if Nat.eqb (length outerArgs) 0
            then outerArgs ++ [IRstr "_"] else outerArgs)
           ++ [IRstr "redeemer"])
          (innerArgs ++ [IRstr "redeemer"])
      else if String.eqb t "ScriptContext" then
        DatumRedeemer_args rest
          (pad_outer 2 outerArgs ++ [IRstr "ctx"])
          (innerArgs ++ [IRstr "ctx"])
      else if String.eqb t "" then
        DatumRedeemer_args rest
          (outerArgs ++ [IRstr "_"]) (innerArgs ++ [IRstr "0"])
      else Throw InternalError "unexpected"
  end.

(** [DatumRedeemerProgram.toIR], up to the call of [wrapEntryPoint], which
    puts the definitions of the program around the entry point. *)

Definition DatumRedeemerProgram_toIR (argTypeNames : list string)
    : Result IR :=
  let* args := DatumRedeemer_args argTypeNames [] [] in
  Ok (entry_point (pad_outer 3 (fst args)) (snd args)).

(** The loop of [RedeemerProgram.toIR], and [RedeemerProgram.toIR]. *)

Fixpoint Redeemer_args (argTypeNames : list string)
    (outerArgs innerArgs : list IR) : Result (list IR * list IR) :=
  match argTypeNames with
  | [] => Ok (outerArgs, innerArgs)
  | t :: rest =>
      if String.eqb t "Redeemer" then
        Redeemer_args rest
          (outerArgs ++ [IRstr "redeemer"]) (innerArgs ++ [IRstr "redeemer"])
      else if String.eqb t "ScriptContext" then
        Redeemer_args rest
          ((if Nat.eqb (length outerArgs) 0
            then outerArgs ++ [IRstr "_"] else outerArgs)
           ++ [IRstr "ctx"])
          (innerArgs ++ [IRstr "ctx"])
      else if String.eqb t "" then
        Redeemer_args rest
          (outerArgs ++ [IRstr "_"]) (innerArgs ++ [IRstr "0"])
      else Throw InternalError "unexpected"
  end.

Definition RedeemerProgram_toIR (argTypeNames : list string) : Result IR :=
  let* args := Redeemer_args argTypeNames [] [] in
  Ok (entry_point (pad_outer 2 (fst args)) (snd args)).

End ToIR.

(** ** What the wrapper is expected to look like *)

(** The outer parameter of a slot: the name of the value when [main]
    declares the argument type of the slot, a discarded placeholder
    otherwise. *)

Definition slot (argTypeNames : list string) (typeName param : string)
    : string :=
  if existsb (String.eqb typeName) argTypeNames then param else "_".

Definition spending_slots (argTypeNames : list string) : list string :=
  [slot argTypeNames "Datum" "datum";
   slot argTypeNames "Redeemer" "redeemer";
   slot argTypeNames "ScriptContext" "ctx"].

Definition redeemer_slots (argTypeNames : list string) : list string :=
  [slot argTypeNames "Redeemer" "redeemer";
   slot argTypeNames "ScriptContext" "ctx"].

(** The inner argument passed to [main] for an argument type name. *)

Definition inner_arg (t : string) : string :=
  if String.eqb t "Datum" then "datum"
  else if String.eqb t "Redeemer" then "redeemer"
  else if String.eqb t "ScriptContext" then "ctx"
  else "0".

(** The text of the wrapper: a function of the outer parameters whose body
    applies [main] to itself and then to the inner arguments, and turns
    the boolean into unit or into the error "transaction rejected". *)

Definition wrapper_text (TAB mainPath : string) (outer inner : list string)
    : string :=
  TAB +:+ "/*entry point*/" +:+ newline +:+ TAB
  +:+ "(" +:+ join ", " outer +:+ ") -> {" +:+ newline +:+ TAB +:+ TAB
  +:+ "__core__ifThenElse(" +:+ newline +:+ TAB +:+ TAB +:+ TAB
  +:+ mainPath +:+ "(" +:+ mainPath +:+ ")(" +:+ join ", " inner +:+ "),"
  +:+ newline +:+ TAB +:+ TAB +:+ TAB +:+ "() -> {()},"
  +:+ newline +:+ TAB +:+ TAB +:+ TAB +:+ "() -> {error("
  +:+ double_quote +:+ "transaction rejected" +:+ double_quote +:+ ")}"
  +:+ newline +:+ TAB +:+ TAB +:+ ")()"
  +:+ newline +:+ TAB +:+ "}".


(** ** The argument contract *)

Definition allowed_name (t : string) : Prop :=
  t = "" \/ t = "Datum" \/ t = "Redeemer" \/ t = "ScriptContext".

Lemma DatumRedeemer_check_args_kind (argTypeNames : list string) :
  forall underscores i haveDatum haveRedeemer haveScriptContext,
    DatumRedeemer_check_args underscores i argTypeNames
      haveDatum haveRedeemer haveScriptContext = Ok tt
    \/ throws TypeError
         (DatumRedeemer_check_args underscores i argTypeNames
            haveDatum haveRedeemer haveScriptContext).
Proof.
  induction argTypeNames as [|t rest IH]; intros; simpl; [left; reflexivity|].
  repeat match goal with
         | |- context [if ?b then _ else _] => destruct b
         end;
    first [apply IH | right; eexists; reflexivity].
Qed.

(** What a successful run of the loop says about the names: each is an
    underscore or one of the three type names; a type name seen before
    (flag set) does not come again, nor does a type name that must come
    before it; and the same holds from each position of the list on. *)

Definition none_of (ts : list string) (l : list string) : Prop :=
  forall t, In t ts -> ~ In t l.

Lemma DatumRedeemer_check_args_ok (argTypeNames : list string) :
  forall underscores i haveDatum haveRedeemer haveScriptContext,
    DatumRedeemer_check_args underscores i argTypeNames
      haveDatum haveRedeemer haveScriptContext = Ok tt ->
    Forall allowed_name argTypeNames
    /\ (haveDatum = true -> none_of ["Datum"] argTypeNames)
    /\ (haveRedeemer = true -> none_of ["Datum"; "Redeemer"] argTypeNames)
    /\ (haveScriptContext = true ->
        none_of ["Datum"; "Redeemer"; "ScriptContext"] argTypeNames)
    /\ (forall l1 a l2, argTypeNames = l1 ++ a :: l2 ->
          (a = "Datum" -> none_of ["Datum"] l2)
          /\ (a = "Redeemer" -> none_of ["Datum"; "Redeemer"] l2)
          /\ (a = "ScriptContext" ->
              none_of ["Datum"; "Redeemer"; "ScriptContext"] l2)).
Proof.
  induction argTypeNames as [|t rest IH];
    intros underscores i haveDatum haveRedeemer haveScriptContext H.
  - split; [constructor|].
    split; [intros _ t' _ []|]. split; [intros _ t' _ []|].
    split; [intros _ t' _ []|].
    intros [|x l1] a l2 E; discriminate E.
  - simpl in H.
    assert (Hsplit : forall (P : string -> list string -> Prop),
               P t rest ->
               (forall l1 a l2, rest = l1 ++ a :: l2 -> P a l2) ->
               forall l1 a l2, t :: rest = l1 ++ a :: l2 -> P a l2).
    { intros P Hhd Htl [|x l1] a l2 E; simpl in E; injection E as E1 E2;
        subst; eauto. }
    destruct (String.eqb_spec t "") as [->|Hne0].
    { destruct (IH _ _ _ _ _ H) as (A & B & C & D & E).
      split; [constructor; [left; reflexivity | exact A]|].
      split; [|split; [|split]].
      - intros Hf t' Ht' [Hx|Hx]; [destruct Ht' as [<-|[]]; discriminate|].
        eapply B; eassumption.
      - intros Hf t' Ht' [Hx|Hx];
          [destruct Ht' as [<-|[<-|[]]]; discriminate|].
        eapply C; eassumption.
      - intros Hf t' Ht' [Hx|Hx];
          [destruct Ht' as [<-|[<-|[<-|[]]]]; discriminate|].
        eapply D; eassumption.
      - apply (Hsplit (fun a l2 => _)); [|exact E].
        repeat split; discriminate. }
    destruct (String.eqb_spec t "Datum") as [->|HneD].
    { destruct (underscores && negb (Nat.eqb i 0)); [discriminate|].
      destruct haveDatum; [discriminate|].
      destruct haveRedeemer; [discriminate|].
      destruct haveScriptContext; [discriminate|].
      destruct (IH _ _ _ _ _ H) as (A & B & C & D & E).
      split; [constructor; [right; left; reflexivity | exact A]|].
      split; [discriminate|]. split; [discriminate|]. split; [discriminate|].
      apply (Hsplit (fun a l2 => _)); [|exact E].
      split; [intros _; apply B; reflexivity|]. split; discriminate. }
    destruct (String.eqb_spec t "Redeemer") as [->|HneR].
    { destruct (underscores && negb (Nat.eqb i 1)); [discriminate|].
      destruct haveRedeemer; [discriminate|].
      destruct haveScriptContext; [discriminate|].
      destruct (IH _ _ _ _ _ H) as (A & B & C & D & E).
      split; [constructor; [right; right; left; reflexivity | exact A]|].
      split; [|split; [discriminate | split; [discriminate|]]].
      - intros Hf t' Ht' [Hx|Hx]; [destruct Ht' as [<-|[]]; discriminate|].
        eapply B; eassumption.
      - apply (Hsplit (fun a l2 => _)); [|exact E].
        split; [discriminate|].
        split; [intros _; apply C; reflexivity | discriminate]. }
    destruct (String.eqb_spec t "ScriptContext") as [->|HneS]; [|discriminate].
    destruct (underscores && negb (Nat.eqb i 2)); [discriminate|].
    destruct haveScriptContext; [discriminate|].
    destruct (IH _ _ _ _ _ H) as (A & B & C & D & E).
    split; [constructor; [right; right; right; reflexivity | exact A]|].
    split; [|split; [|split; [discriminate|]]].
    + intros Hf t' Ht' [Hx|Hx]; [destruct Ht' as [<-|[]]; discriminate|].
      eapply B; eassumption.
    + intros Hf t' Ht' [Hx|Hx];
        [destruct Ht' as [<-|[<-|[]]]; discriminate|].
      eapply C; eassumption.
    + apply (Hsplit (fun a l2 => _)); [|exact E].
      split; [discriminate|]. split; [discriminate|].
      intros _; apply D; reflexivity.
Qed.

(** The ways of breaking the contract that the specification names. *)

Definition too_many (argTypeNames : list string) : Prop :=
  3 < length argTypeNames.

Definition other_type_name (argTypeNames : list string) : Prop :=
  exists t, In t argTypeNames /\ ~ allowed_name t.

Definition declared_twice (argTypeNames : list string) : Prop :=
  exists t l1 l2,
    (t = "Datum" \/ t = "Redeemer" \/ t = "ScriptContext")
    /\ argTypeNames = l1 ++ t :: l2 /\ In t l2.

Definition out_of_order (argTypeNames : list string) : Prop :=
  exists l1 a l2 b,
    argTypeNames = l1 ++ a :: l2 /\ In b l2
    /\ ((a = "Redeemer" /\ b = "Datum")
        \/ (a = "ScriptContext" /\ (b = "Datum" \/ b = "Redeemer"))).

Definition breaks_contract (argTypeNames : list string) : Prop :=
  too_many argTypeNames \/ other_type_name argTypeNames
  \/ declared_twice argTypeNames \/ out_of_order argTypeNames.

Lemma breaks_contract_not_ok (argTypeNames : list string) (warned : bool) :
  breaks_contract argTypeNames ->
  DatumRedeemer_check_main_args argTypeNames <> Ok warned.
Proof.
  unfold DatumRedeemer_check_main_args. intros Hb H.
  destruct (Nat.ltb_spec 3 (length argTypeNames)) as [Hlen|Hlen];
    [discriminate|].
  apply bind_ok_inv in H as (w & _ & H).
  destruct (DatumRedeemer_check_args _ 0 argTypeNames false false false)
    as [[]|] eqn:E; [|discriminate].
  destruct (DatumRedeemer_check_args_ok _ _ _ _ _ _ E) as (A & _ & _ & _ & S).
  destruct Hb as [Hb|[Hb|[Hb|Hb]]].
  - unfold too_many in Hb. lia.
  - destruct Hb as (t & Ht & Hna). rewrite List.Forall_forall in A. auto.
  - destruct Hb as (t & l1 & l2 & Ht & -> & Hin).
    destruct (S _ _ _ eq_refl) as (SD & SR & SS).
    destruct Ht as [-> | [-> | ->]].
    + apply (SD eq_refl "Datum"); simpl; auto.
    + apply (SR eq_refl "Redeemer"); simpl; auto.
    + apply (SS eq_refl "ScriptContext"); simpl; auto.
  - destruct Hb as (l1 & a & l2 & b & -> & Hin & Hab).
    destruct (S _ _ _ eq_refl) as (SD & SR & SS).
    destruct Hab as [[-> ->] | [-> [-> | ->]]].
    + apply (SR eq_refl "Datum"); simpl; auto.
    + apply (SS eq_refl "Datum"); simpl; auto.
    + apply (SS eq_refl "Redeemer"); simpl; auto.
Qed.

(** The argument contract of a spending program as the code enforces
    it.  [main] with the arguments [Datum, Redeemer, ScriptContext] in
    that order and one return value of type [Bool] passes the checks.
    Declaring the type names out of order, declaring one of them twice,
    using any other argument type name, or declaring more than three
    arguments is a fatal error: a type error, except that an argument list
    of fewer than three arguments that contains an underscore fails the
    assertion "expected 3 args" (a plain error) before the names are
    looked at.  When the arguments are accepted, a return list that is
    not one value of type [Bool] is a type error, or the plain error of
    printing the return type when that type has no text. *)

Theorem spending_entry_contract (argTypeNames : list string)
    (retTypes : list Ty) :
  (forall t, Builtin_isBaseOf BoolType t = true ->
     DatumRedeemerProgram_evalTypesInternal
       ["Datum"; "Redeemer"; "ScriptContext"] [t] = Ok false) /\
  (breaks_contract argTypeNames ->
     (haveUnderscores argTypeNames = true /\ length argTypeNames < 3 ->
      DatumRedeemerProgram_evalTypesInternal argTypeNames retTypes
      = Throw InternalError "expected 3 args")
     /\ (~ (haveUnderscores argTypeNames = true /\ length argTypeNames < 3) ->
         throws TypeError
           (DatumRedeemerProgram_evalTypesInternal argTypeNames retTypes))) /\
  (forall warned,
     DatumRedeemer_check_main_args argTypeNames = Ok warned ->
     (DatumRedeemerProgram_evalTypesInternal argTypeNames retTypes = Ok warned
      /\ exists t, retTypes = [t] /\ Builtin_isBaseOf BoolType t = true)
     \/ (throws TypeError
           (DatumRedeemerProgram_evalTypesInternal argTypeNames retTypes)
         /\ forall t, retTypes = [t] ->
              Builtin_isBaseOf BoolType t = false /\ printable t = true)
     \/ (DatumRedeemerProgram_evalTypesInternal argTypeNames retTypes
         = Throw InternalError "not yet implemented"
         /\ exists t, retTypes = [t] /\ Builtin_isBaseOf BoolType t = false
                      /\ printable t = false)).
Proof.
  split; [|split].
  - intros t Ht. unfold DatumRedeemerProgram_evalTypesInternal. simpl.
    rewrite Ht. reflexivity.
  - intros Hb. split.
    + intros [Hu Hlen].
      unfold DatumRedeemerProgram_evalTypesInternal,
        DatumRedeemer_check_main_args.
      destruct (Nat.ltb_spec 3 (length argTypeNames)); [lia|].
      rewrite Hu.
      destruct (Nat.eqb_spec (length argTypeNames) 3); [lia|]. reflexivity.
    + intros Hno.
      pose proof (breaks_contract_not_ok argTypeNames) as Hnot.
      specialize (fun w => Hnot w Hb).
      unfold DatumRedeemerProgram_evalTypesInternal.
      unfold DatumRedeemer_check_main_args in *.
      destruct (Nat.ltb_spec 3 (length argTypeNames)) as [Hlen|Hlen];
        [eexists; reflexivity|].
      destruct (DatumRedeemer_check_args_kind argTypeNames
                  (haveUnderscores argTypeNames) 0 false false false)
        as [E|[msg E]]; rewrite E in *.
      * exfalso.
        destruct (haveUnderscores argTypeNames).
        -- destruct (Nat.eqb_spec (length argTypeNames) 3).
           ++ apply (Hnot false). reflexivity.
           ++ apply Hno. split; [reflexivity | lia].
        -- destruct (negb (Nat.eqb (length argTypeNames) 3)).
           ++ apply (Hnot true). reflexivity.
           ++ apply (Hnot false). reflexivity.
      * destruct (haveUnderscores argTypeNames).
        -- destruct (Nat.eqb_spec (length argTypeNames) 3).
           ++ eexists; reflexivity.
           ++ exfalso. apply Hno. split; [reflexivity | lia].
        -- destruct (negb (Nat.eqb (length argTypeNames) 3));
             eexists; reflexivity.
  - intros warned Hargs. unfold DatumRedeemerProgram_evalTypesInternal.
    rewrite Hargs. simpl.
    destruct retTypes as [|t [|t' rest]]; simpl.
    + right. left. split; [eexists; reflexivity | discriminate].
    + destruct (Builtin_isBaseOf BoolType t) eqn:Et; simpl.
      * left. split; [reflexivity|]. exists t. auto.
      * unfold toString_returns. destruct (printable t) eqn:Ep; simpl.
        -- right. left. split; [eexists; reflexivity|].
           intros t0 [= <-]. auto.
        -- right. right. split; [reflexivity|]. exists t. auto.
    + right. left. split; [eexists; reflexivity | discriminate].
Qed.

Lemma spending_entry_contract_witness :
  throws TypeError
    (DatumRedeemerProgram_evalTypesInternal
       ["Datum"; "ScriptContext"; "ScriptContext"] [Builtin BoolType None]).
Proof.
  apply (proj2 (proj1 (proj2 (spending_entry_contract
           ["Datum"; "ScriptContext"; "ScriptContext"] [Builtin BoolType None]))
           (or_intror (or_intror (or_introl
              (ex_intro _ "ScriptContext" (ex_intro _ ["Datum"] (ex_intro _ ["ScriptContext"]
                 (conj (or_intror (or_intror eq_refl))
                       (conj eq_refl (or_introl eq_refl))))))))))).
  intros [Hu _]. discriminate Hu.
Defined.

(** C1. The specification asks that any other argument type name be a
    fatal type error.  [main(_, x: Foo)] uses an argument type name other
    than the three, and the code fails its own assertion
    [assert(argTypeNames.length == 3, "expected 3 args")] with a plain
    error before it looks at the names; the same name in a list of three
    arguments, and a list of more than three arguments, raise the type
    errors of [main.typeError]. *)

Lemma underscore_with_other_type_name :
  other_type_name [""; "Foo"] /\
  DatumRedeemerProgram_evalTypesInternal [""; "Foo"] [Builtin BoolType None]
  = Throw InternalError "expected 3 args" /\
  throws TypeError
    (DatumRedeemerProgram_evalTypesInternal [""; "Foo"; ""]
       [Builtin BoolType None]) /\
  DatumRedeemerProgram_evalTypesInternal [""; "Foo"; ""; ""]
    [Builtin BoolType None]
  = Throw TypeError "too many arguments for main".
Proof.
  split; [|split; [reflexivity | split; [eexists; reflexivity | reflexivity]]].
  exists "Foo". split; [right; left; reflexivity|].
  intros [H|[H|[H|H]]]; discriminate H.
Qed.

(** ** The argument lists that pass the checks *)

Ltac in_list := repeat first [left; reflexivity | right].

Lemma DatumRedeemer_checked_names (argTypeNames : list string) (warned : bool) :
  DatumRedeemer_check_main_args argTypeNames = Ok warned ->
  In argTypeNames
    [[]; ["Datum"]; ["Redeemer"]; ["ScriptContext"];
     ["Datum"; "Redeemer"]; ["Datum"; "ScriptContext"];
     ["Redeemer"; "ScriptContext"];
     ["Datum"; "Redeemer"; "ScriptContext"];
     [""; ""; ""]; ["Datum"; ""; ""]; [""; "Redeemer"; ""];
     [""; ""; "ScriptContext"]; ["Datum"; "Redeemer"; ""];
     ["Datum"; ""; "ScriptContext"]; [""; "Redeemer"; "ScriptContext"]].
Proof.
  intros H.
  assert (Hlen : length argTypeNames <= 3).
  { unfold DatumRedeemer_check_main_args in H.
    destruct (Nat.ltb_spec 3 (length argTypeNames)); [discriminate | lia]. }
  assert (Hall : Forall allowed_name argTypeNames).
  { unfold DatumRedeemer_check_main_args in H.
    apply bind_ok_inv in H as (w & _ & H).
    destruct (DatumRedeemer_check_args _ 0 argTypeNames false false false)
      as [[]|] eqn:E; [|discriminate].
    apply (DatumRedeemer_check_args_ok _ _ _ _ _ _ E). }
  destruct argTypeNames as [|a [|b [|c [|d rest]]]]; simpl in Hlen; try lia;
    repeat match goal with
           | Hall : Forall allowed_name (_ :: _) |- _ =>
               apply Forall_cons in Hall as [[-> | [-> | [-> | ->]]] Hall]
           end;
    vm_compute in H; try discriminate H; in_list.
Qed.

Definition allowed_redeemer_name (t : string) : Prop :=
  t = "" \/ t = "Redeemer" \/ t = "ScriptContext".

Lemma Redeemer_check_args_allowed (argTypeNames : list string) :
  forall underscores i haveRedeemer haveScriptContext,
    Redeemer_check_args underscores i argTypeNames
      haveRedeemer haveScriptContext = Ok tt ->
    Forall allowed_redeemer_name argTypeNames.
Proof.
  induction argTypeNames as [|t rest IH]; intros u i hR hS H; [constructor|].
  simpl in H.
  destruct (String.eqb_spec t "") as [->|_].
  { constructor; [left; reflexivity | eapply IH; exact H]. }
  destruct (String.eqb_spec t "Redeemer") as [->|_].
  { constructor; [right; left; reflexivity|].
    destruct (u && negb (Nat.eqb i 0)); [discriminate|].
    destruct hR; [discriminate|]. destruct hS; [discriminate|].
    eapply IH; exact H. }
  destruct (String.eqb_spec t "ScriptContext") as [->|_]; [|discriminate].
  constructor; [right; right; reflexivity|].
  destruct (u && negb (Nat.eqb i 1)); [discriminate|].
  destruct hS; [discriminate|].
  eapply IH; exact H.
Qed.

Lemma Redeemer_checked_names (argTypeNames : list string) (warned : bool) :
  Redeemer_check_main_args argTypeNames = Ok warned ->
  In argTypeNames
    [[]; ["Redeemer"]; ["ScriptContext"]; ["Redeemer"; "ScriptContext"];
     [""; ""]; ["Redeemer"; ""]; [""; "ScriptContext"]].
Proof.
  intros H.
  assert (Hlen : length argTypeNames <= 2).
  { unfold Redeemer_check_main_args in H.
    destruct (Nat.ltb_spec 2 (length argTypeNames)); [discriminate | lia]. }
  assert (Hall : Forall allowed_redeemer_name argTypeNames).
  { unfold Redeemer_check_main_args in H.
    apply bind_ok_inv in H as (w & _ & H).
    destruct (Redeemer_check_args _ 0 argTypeNames false false)
      as [[]|] eqn:E; [|discriminate].
    apply (Redeemer_check_args_allowed _ _ _ _ _ E). }
  destruct argTypeNames as [|a [|b [|c rest]]]; simpl in Hlen; try lia;
    repeat match goal with
           | Hall : Forall allowed_redeemer_name (_ :: _) |- _ =>
               apply Forall_cons in Hall as [[-> | [-> | ->]] Hall]
           end;
    vm_compute in H; try discriminate H; in_list.
Qed.

(** ** The text of the wrapper *)

Lemma IR_text_join (sep : string) (l : list string) :
  IR_text (IR_join sep (List.map IRstr l)) = join sep l.
Proof.
  unfold IR_join.
  induction l as [|x [|y l] IH]; simpl in *.
  - reflexivity.
  - apply append_nil_r.
  - rewrite IH. reflexivity.
Qed.

Lemma IR_text_entry_point (TAB mainPath : string) (outer inner : list string) :
  IR_text (entry_point TAB mainPath (List.map IRstr outer) (List.map IRstr inner))
  = wrapper_text TAB mainPath outer inner.
Proof.
  unfold entry_point, wrapper_text.
  cbn [IR_text List.fold_right].
  rewrite !IR_text_join.
  rewrite !append_assoc, append_nil_r. reflexivity.
Qed.

Lemma DatumRedeemer_args_checked (argTypeNames : list string) (warned : bool) :
  DatumRedeemer_check_main_args argTypeNames = Ok warned ->
  exists outerArgs,
    DatumRedeemer_args argTypeNames [] []
    = Ok (outerArgs, List.map IRstr (List.map inner_arg argTypeNames))
    /\ pad_outer 3 outerArgs
       = List.map IRstr (spending_slots argTypeNames).
Proof.
  intros H. apply DatumRedeemer_checked_names in H.
  repeat (destruct H as [<-|H]; [eexists; split; reflexivity|]).
  destruct H.
Qed.

Lemma Redeemer_args_checked (argTypeNames : list string) (warned : bool) :
  Redeemer_check_main_args argTypeNames = Ok warned ->
  exists outerArgs,
    Redeemer_args argTypeNames [] []
    = Ok (outerArgs, List.map IRstr (List.map inner_arg argTypeNames))
    /\ pad_outer 2 outerArgs
       = List.map IRstr (redeemer_slots argTypeNames).
Proof.
  intros H. apply Redeemer_checked_names in H.
  repeat (destruct H as [<-|H]; [eexists; split; reflexivity|]).
  destruct H.
Qed.

(** C2. For a type-checked spending program the lowered entry point is
    the wrapper whose outer parameter list is the three slots of the
    purpose ([datum], [redeemer], [ctx], each replaced by the discarded
    placeholder [_] when [main] does not declare it), and for a
    type-checked minting or staking program the wrapper with the two
    slots [redeemer], [ctx].  The body of the wrapper applies [main] to
    itself and then to the inner arguments, inside a conditional that
    gives unit when the result is true and raises the error "transaction
    rejected" when it is false. *)

Theorem entry_point_wrapper (TAB mainPath : string)
    (argTypeNames : list string) (retTypes : list Ty) (warned : bool) :
  (DatumRedeemerProgram_evalTypesInternal argTypeNames retTypes = Ok warned ->
   DatumRedeemerProgram_toIR TAB mainPath argTypeNames
   = Ok (entry_point TAB mainPath
           (List.map IRstr (spending_slots argTypeNames))
           (List.map IRstr (List.map inner_arg argTypeNames)))
   /\ length (spending_slots argTypeNames) = 3
   /\ IR_text (entry_point TAB mainPath
                 (List.map IRstr (spending_slots argTypeNames))
                 (List.map IRstr (List.map inner_arg argTypeNames)))
      = wrapper_text TAB mainPath (spending_slots argTypeNames)
          (List.map inner_arg argTypeNames)) /\
  (RedeemerProgram_evalTypesInternal argTypeNames retTypes = Ok warned ->
   RedeemerProgram_toIR TAB mainPath argTypeNames
   = Ok (entry_point TAB mainPath
           (List.map IRstr (redeemer_slots argTypeNames))
           (List.map IRstr (List.map inner_arg argTypeNames)))
   /\ length (redeemer_slots argTypeNames) = 2
   /\ IR_text (entry_point TAB mainPath
                 (List.map IRstr (redeemer_slots argTypeNames))
                 (List.map IRstr (List.map inner_arg argTypeNames)))
      = wrapper_text TAB mainPath (redeemer_slots argTypeNames)
          (List.map inner_arg argTypeNames)).
Proof.
  split; intros H.
  - unfold DatumRedeemerProgram_evalTypesInternal in H.
    apply bind_ok_inv in H as (w & Hargs & _).
    destruct (DatumRedeemer_args_checked _ _ Hargs) as (outer & E & Hpad).
    split; [|split].
    + unfold DatumRedeemerProgram_toIR. rewrite E. simpl. rewrite Hpad.
      reflexivity.
    + reflexivity.
    + apply IR_text_entry_point.
  - unfold RedeemerProgram_evalTypesInternal in H.
    apply bind_ok_inv in H as (w & Hargs & _).
    destruct (Redeemer_args_checked _ _ Hargs) as (outer & E & Hpad).
    split; [|split].
    + unfold RedeemerProgram_toIR. rewrite E. simpl. rewrite Hpad.
      reflexivity.
    + reflexivity.
    + apply IR_text_entry_point.
Qed.

Lemma entry_point_wrapper_witness :
  RedeemerProgram_toIR "  " "__module__m__main" ["ScriptContext"]
  = Ok (entry_point "  " "__module__m__main"
          [IRstr "_"; IRstr "ctx"] [IRstr "ctx"]).
Proof.
  apply (proj2 (entry_point_wrapper "  " "__module__m__main"
                  ["ScriptContext"] [Builtin BoolType None] true)).
  reflexivity.
Defined.

End Entry.

(** * The parameter interface *)

Module Params.
Import Types IRText Resolver.

(** [mainModule]: the first [MainModule] of the program. *)

Definition mainModule (p : Program) : Result Module :=
  match List.find snd (program_modules p) with
  | Some (m, _) => Ok m
  | None => Throw InternalError "MainModule not found"
  end.

(** [postModule]: the last module, unless it is a [MainModule]. *)

Definition postModule (p : Program) : option Module :=
  match List.last (List.map Some (program_modules p)) None with
  | Some (m, false) => Some m
  | _ => None
  end.

Definition mainAndPostStatements (p : Program) : Result (list Statement) :=
  let* main := mainModule p in
  match postModule p with
  | Some post => Ok (statements main ++ statements post)
  | None => Ok (statements main)
  end.

(** [allStatements]: every statement with the mark [isImport], which is
    false for the statements of a [MainModule] and of the last module. *)

Fixpoint allStatements_from (modules : list (Module * bool))
    : list (Statement * bool) :=
  match modules with
  | [] => []
  | (m, isMain) :: modules' =>
      let isImport :=
        negb (isMain || match modules' with [] => true | _ => false end) in
      List.map (fun s => (s, isImport)) (statements m)
      ++ allStatements_from modules'
  end.

Definition allStatements (p : Program) : list (Statement * bool) :=
  allStatements_from (program_modules p).

(** [paramTypes]: the object that maps the name of each [ConstStatement]
    of [mainAndPostStatements] to its type; a later statement of the same
    name replaces an earlier one. *)

Fixpoint const_types (stmts : list Statement) (res : list (string * Ty))
    : list (string * Ty) :=
  match stmts with
  | [] => res
  | ConstStatement name type :: stmts' =>
      const_types stmts'
        ((name, type)
         :: List.filter (fun kv => negb (String.eqb (fst kv) name)) res)
  | _ :: stmts' => const_types stmts' res
  end.

Definition paramTypes (p : Program) : Result (list (string * Ty)) :=
  let* stmts := mainAndPostStatements p in
  Ok (const_types stmts []).

(** [obj[name]] for an object given by its entries. *)

Fixpoint get {V : Type} (name : string) (obj : list (string * V)) : option V :=
  match obj with
  | [] => None
  | (k, v) :: obj' => if String.eqb k name then Some v else get name obj'
  end.

Section ParameterInterface.

(** The parts of the pipeline that the parameter interface calls and that
    are not its own: the value of a parameter ([HeliosData]), the IR of a
    statement ([statement.toIR(map)]), the completion of a definition
    table with the builtin definitions ([fetchRawFunctions],
    [injectTypeParameters]) and the evaluation of the definition of a
    constant by the IR program. *)

Variable Value : Type.
Variable statement_toIR : Statement -> IRDefinitions -> Result IRDefinitions.
Variable add_builtins : IRDefinitions -> Result IRDefinitions.
Variable evaluate : Statement -> IRDefinitions -> Result Value.

(** The condition [endCond] that [evalParam] passes to [fetchDefinitions].
    The loop stops as soon as the condition holds, so the variable
    [constStatement] of the closure is still [null] whenever the condition
    is evaluated, and its disjunct [s === constStatement] is false. *)

Definition is_requested_const (name : string) (s : Statement) (isImport : bool)
    : bool :=
  match s with
  | ConstStatement n _ => String.eqb n name && negb isImport
  | _ => false
  end.

(** The loop of [statementsToIR] (without compile-time parameters) under
    that condition; the second component is [constStatement]. *)

Fixpoint statementsToIR (name : string) (stmts : list (Statement * bool))
    (map : IRDefinitions) : Result (IRDefinitions * option Statement) :=
  match stmts with
  | [] => Ok (map, None)
  | (s, isImport) :: stmts' =>
      let* map' := statement_toIR s map in
      if is_requested_const name s isImport then Ok (map', Some s)
      else statementsToIR name stmts' map'
  end.

(** [fetchDefinitions] as called by [evalParam]. *)

Definition fetchDefinitions (name : string) (p : Program)
    : Result (IRDefinitions * option Statement) :=
  let* r := statementsToIR name (allStatements p) [] in
  let* map1 := injectMutualRecursions (fst r) in
  let* map2 := add_builtins map1 in
  Ok (map2, snd r).

(** [Program.evalParam]. *)

Definition evalParam (name : string) (p : Program) : Result Value :=
  let* r := fetchDefinitions name p in
  match snd r with
  | None => Throw InternalError ("param '" ++ name ++ "' not found")
  | Some constStatement => evaluate constStatement (fst r)
  end.

(** The [get] trap of the proxy returned by the getter [parameters]:
    [target] is the cache [this.#parameters], a plain object; the result
    comes with the new cache.  [name in target] holds for a name in the
    cache and for a name that every object inherits, for which
    [target[name]] is the property of [Object.prototype].  [assertDefined]
    throws a plain error with the message it is given. *)

Inductive Property : Type :=
| ParameterValue (value : Value)
| InheritedProperty (name : string).

Definition parameters_get (target : list (string * Value)) (p : Program)
    (name : string) : Result (Property * list (string * Value)) :=
  let* types := paramTypes p in
  match get name target with
  | Some value => Ok (ParameterValue value, target)
  | None =>
      if inherited name then Ok (InheritedProperty name, target)
      else
        match get name types with
        | None => Throw InternalError ("invalid param name '" ++ name ++ "'")
        | Some type =>
            let* value := evalParam name p in
            Ok (ParameterValue value, (name, value) :: target)
        end
  end.

(** No statement that [evalParam] looks at is a constant of that name. *)

Definition not_declared (name : string) (p : Program) : Prop :=
  Forall (fun si => is_requested_const name (fst si) (snd si) = false)
         (allStatements p).

Lemma statementsToIR_not_declared (name : string)
    (stmts : list (Statement * bool)) :
  Forall (fun si => is_requested_const name (fst si) (snd si) = false) stmts ->
  forall map r, statementsToIR name stmts map = Ok r -> snd r = None.
Proof.
  induction 1 as [|[s isImport] stmts Hs _ IH]; intros map r H; simpl in *.
  - injection H as <-. reflexivity.
  - apply bind_ok_inv in H as (map' & _ & H). rewrite Hs in H. eauto.
Qed.

(** What the read paths do for a name that is not a declared top-level
    constant.  The getter [parameters] returns the inherited property for
    a name that every object inherits, and for any other name fails with
    the plain error "invalid param name '<name>'"; [evalParam] fails with
    the plain error "param '<name>' not found" once the definitions are
    built (an error of building the definitions comes first). *)

Theorem undeclared_parameter_fails (name : string) (p : Program)
    (target : list (string * Value)) :
  (forall types,
     paramTypes p = Ok types -> get name types = None ->
     get name target = None ->
     parameters_get target p name
     = if inherited name then Ok (InheritedProperty name, target)
       else Throw InternalError ("invalid param name '" +:+ name +:+ "'")) /\
  (not_declared name p ->
     (forall defs, fetchDefinitions name p = Ok defs ->
        evalParam name p
        = Throw InternalError ("param '" +:+ name +:+ "' not found"))
     /\ (forall kind msg, fetchDefinitions name p = Throw kind msg ->
           evalParam name p = Throw kind msg)).
Proof.
  split.
  - intros types Htypes Hnone Hcache. unfold parameters_get.
    rewrite Htypes. simpl. rewrite Hcache, Hnone. reflexivity.
  - intros Hnot. split.
    + intros defs Hdefs. unfold evalParam. rewrite Hdefs. simpl.
      unfold fetchDefinitions in Hdefs.
      apply bind_ok_inv in Hdefs as (r & Hr & Hdefs).
      apply bind_ok_inv in Hdefs as (map1 & _ & Hdefs).
      apply bind_ok_inv in Hdefs as (map2 & _ & Hdefs).
      injection Hdefs as <-. simpl.
      rewrite (statementsToIR_not_declared _ _ Hnot _ _ Hr). reflexivity.
    + intros kind msg Hdefs. unfold evalParam. rewrite Hdefs. reflexivity.
Qed.

End ParameterInterface.

Lemma undeclared_parameter_fails_witness :
  parameters_get nat (fun _ map => Ok map) (fun map => Ok map)
    (fun _ _ => Ok 0) []
    (mkProgram TestingProgram
       [(mkModule "m" [ConstStatement "A" (Builtin IntType None);
                       FuncStatement "main" [] [Builtin BoolType None]], true)])
    "B"
  = Throw InternalError "invalid param name 'B'".
Proof.
  apply (proj1 (undeclared_parameter_fails nat
                  (fun _ map => Ok map) (fun map => Ok map) (fun _ _ => Ok 0)
                  "B" _ [])
           [("A", Builtin IntType None)]); reflexivity.
Defined.

End Params.

(** * IR of struct statements *)

Module Structs.
Import Types IRText Entry.

#[local] Arguments String.append _ _ : simpl nomatch.

(** A [DataField] with its evaluated type. *)

Record DataField : Type := mkDataField {
  field_name : string;
  field_type : Ty
}.

(** A struct statement: its path, its fields, whether the automatic method
    [copy] is used ([#usedAutoMethods.has("copy")]), and the entries that
    [this.#impl.toIR(map)] sets, in the order in which it sets them. *)

Record StructStatement : Type := mkStructStatement {
  path : string;
  fields : list DataField;
  usesCopy : bool;
  impl : list (string * IR)
}.

(** [f.type instanceof BoolType]. *)

Definition isBool (f : DataField) : bool :=
  match field_type f with
  | Builtin BoolType _ => true
  | _ => false
  end.

(** [`${this.path}__${f.name.toString()}`]. *)

Definition getter_key (s : StructStatement) (f : DataField) : string :=
  path s +:+ "__" +:+ field_name f.

Definition getterBaseName (isConstr : bool) : string :=
  if isConstr then "__helios__common__field"
  else "__helios__common__tuple_field".

(** The loop [for (let j = 0; j < i; j++)] that wraps [inner] in
    [__core__tailList(...)]. *)

Definition tailList (inner : IR) : IR :=
  IRlist [IRstr "__core__tailList("; inner; IRstr ")"].

(** The getter of field number [i] in [DataDefinition.toIR]. *)

Definition index_getter (isConstr : bool) (i : nat) (f : DataField) : IR :=
  if Nat.ltb i 20 then
    if isBool f then
      IRlist [IRstr "(self) "; IRstr "->"; IRstr " {";
              IRstr ("__helios__common__unBoolData(" +:+ getterBaseName isConstr
                     +:+ "_" +:+ nat_to_string i +:+ "(self))");
              IRstr "}"]
    else IRstr (getterBaseName isConstr +:+ "_" +:+ nat_to_string i)
  else
    let inner0 :=
      if isConstr then IRstr "__core__sndPair(__core__unConstrData(self))"
      else IRstr "__core__unListData(self)" in
    let inner1 :=
      IRlist [IRstr "__core__headList("; Nat.iter i tailList inner0; IRstr ")"] in
    let inner2 :=
      if isBool f
      then IRlist [IRstr "__helios__common__unBoolData("; inner1; IRstr ")"]
      else inner1 in
    IRlist [IRstr "(self) "; IRstr "->"; IRstr " {"; inner2; IRstr "}"].

(** [map.set] for a list of entries, from left to right. *)

Fixpoint set_all (entries : list (string * IR)) (map : IRDefinitions)
    : IRDefinitions :=
  match entries with
  | [] => map
  | (k, v) :: entries' => set_all entries' (map_set k v map)
  end.

Section StructToIR.

(** The definition of [copy] built by [copyToIR] from the getter names
    ([StructLiteralExpr] and [FuncArg] are in another file). *)

Variable copy_definition : StructStatement -> list string -> IR.

(** The loop of [DataDefinition.toIR] over the fields, from field number
    [i] on. *)

Fixpoint set_getters (s : StructStatement) (isConstr : bool) (i : nat)
    (fs : list DataField) (map : IRDefinitions) : IRDefinitions :=
  match fs with
  | [] => map
  | f :: fs' =>
      set_getters s isConstr (S i) fs'
        (map_set (getter_key s f) (index_getter isConstr i f) map)
  end.

Definition copy_key (s : StructStatement) : string := path s +:+ "__copy".

Definition DataDefinition_toIR (s : StructStatement) (isConstr : bool)
    (map : IRDefinitions) : IRDefinitions :=
  let map1 := set_getters s isConstr 0 (fields s) map in
  if usesCopy s then
    map_set (copy_key s)
      (copy_definition s (List.map (getter_key s) (fields s))) map1
  else map1.

(** [StructStatement.toIR]. *)

Definition StructStatement_toIR (s : StructStatement) (map : IRDefinitions)
    : IRDefinitions :=
  let map1 :=
    match fields s with
    | [f] =>
        if isBool f then
          map_set (getter_key s f) (IRstr "__helios__common__unBoolData") map
        else
          map_set (getter_key s f) (IRstr "__helios__common__identity") map
    | _ => DataDefinition_toIR s false map
    end in
  set_all (impl s) map1.

End StructToIR.

(** The text of an index-based getter on the list encoding: the primitive
    [__helios__common__tuple_field_i] for the first twenty fields, and
    beyond them the head of the [i]-th tail of the list. *)

Fixpoint repeat_string (n : nat) (s : string) : string :=
  match n with
  | 0 => ""
  | S n' => s +:+ repeat_string n' s
  end.



(** ** Lookups in the table after [toIR] *)

Lemma map_get_set_eq (k : string) (v : IR) (map : IRDefinitions) :
  map_get k (map_set k v map) = Some v.
Proof.
  induction map as [|[k' v'] map IH]; simpl.
  - rewrite String.eqb_refl. reflexivity.
  - destruct (String.eqb_spec k' k) as [->|Hne]; simpl.
    + rewrite String.eqb_refl. reflexivity.
    + destruct (String.eqb_spec k' k); [contradiction | exact IH].
Qed.

Lemma map_get_set_ne (k k' : string) (v : IR) (map : IRDefinitions) :
  k <> k' -> map_get k (map_set k' v map) = map_get k map.
Proof.
  intros Hne. induction map as [|[k0 v0] map IH]; simpl.
  - destruct (String.eqb_spec k' k); [congruence | reflexivity].
  - destruct (String.eqb_spec k0 k') as [->|Hne0]; simpl.
    + destruct (String.eqb_spec k' k); [congruence | reflexivity].
    + destruct (String.eqb_spec k0 k); [reflexivity | exact IH].
Qed.

Lemma map_get_set_all (k : string) (entries : list (string * IR)) :
  ~ In k (List.map fst entries) ->
  forall map, map_get k (set_all entries map) = map_get k map.
Proof.
  induction entries as [|[k' v] entries IH]; simpl; intros Hk map;
    [reflexivity|].
  rewrite IH by tauto. apply map_get_set_ne. intros ->. tauto.
Qed.

Lemma append_inv_head (a b c : string) : a +:+ b = a +:+ c -> b = c.
Proof.
  induction a as [|x a IH]; simpl; intros H; [exact H|].
  injection H as H. auto.
Qed.

Lemma getter_key_inj (s : StructStatement) (f f' : DataField) :
  getter_key s f = getter_key s f' -> field_name f = field_name f'.
Proof.
  unfold getter_key. intros H.
  apply append_inv_head in H. apply (append_inv_head "__") in H. exact H.
Qed.

Lemma map_get_set_getters_other (s : StructStatement) (isConstr : bool)
    (k : string) (fs : list DataField) :
  (forall f, In f fs -> getter_key s f <> k) ->
  forall i map,
    map_get k (set_getters s isConstr i fs map) = map_get k map.
Proof.
  induction fs as [|f fs IH]; simpl; intros Hk i map; [reflexivity|].
  rewrite IH by auto. apply map_get_set_ne. intros ->. eapply Hk; eauto.
Qed.

Lemma map_get_set_getters (s : StructStatement) (isConstr : bool)
    (fs : list DataField) :
  NoDup (List.map field_name fs) ->
  forall i map j f,
    fs !! j = Some f ->
    map_get (getter_key s f) (set_getters s isConstr i fs map)
    = Some (index_getter isConstr (i + j) f).
Proof.
  induction fs as [|f0 fs IH]; intros Hnd i map j f Hj; [discriminate|].
  simpl in Hnd. apply NoDup_cons in Hnd as [Hnin Hnd].
  destruct j as [|j]; simpl in Hj |- *.
  - injection Hj as ->. rewrite map_get_set_getters_other.
    + rewrite Nat.add_0_r. apply map_get_set_eq.
    + intros f' Hf' E. apply getter_key_inj in E. apply Hnin.
      rewrite <- E. apply list_elem_of_In. apply List.in_map. exact Hf'.
  - rewrite (IH Hnd (S i) _ j f Hj). f_equal. f_equal. lia.
Qed.

(** ** The text of the getters *)

Lemma repeat_string_snoc (n : nat) (c : ascii) :
  repeat_string n (String c "") +:+ String c ""
  = String c (repeat_string n (String c "")).
Proof.
  induction n as [|n IH]; simpl; [reflexivity|]. rewrite IH. reflexivity.
Qed.

Lemma IR_text_tailList (i : nat) (inner : IR) :
  IR_text (Nat.iter i tailList inner)
  = repeat_string i "__core__tailList(" +:+ IR_text inner
    +:+ repeat_string i ")".
Proof.
  induction i as [|i IH].
  - simpl. rewrite append_nil_r. reflexivity.
  - change (Nat.iter (S i) tailList inner)
      with (tailList (Nat.iter i tailList inner)).
    unfold tailList at 1. cbn [IR_text List.fold_right repeat_string].
    rewrite IH, append_nil_r, !append_assoc.
    rewrite (repeat_string_snoc i ")"%char). reflexivity.
Qed.


(** C9 (amended). For a struct statement with exactly one field the table
    binds the getter of the field to the identity function, or to the
    primitive that unwraps a boolean when the field has type [Bool]: the
    struct is its field.  A struct with another number of fields (and
    pairwise different field names) gets, for each field, the getter that
    takes the field by its index from the list encoding, when the field
    is not called [copy] while the automatic method [copy] is used.  Both
    hold when the impl block sets no definition under the key of the
    getter: the impl block writes its definitions after the getters. *)



End Structs.

(** * The result of a dependency resolution *)

Module Dependencies.
Import Types Resolver.

Section Result.
Variable modules : list Module.

(** A module found under its own name among the candidates. *)

Definition candidate (d : Module) : Prop :=
  find_module (name d) modules = Some d.

(** Each module of [l] comes after the modules it imports, [pre] being
    the modules that come before [l]. *)

Fixpoint ordered_from (pre l : list Module) : Prop :=
  match l with
  | [] => True
  | d :: l' =>
      (forall mn, imports d mn -> has_name mn pre = true)
      /\ ordered_from (pre ++ [d]) l'
  end.

Lemma has_name_app (mn : string) (l1 l2 : list Module) :
  has_name mn (l1 ++ l2) = has_name mn l1 || has_name mn l2.
Proof. unfold has_name. apply List.existsb_app. Qed.

Lemma ordered_from_incl (l : list Module) :
  forall pre pre',
    names_incl pre pre' -> ordered_from pre l -> ordered_from pre' l.
Proof.
  induction l as [|d l IH]; intros pre pre' Hincl H; simpl in *; [exact I|].
  destruct H as [Hd Hl]. split; [intros mn Hmn; apply Hincl, Hd, Hmn|].
  apply (IH (pre ++ [d])); [|exact Hl].
  intros n. rewrite !has_name_app, !orb_true_iff.
  intros [Hn|Hn]; [left; apply Hincl, Hn | right; exact Hn].
Qed.

Lemma ordered_from_app (l1 : list Module) :
  forall pre l2,
    ordered_from pre (l1 ++ l2)
    <-> ordered_from pre l1 /\ ordered_from (pre ++ l1) l2.
Proof.
  induction l1 as [|d l1 IH]; intros pre l2; simpl.
  - rewrite app_nil_r. tauto.
  - rewrite IH, <- app_assoc. simpl. tauto.
Qed.

Lemma ordered_from_filter (p : Module -> bool) (l : list Module) :
  forall pre,
    (forall x, In x l -> p x = false -> has_name (name x) pre = true) ->
    ordered_from pre l -> ordered_from pre (List.filter p l).
Proof.
  induction l as [|d l IH]; intros pre Hp H; simpl in *; [exact I|].
  destruct H as [Hd Hl].
  assert (Hl' : ordered_from (pre ++ [d]) (List.filter p l)).
  { apply IH; [|exact Hl]. intros x Hx Hpx.
    rewrite has_name_app, (Hp x (or_intror Hx) Hpx). reflexivity. }
  destruct (p d) eqn:Epd; simpl.
  - split; assumption.
  - eapply ordered_from_incl; [|exact Hl'].
    intros n. rewrite has_name_app, orb_true_iff.
    intros [Hn|Hn]; [exact Hn|].
    simpl in Hn. rewrite orb_false_r in Hn. apply String.eqb_eq in Hn.
    subst n. apply Hp; [left; reflexivity | exact Epd].
Qed.

Lemma ordered_from_split (l : list Module) :
  forall seen pre d post,
    ordered_from seen l -> l = pre ++ d :: post ->
    forall mn, imports d mn -> has_name mn (seen ++ pre) = true.
Proof.
  intros seen pre d post H -> mn Hmn.
  apply ordered_from_app in H as [_ H]. simpl in H. apply H, Hmn.
Qed.

Lemma NoDup_names_filter (p : Module -> bool) (l : list Module) :
  NoDup (List.map name l) -> NoDup (List.map name (List.filter p l)).
Proof.
  induction l as [|d l IH]; simpl; intros H; [exact H|].
  apply NoDup_cons in H as [Hnin Hnd].
  destruct (p d); simpl; [|auto].
  apply NoDup_cons. split; [|auto].
  intros Hin. apply Hnin.
  apply list_elem_of_In in Hin. apply list_elem_of_In.
  apply List.in_map_iff in Hin as (x & Hx & Hin).
  apply List.filter_In in Hin as [Hin _].
  apply List.in_map_iff. eauto.
Qed.

Lemma has_name_names (mn : string) (l : list Module) :
  has_name mn l = true <-> In mn (List.map name l).
Proof.
  rewrite has_name_In, List.in_map_iff. split; intros (d & H1 & H2); eauto.
Qed.

(** What holds of the dependencies gathered for [this] on [stack]. *)

Record gathered (this : Module) (stack deps : list Module) : Prop := {
  gathered_distinct : NoDup (List.map name deps);
  gathered_candidates : Forall candidate deps;
  gathered_fresh :
    Forall (fun d => name d <> name this /\ has_name (name d) stack = false)
           deps;
  gathered_ordered : ordered_from [] deps;
  gathered_reachable : Forall (tc (depends_on modules) this) deps
}.

Lemma gathered_nil (this : Module) (stack : list Module) :
  gathered this stack [].
Proof. split; simpl; auto; constructor. Qed.

Lemma walk_statements_gathered
    (recurse : Module -> option (Result (list Module)))
    (this : Module) (stack : list Module) :
  (forall m r, recurse m = Some (Ok r) ->
               gathered m (this :: stack) r
               /\ forall mn, imports m mn -> has_name mn r = true) ->
  forall stmts deps result,
    (forall s, In s stmts -> In s (statements this)) ->
    gathered this stack deps ->
    walk_statements recurse this modules stack stmts deps = Some (Ok result) ->
    gathered this stack result.
Proof.
  intros Hrec stmts.
  induction stmts as [|s stmts IH]; intros deps result Hsub Hdeps H;
    simpl in H.
  - injection H as <-. exact Hdeps.
  - assert (Hsub' : forall s', In s' stmts -> In s' (statements this))
      by (intros s' Hs'; apply Hsub; right; exact Hs').
    destruct (import_of s) as [mn|] eqn:Eimp; [|eapply IH; eassumption].
    destruct (String.eqb_spec mn (name this)) as [Eself|Eself]; [discriminate|].
    destruct (has_name mn stack) eqn:Estack; [discriminate|].
    destruct (has_name mn deps) eqn:Edeps; [eapply IH; eassumption|].
    destruct (find_module mn modules) as [m|] eqn:Efind; [|discriminate].
    destruct (recurse m) as [[r|kind msg]|] eqn:Erec; try discriminate.
    destruct (Hrec _ _ Erec) as [[Rd Rc Rf Ro Rr] Rcov].
    destruct (find_module_some _ _ _ Efind) as [Hin Hname].
    destruct Hdeps as [Dd Dc Df Do Dr].
    assert (Hdep : depends_on modules this m).
    { exists mn. split; [|exact Efind].
      exists s. split; [apply Hsub; left; reflexivity | exact Eimp]. }
    eapply IH; [exact Hsub' | | exact H].
    set (p := fun d : Module => negb (has_name (name d) deps)).
    assert (Hall : forall (P : Module -> Prop),
               Forall P deps -> Forall P r -> P m ->
               Forall P (deps ++ List.filter p (r ++ [m]))).
    { intros P H1 H2 H3. apply Forall_app. split; [exact H1|].
      apply Forall_list_filter. apply Forall_app. split; [exact H2|].
      constructor; [exact H3 | constructor]. }
    split.
    + rewrite List.map_app. apply NoDup_app. split; [exact Dd|]. split.
      * intros x Hx Hx'. apply list_elem_of_In in Hx, Hx'.
        apply List.in_map_iff in Hx' as (d & <- & Hd).
        apply List.filter_In in Hd as [_ Hd]. unfold p in Hd.
        apply negb_true_iff in Hd.
        apply has_name_names in Hx. congruence.
      * apply NoDup_names_filter. rewrite List.map_app. apply NoDup_app.
        split; [exact Rd|]. split; [|apply NoDup_singleton].
        intros x Hx Hx'. apply list_elem_of_In in Hx.
        simpl in Hx'. apply list_elem_of_singleton in Hx'. subst x.
        apply List.in_map_iff in Hx as (d & Hd & Hdin).
        rewrite List.Forall_forall in Rf. destruct (Rf _ Hdin) as [Hne _].
        exact (Hne Hd).
    + apply Hall; [exact Dc | exact Rc|]. unfold candidate.
      rewrite Hname. exact Efind.
    + apply Hall; [exact Df | |].
      * eapply Forall_impl; [exact Rf|]. intros d [_ Hd]. simpl in Hd.
        apply orb_false_iff in Hd as [Hd1 Hd2]. split; [|exact Hd2].
        intros E. rewrite E, String.eqb_refl in Hd1. discriminate.
      * rewrite Hname. auto.
    + apply ordered_from_app. split; [exact Do|]. simpl.
      apply ordered_from_filter.
      * intros x _ Hx. unfold p in Hx. apply negb_false_iff in Hx. exact Hx.
      * apply (ordered_from_incl _ []); [intros n Hn; discriminate Hn|].
        apply ordered_from_app. split; [exact Ro|]. simpl.
        split; [exact Rcov | exact I].
    + apply Hall; [exact Dr | |].
      * eapply Forall_impl; [exact Rr|]. intros d Hd.
        eapply tc_l; eassumption.
      * apply tc_once. exact Hdep.
Qed.

Lemma filterDependencies_upto_gathered (fuel : nat) :
  forall this stack deps,
    filterDependencies_upto fuel this modules stack = Some (Ok deps) ->
    gathered this stack deps.
Proof.
  induction fuel as [|fuel IH]; intros this stack deps H; [discriminate|].
  simpl in H. eapply walk_statements_gathered; [| |apply gathered_nil|exact H].
  - intros m r Hr. split; [apply IH; exact Hr|].
    intros mn Hmn.
    destruct (filterDependencies_upto_ok _ _ _ _ _ Hr) as [_ Hcov].
    apply Hcov. exact Hmn.
  - auto.
Qed.

Lemma filterDependencies_ok_upto (this : Module) (stack deps : list Module) :
  filterDependencies this modules stack = Ok deps ->
  filterDependencies_upto (S (length modules)) this modules stack
  = Some (Ok deps).
Proof.
  unfold filterDependencies.
  destruct (filterDependencies_upto _ this modules stack) as [r|];
    [intros ->; reflexivity | discriminate].
Qed.

Lemma filterDependencies_gathered (this : Module) (stack deps : list Module) :
  filterDependencies this modules stack = Ok deps ->
  gathered this stack deps
  /\ forall mn, imports this mn -> has_name mn deps = true.
Proof.
  intros H. apply filterDependencies_ok_upto in H. split.
  - eapply filterDependencies_upto_gathered. exact H.
  - intros mn Hmn.
    destruct (filterDependencies_upto_ok _ _ _ _ _ H) as [_ Hcov].
    apply Hcov. exact Hmn.
Qed.

(** The module of a name in a list of candidates is the candidate of that
    name. *)

Lemma has_name_candidate (mn : string) (b : Module) (l : list Module) :
  Forall candidate l -> has_name mn l = true ->
  find_module mn modules = Some b -> In b l.
Proof.
  intros Hc Hn Hb. apply has_name_In in Hn as (d & Hd & Hname).
  rewrite List.Forall_forall in Hc. specialize (Hc _ Hd).
  unfold candidate in Hc. rewrite Hname, Hb in Hc. injection Hc as ->.
  exact Hd.
Qed.

Lemma ordered_closed (deps : list Module) (d : Module) (mn : string) :
  ordered_from [] deps -> In d deps -> imports d mn ->
  has_name mn deps = true.
Proof.
  intros Ho Hd Hmn. apply List.in_split in Hd as (pre & post & E).
  pose proof (ordered_from_split deps [] pre d post Ho E mn Hmn) as H.
  simpl in H. rewrite E, has_name_app, H. reflexivity.
Qed.

End Result.

(** A resolution that returns gives modules of pairwise different names;
    each of them is the candidate found under its name, and none of them
    is the resolved module itself or has the name of a module on the
    stack. *)

Theorem filterDependencies_result_distinct
    (this : Module) (modules stack deps : list Module) :
  filterDependencies this modules stack = Ok deps ->
  NoDup (List.map name deps)
  /\ Forall (fun d => find_module (name d) modules = Some d
                      /\ name d <> name this
                      /\ has_name (name d) stack = false) deps.
Proof.
  intros H. apply filterDependencies_gathered in H as [[Dd Dc Df _ _] _].
  split; [exact Dd|].
  rewrite List.Forall_forall in *. intros d Hd.
  split; [apply Dc, Hd | apply Df, Hd].
Qed.

Lemma filterDependencies_result_distinct_witness :
  NoDup (List.map name [mkModule "b" []; mkModule "a" [ImportModuleStatement "b"]])
  /\ Forall (fun d =>
       find_module (name d)
         [mkModule "a" [ImportModuleStatement "b"]; mkModule "b" []] = Some d
       /\ name d <> "main" /\ has_name (name d) [] = false)
       [mkModule "b" []; mkModule "a" [ImportModuleStatement "b"]].
Proof.
  apply (filterDependencies_result_distinct
           (mkModule "main" [ImportModuleStatement "a";
                             ImportFromStatement "f" "f" "b"])
           [mkModule "a" [ImportModuleStatement "b"]; mkModule "b" []] []).
  reflexivity.
Defined.

(** A resolution that returns gives exactly the modules that can be
    reached from the resolved module through import statements. *)

Theorem filterDependencies_result_reachable
    (this : Module) (modules stack deps : list Module) :
  filterDependencies this modules stack = Ok deps ->
  forall d, In d deps <-> tc (depends_on modules) this d.
Proof.
  intros H. apply filterDependencies_gathered in H as [[_ Dc _ Do Dr] Hcov].
  intros d. split.
  - intros Hd. rewrite List.Forall_forall in Dr. apply Dr, Hd.
  - assert (Hstep : forall x y, x = this \/ In x deps ->
              depends_on modules x y -> In y deps).
    { intros x y Hx (mn & Hmn & Hfind).
      eapply has_name_candidate; [exact Dc | | exact Hfind].
      destruct Hx as [->|Hx]; [apply Hcov, Hmn|].
      eapply ordered_closed; eassumption. }
    intros Htc.
    assert (Hgen : forall x y, tc (depends_on modules) x y ->
              x = this \/ In x deps -> In y deps).
    { clear Htc. induction 1 as [x y Hxy|x y z Hxy _ IH]; intros Hx.
      - eapply Hstep; eassumption.
      - apply IH. right. eapply Hstep; eassumption. }
    eapply Hgen; [exact Htc | left; reflexivity].
Qed.

Lemma filterDependencies_result_reachable_witness :
  In (mkModule "b" [])
     [mkModule "b" []; mkModule "a" [ImportModuleStatement "b"]]
  <-> tc (depends_on [mkModule "a" [ImportModuleStatement "b"];
                      mkModule "b" []; mkModule "c" []])
         (mkModule "main" [ImportModuleStatement "a"]) (mkModule "b" []).
Proof.
  apply (filterDependencies_result_reachable
           (mkModule "main" [ImportModuleStatement "a"])
           [mkModule "a" [ImportModuleStatement "b"]; mkModule "b" [];
            mkModule "c" []] []).
  reflexivity.
Defined.

(** In the result of a resolution every module comes after the modules it
    imports. *)

Theorem filterDependencies_result_ordered
    (this : Module) (modules stack deps : list Module) :
  filterDependencies this modules stack = Ok deps ->
  (forall mn, imports this mn -> has_name mn deps = true)
  /\ forall pre d post,
       deps = pre ++ d :: post ->
       forall mn, imports d mn -> has_name mn pre = true.
Proof.
  intros H. apply filterDependencies_gathered in H as [[_ _ _ Do _] Hcov].
  split; [exact Hcov|].
  intros pre d post E mn Hmn.
  apply (ordered_from_split deps [] pre d post Do E mn Hmn).
Qed.

Lemma filterDependencies_result_ordered_witness :
  (forall mn,
     imports (mkModule "main" [ImportModuleStatement "a";
                               ImportModuleStatement "b"]) mn ->
     has_name mn [mkModule "b" []; mkModule "a" [ImportModuleStatement "b"]]
     = true)
  /\ forall pre d post,
       [mkModule "b" []; mkModule "a" [ImportModuleStatement "b"]]
       = pre ++ d :: post ->
       forall mn, imports d mn -> has_name mn pre = true.
Proof.
  apply (filterDependencies_result_ordered
           (mkModule "main" [ImportModuleStatement "a";
                             ImportModuleStatement "b"])
           [mkModule "a" [ImportModuleStatement "b"]; mkModule "b" []] []).
  reflexivity.
Defined.

End Dependencies.

(** * The modules of a new program *)

Module Layout.
Import Types Resolver Params Dependencies.

(** [mainImportedModules]: the modules before the first [MainModule]. *)

Fixpoint mainImportedModules_from (modules : list (Module * bool))
    : list Module :=
  match modules with
  | [] => []
  | (m, isMain) :: modules' =>
      if isMain then [] else m :: mainImportedModules_from modules'
  end.

Definition mainImportedModules (p : Program) : list Module :=
  mainImportedModules_from (program_modules p).

Definition imported (ms : list Module) : list (Module * bool) :=
  List.map (fun m => (m, false)) ms.

Definition post_list (post : option Module) : list (Module * bool) :=
  match post with Some q => [(q, false)] | None => [] end.

Definition post_statements (post : option Module) : list Statement :=
  match post with Some q => statements q | None => [] end.

Lemma find_main (ms : list Module) (main : Module)
    (rest : list (Module * bool)) :
  List.find snd (imported ms ++ (main, true) :: rest) = Some (main, true).
Proof. induction ms as [|m ms IH]; simpl; [reflexivity | exact IH]. Qed.

Lemma mainImportedModules_from_main (ms : list Module) (main : Module)
    (rest : list (Module * bool)) :
  mainImportedModules_from (imported ms ++ (main, true) :: rest) = ms.
Proof. induction ms as [|m ms IH]; simpl; [reflexivity | rewrite IH; reflexivity]. Qed.

Lemma last_Some_app {A : Type} (l : list A) (x : A) :
  List.last (List.map Some (l ++ [x])) None = Some x.
Proof.
  rewrite List.map_app. simpl. apply List.last_last.
Qed.

Lemma postModule_Some (ms ps : list Module) (main q : Module)
    (c : ProgramClass) :
  postModule
    (mkProgram c (imported ms ++ (main, true) :: imported ps ++ [(q, false)]))
  = Some q.
Proof.
  unfold postModule. simpl.
  replace (imported ms ++ (main, true) :: imported ps ++ [(q, false)])
    with ((imported ms ++ (main, true) :: imported ps) ++ [(q, false)])
    by (rewrite <- app_assoc; reflexivity).
  rewrite last_Some_app. reflexivity.
Qed.

Lemma postModule_None (ms : list Module) (main : Module) (c : ProgramClass) :
  postModule (mkProgram c (imported ms ++ [(main, true)])) = None.
Proof. unfold postModule. simpl. rewrite last_Some_app. reflexivity. Qed.

(** What [Program.new] has computed when it returns. *)

Lemma Program_new_ok (evalTypes : Program -> Result unit)
    (purpose : ScriptPurpose) (main : Module) (post : option Module)
    (parsed : list Module) (p : Program) :
  Program_new evalTypes purpose main post parsed = Ok p ->
  exists mainImports postImports,
    check_unique {[name main]} parsed = Ok tt
    /\ filterDependencies main parsed [] = Ok mainImports
    /\ match post with
       | None => postImports = []
       | Some q =>
           exists deps,
             filterDependencies q parsed [] = Ok deps
             /\ postImports
                = List.filter (fun m => negb (has_name (name m) mainImports))
                              deps
       end
    /\ program_modules p
       = imported mainImports ++ (main, true) :: imported postImports
         ++ post_list post.
Proof.
  unfold Program_new, parseImports. intros H.
  apply bind_ok_inv in H as (imports & Hi & H).
  apply bind_ok_inv in Hi as ([] & Hu & Hi). injection Hi as <-.
  apply bind_ok_inv in H as (mainImports & Hm & H).
  apply bind_ok_inv in H as (postImports & Hp & H).
  apply bind_ok_inv in H as (program & Hprog & H).
  apply bind_ok_inv in H as (u & _ & H). injection H as <-.
  exists mainImports, postImports.
  split; [exact Hu|]. split; [exact Hm|]. split.
  - destruct post as [q|].
    + apply bind_ok_inv in Hp as (deps & Hd & Hp). injection Hp as <-.
      exists deps. auto.
    + injection Hp as <-. reflexivity.
  - destruct purpose; try discriminate Hprog; injection Hprog as <-;
      destruct post; reflexivity.
Qed.

(** [Program.new] puts the dependencies of the main module first, then the
    main module, then the dependencies of the statements after [main] that
    are not there yet (the dependencies of the module of those
    statements, in their order, without the modules that have the name of
    a dependency of the main module; none when there is no such module),
    then the module of those statements; the getters of the program find
    the main module, the module after it and the modules before it in
    that list. *)

Theorem Program_new_layout (evalTypes : Program -> Result unit)
    (purpose : ScriptPurpose) (main : Module) (post : option Module)
    (parsed : list Module) (p : Program) :
  Program_new evalTypes purpose main post parsed = Ok p ->
  mainModule p = Ok main
  /\ postModule p = post
  /\ filterDependencies main parsed [] = Ok (mainImportedModules p)
  /\ mainAndPostStatements p = Ok (statements main ++ post_statements post)
  /\ exists postImports,
       List.map fst (program_modules p)
       = mainImportedModules p ++ main :: postImports
         ++ match post with Some q => [q] | None => [] end
       /\ match post with
          | None => postImports = []
          | Some q =>
              exists deps,
                filterDependencies q parsed [] = Ok deps
                /\ postImports
                   = List.filter
                       (fun m => negb (has_name (name m)
                                                (mainImportedModules p)))
                       deps
          end.
Proof.
  intros H.
  destruct (Program_new_ok _ _ _ _ _ _ H) as (mi & pi & _ & Hm & Hp & Hl).
  assert (Hmain : mainModule p = Ok main).
  { unfold mainModule. rewrite Hl, find_main. reflexivity. }
  assert (Hpost : postModule p = post).
  { destruct p as [c ms]. simpl in Hl. subst ms. destruct post as [q|].
    - apply postModule_Some.
    - subst pi. simpl. apply postModule_None. }
  assert (Hmi : mainImportedModules p = mi).
  { unfold mainImportedModules. rewrite Hl.
    apply mainImportedModules_from_main. }
  split; [exact Hmain|]. split; [exact Hpost|].
  split; [rewrite Hmi; exact Hm|]. split.
  - unfold mainAndPostStatements. rewrite Hmain, Hpost. simpl.
    destruct post; simpl; [|rewrite app_nil_r]; reflexivity.
  - exists pi. rewrite Hmi. split; [|exact Hp].
    rewrite Hl. rewrite List.map_app. simpl.
    rewrite List.map_app. unfold imported. rewrite !List.map_map. simpl.
    rewrite !List.map_id. destruct post; reflexivity.
Qed.

Lemma Program_new_layout_witness :
  mainModule
    (mkProgram SpendingProgram
       [(mkModule "util" [], false);
        (mkModule "m" [ImportModuleStatement "util";
                       FuncStatement "main" [] [Builtin BoolType None]], true);
        (mkModule "extra" [], false);
        (mkModule "m" [ImportModuleStatement "extra"], false)])
  = Ok (mkModule "m" [ImportModuleStatement "util";
                      FuncStatement "main" [] [Builtin BoolType None]])
  /\ postModule
       (mkProgram SpendingProgram
          [(mkModule "util" [], false);
           (mkModule "m" [ImportModuleStatement "util";
                          FuncStatement "main" [] [Builtin BoolType None]], true);
           (mkModule "extra" [], false);
           (mkModule "m" [ImportModuleStatement "extra"], false)])
     = Some (mkModule "m" [ImportModuleStatement "extra"]).
Proof.
  pose proof (Program_new_layout (fun _ => Ok tt) Spending
    (mkModule "m" [ImportModuleStatement "util";
                   FuncStatement "main" [] [Builtin BoolType None]])
    (Some (mkModule "m" [ImportModuleStatement "extra"]))
    [mkModule "extra" []; mkModule "util" []]
    (mkProgram SpendingProgram
       [(mkModule "util" [], false);
        (mkModule "m" [ImportModuleStatement "util";
                       FuncStatement "main" [] [Builtin BoolType None]], true);
        (mkModule "extra" [], false);
        (mkModule "m" [ImportModuleStatement "extra"], false)])
    eq_refl) as (H1 & H2 & _).
  split; [exact H1 | exact H2].
Defined.

Lemma check_unique_ok (mainName : string) (parsed : list Module) :
  check_unique {[mainName]} parsed = Ok tt ->
  NoDup (mainName :: List.map name parsed).
Proof.
  intros H.
  destruct (check_unique_spec parsed {[mainName]} [mainName]) as [_ H2].
  { intros n. rewrite elem_of_singleton. simpl. intuition. }
  { apply NoDup_singleton. }
  simpl in H2.
  destruct (decide (NoDup (mainName :: List.map name parsed))) as [Hnd|Hnd];
    [exact Hnd|].
  destruct (H2 Hnd) as (n & _ & E). rewrite E in H. discriminate.
Qed.

(** In the list of modules of a new program every module comes after the
    modules it imports, and apart from the module of the statements after
    [main], which has the name of the main module, no name comes twice. *)

Theorem Program_new_order (evalTypes : Program -> Result unit)
    (purpose : ScriptPurpose) (main : Module) (post : option Module)
    (parsed : list Module) (p : Program) :
  Program_new evalTypes purpose main post parsed = Ok p ->
  (forall pre m rest,
     List.map fst (program_modules p) = pre ++ m :: rest ->
     forall mn, imports m mn -> has_name mn pre = true)
  /\ NoDup (List.map name
              (match post with
               | Some _ => List.removelast (List.map fst (program_modules p))
               | None => List.map fst (program_modules p)
               end)).
Proof.
  intros H.
  destruct (Program_new_ok _ _ _ _ _ _ H) as (mi & pi & Hu & Hm & Hp & Hl).
  apply check_unique_ok in Hu.
  destruct (filterDependencies_gathered _ _ _ _ Hm) as [[Md Mc Mf Mo _] Mcov].
  assert (Hms : List.map fst (program_modules p)
                = (mi ++ main :: pi)
                  ++ match post with Some q => [q] | None => [] end).
  { rewrite Hl, List.map_app. simpl. rewrite List.map_app. unfold imported.
    rewrite !List.map_map. simpl. rewrite !List.map_id, <- app_assoc.
    destruct post; reflexivity. }
  (* the dependencies of the statements after main *)
  assert (Hpi : exists deps,
            pi = List.filter (fun m => negb (has_name (name m) mi)) deps
            /\ NoDup (List.map name deps)
            /\ Forall (candidate parsed) deps
            /\ ordered_from [] deps
            /\ match post with
               | Some q => forall mn, imports q mn -> has_name mn deps = true
               | None => True
               end).
  { destruct post as [q|].
    - destruct Hp as (deps & Hd & ->).
      destruct (filterDependencies_gathered _ _ _ _ Hd)
        as [[Dd Dc _ Do _] Dcov].
      exists deps. auto.
    - subst pi. exists []. repeat split; constructor. }
  destruct Hpi as (deps & Epi & Dd & Dc & Do & Dcov).
  assert (Hcover : forall mn, has_name mn deps = true ->
                     has_name mn (mi ++ main :: pi) = true).
  { intros mn Hmn. apply has_name_In in Hmn as (d & Hd & Hn).
    rewrite has_name_app. simpl.
    destruct (has_name (name d) mi) eqn:E.
    - rewrite <- Hn, E. reflexivity.
    - assert (Hin : In d pi).
      { rewrite Epi. apply List.filter_In. split; [exact Hd|].
        rewrite E. reflexivity. }
      assert (Hh : has_name mn pi = true)
        by (apply has_name_In; exists d; auto).
      rewrite Hh, !orb_true_r. reflexivity. }
  assert (Hord : ordered_from [] (List.map fst (program_modules p))).
  { rewrite Hms. apply ordered_from_app. split.
    - apply ordered_from_app. split; [exact Mo|]. simpl. split; [exact Mcov|].
      rewrite Epi. apply ordered_from_filter.
      + intros x _ Hx. apply negb_false_iff in Hx.
        rewrite has_name_app, Hx. reflexivity.
      + eapply ordered_from_incl; [|exact Do]. intros n Hn. discriminate Hn.
    - simpl. destruct post as [q|]; simpl; [|exact I].
      split; [|exact I]. intros mn Hmn. apply Hcover, Dcov, Hmn. }
  split.
  - intros pre m rest E mn Hmn.
    apply (ordered_from_split _ [] pre m rest Hord E mn Hmn).
  - assert (Hnd : NoDup (List.map name (mi ++ main :: pi))).
    { rewrite List.map_app. simpl. apply NoDup_app. split; [exact Md|].
      split.
      - intros x Hx Hx'. apply list_elem_of_In in Hx.
        apply elem_of_cons in Hx' as [->|Hx'].
        + apply List.in_map_iff in Hx as (d & Hd & Hin).
          rewrite List.Forall_forall in Mf. destruct (Mf _ Hin) as [Hne _].
          exact (Hne Hd).
        + apply list_elem_of_In in Hx'.
          apply List.in_map_iff in Hx' as (d & <- & Hd).
          rewrite Epi in Hd. apply List.filter_In in Hd as [_ Hd].
          apply negb_true_iff in Hd. apply has_name_names in Hx. congruence.
      - apply NoDup_cons. split.
        + intros Hin. apply list_elem_of_In in Hin.
          apply List.in_map_iff in Hin as (d & Hd & Hin).
          rewrite Epi in Hin. apply List.filter_In in Hin as [Hin _].
          rewrite List.Forall_forall in Dc. specialize (Dc _ Hin).
          apply find_module_some in Dc as [Hparsed _].
          apply NoDup_cons in Hu as [Hu _]. apply Hu.
          apply list_elem_of_In. rewrite <- Hd.
          apply List.in_map. exact Hparsed.
        + rewrite Epi. apply NoDup_names_filter. exact Dd. }
    rewrite Hms. destruct post as [q|].
    + rewrite List.removelast_last. exact Hnd.
    + rewrite app_nil_r. exact Hnd.
Qed.

Lemma Program_new_order_witness :
  (forall pre m rest,
     [mkModule "b" []; mkModule "a" [ImportModuleStatement "b"];
      mkModule "m" [ImportModuleStatement "a";
                    FuncStatement "main" [] [Builtin BoolType None]]]
     = pre ++ m :: rest ->
     forall mn, imports m mn -> has_name mn pre = true)
  /\ NoDup ["b"; "a"; "m"].
Proof.
  apply (Program_new_order (fun _ => Ok tt) Minting
    (mkModule "m" [ImportModuleStatement "a";
                   FuncStatement "main" [] [Builtin BoolType None]])
    None
    [mkModule "a" [ImportModuleStatement "b"]; mkModule "b" []]
    (mkProgram MintingProgram
       [(mkModule "b" [], false);
        (mkModule "a" [ImportModuleStatement "b"], false);
        (mkModule "m" [ImportModuleStatement "a";
                       FuncStatement "main" [] [Builtin BoolType None]], true)])).
  reflexivity.
Defined.

End Layout.

(** * The base-type relation as an order *)

Module TypeOrder.
Import Types.

(** Types in which no unresolved [ParamTypeRef] occurs. *)

Fixpoint resolved (t : Ty) : bool :=
  match t with
  | ParamTypeRef _ => false
  | ListType i => resolved i
  | MapType k v => resolved k && resolved v
  | OptionType s | OptionSomeType s | OptionNoneType s => resolved s
  | _ => true
  end.

Lemma Builtin_isBaseOf_trans (c1 c2 c3 : BuiltinClass) (p2 p3 : option Z) :
  Builtin_isBaseOf c1 (Builtin c2 p2) = true ->
  Builtin_isBaseOf c2 (Builtin c3 p3) = true ->
  Builtin_isBaseOf c1 (Builtin c3 p3) = true.
Proof.
  rewrite !Builtin_isBaseOf_cases.
  intros [->|H12] [->|H23]; auto.
  destruct (enum_members_leaf _ _ H12) as [Hnil _].
  rewrite Hnil in H23. destruct H23.
Qed.

Lemma prefix_trans (a b c : string) :
  String.prefix a b = true -> String.prefix b c = true ->
  String.prefix a c = true.
Proof.
  revert b c. induction a as [|x a IH]; intros [|y b] [|z c]; simpl;
    try congruence.
  destruct (ascii_dec x y) as [->|]; [|discriminate].
  destruct (ascii_dec y z) as [->|]; [|discriminate].
  destruct (ascii_dec z z); [|congruence]. apply IH.
Qed.

Lemma or_else_false (x : option bool) :
  or_else x (Some false) = Some true <-> x = Some true.
Proof. destruct x as [[|]|]; simpl; split; congruence. Qed.

Ltac some_bool :=
  repeat match goal with
         | H : Some _ = Some true |- _ => injection H as H
         | H : and_then _ _ = Some true |- _ =>
             apply and_then_true in H as [? ?]
         end.

Lemma isBaseOf_trans (a : Ty) :
  forall b c,
    isBaseOf a b = Some true -> isBaseOf b c = Some true ->
    isBaseOf a c = Some true.
Proof.
  induction a as
    [ | | | | n | n | p | c1 priv | i IHi | k IHk v IHv | s IHs | s IHs | s IHs ];
    intros b c Hab Hbc; try reflexivity; try discriminate Hab.
  - (* VoidType *)
    destruct b; simpl in Hab; try discriminate Hab;
      destruct c; simpl in Hbc; try discriminate Hbc; reflexivity.
  - (* ErrorType *)
    destruct b; simpl in Hab; try discriminate Hab;
      destruct c; simpl in Hbc; try discriminate Hbc; reflexivity.
  - (* TypeClassType *)
    destruct b; simpl in Hab; try discriminate Hab;
      destruct c; simpl in Hbc; try discriminate Hbc; simpl.
    some_bool. apply String.eqb_eq in Hab, Hbc. subst.
    rewrite String.eqb_refl. reflexivity.
  - (* StatementType *)
    destruct b; simpl in Hab; try discriminate Hab;
      destruct c; simpl in Hbc; try discriminate Hbc; simpl.
    some_bool. rewrite (prefix_trans _ _ _ Hab Hbc). reflexivity.
  - (* Builtin *)
    destruct b; simpl in Hab; try other_class.
    destruct c; simpl in Hbc; try other_class. simpl. some_bool.
    rewrite (Builtin_isBaseOf_trans _ _ _ _ _ Hab Hbc). reflexivity.
  - (* ListType *)
    destruct b; simpl in Hab; try discriminate Hab.
    destruct c; simpl in Hbc; try discriminate Hbc. simpl. eauto.
  - (* MapType *)
    destruct b; simpl in Hab; try discriminate Hab.
    destruct c; simpl in Hbc; try discriminate Hbc. simpl.
    some_bool. apply and_then_true. eauto.
  - (* OptionType *)
    destruct b; simpl in Hab; rewrite ?or_else_false in Hab;
      try discriminate Hab;
      destruct c; simpl in Hbc; rewrite ?or_else_false in Hbc;
      try discriminate Hbc; simpl; rewrite ?or_else_false; eauto.
  - (* OptionSomeType *)
    destruct b; simpl in Hab; try discriminate Hab;
      destruct c; simpl in Hbc; try discriminate Hbc; simpl; eauto.
  - (* OptionNoneType *)
    destruct b; simpl in Hab; try discriminate Hab;
      destruct c; simpl in Hbc; try discriminate Hbc; simpl; eauto.
Qed.

Lemma isBaseOf_refl (a : Ty) : resolved a = true -> isBaseOf a a = Some true.
Proof.
  induction a as
    [ | | | | n | n | p | c1 priv | i IHi | k IHk v IHv | s IHs | s IHs | s IHs ];
    simpl; intros H; try reflexivity; try discriminate H; auto.
  - rewrite String.eqb_refl. reflexivity.
  - rewrite prefix_refl. reflexivity.
  - f_equal. apply Builtin_isBaseOf_cases. left; reflexivity.
  - apply andb_true_iff in H as [Hk Hv]. apply and_then_true. auto.
Qed.

(** [isBaseOf] is a preorder: every type without an unresolved type
    parameter is a base type of itself, and a base type of a base type of
    [c] is a base type of [c]. *)

Theorem isBaseOf_preorder (a b c : Ty) :
  (resolved a = true -> isBaseOf a a = Some true)
  /\ (isBaseOf a b = Some true -> isBaseOf b c = Some true ->
      isBaseOf a c = Some true).
Proof. split; [apply isBaseOf_refl | apply isBaseOf_trans]. Qed.

Lemma isBaseOf_preorder_witness :
  isBaseOf (OptionType (Builtin CredentialType None))
           (OptionSomeType (Builtin CredentialPubKeyType None)) = Some true.
Proof.
  apply (proj2 (isBaseOf_preorder
                  (OptionType (Builtin CredentialType None))
                  (OptionType (Builtin CredentialPubKeyType None))
                  (OptionSomeType (Builtin CredentialPubKeyType None))));
    reflexivity.
Defined.

End TypeOrder.

(** * Inference as substitution *)

Module Substitution.
Import Types Inference.

(** The type parameters that occur in a type, and the type with each
    parameter replaced by its binding (a parameter without a binding is
    left as it is). *)

Fixpoint params (t : Ty) : list string :=
  match t with
  | ParamTypeRef n | TypeClassType n => [n]
  | ListType i => params i
  | MapType k v => params k ++ params v
  | OptionType s | OptionSomeType s | OptionNoneType s => params s
  | _ => []
  end.

Fixpoint subst (map : gmap string Ty) (t : Ty) : Ty :=
  match t with
  | ParamTypeRef n | TypeClassType n =>
      match map !! n with Some b => b | None => t end
  | ListType i => ListType (subst map i)
  | MapType k v => MapType (subst map k) (subst map v)
  | OptionType s => OptionType (subst map s)
  | OptionSomeType s => OptionSomeType (subst map s)
  | OptionNoneType s => OptionNoneType (subst map s)
  | _ => t
  end.

Definition bound (map : gmap string Ty) (names : list string) : Prop :=
  Forall (fun n => is_Some (map !! n)) names.

Definition subst_arg (map : gmap string Ty) (a : ArgType) : ArgType :=
  mkArgType (arg_name a) (subst map (arg_type a)) (arg_optional a).

Lemma bound_weaken (m1 m2 : gmap string Ty) (names : list string) :
  m1 ⊆ m2 -> bound m1 names -> bound m2 names.
Proof.
  intros Hsub Hb. eapply Forall_impl; [exact Hb|].
  intros n [b Hn]. exists b. eapply lookup_weaken; eassumption.
Qed.

Lemma subst_weaken (m1 m2 : gmap string Ty) (t : Ty) :
  m1 ⊆ m2 -> bound m1 (params t) -> subst m2 t = subst m1 t.
Proof.
  intros Hsub. unfold bound.
  induction t; simpl; intros Hb; try reflexivity.
  - apply Forall_cons in Hb as [[b Hb] _].
    rewrite Hb, (lookup_weaken _ _ _ _ Hb Hsub). reflexivity.
  - apply Forall_cons in Hb as [[b Hb] _].
    rewrite Hb, (lookup_weaken _ _ _ _ Hb Hsub). reflexivity.
  - rewrite IHt by exact Hb. reflexivity.
  - apply Forall_app in Hb as [Hk Hv].
    rewrite IHt1, IHt2 by assumption. reflexivity.
  - rewrite IHt by exact Hb. reflexivity.
  - rewrite IHt by exact Hb. reflexivity.
  - rewrite IHt by exact Hb. reflexivity.
Qed.

(** One step of inference returns the declared type under the bindings of
    the resulting map, in which every parameter of the type is bound. *)

Lemma ParamTypeRef_infer_subst (this : Ty) (n : string)
    (map : gmap string Ty) (type : option Ty) (r : Ty)
    (map' : gmap string Ty) :
  this = ParamTypeRef n \/ this = TypeClassType n ->
  ParamTypeRef_infer n map type = Ok (r, map') ->
  r = subst map' this /\ bound map' [n].
Proof.
  unfold ParamTypeRef_infer, toString_returns. intros Hthis H.
  destruct (map !! n) as [prev|] eqn:E.
  - destruct (printable prev); [|discriminate H]. injection H as <- <-.
    split; [destruct Hthis as [->| ->]; simpl; rewrite E; reflexivity|].
    constructor; [eauto | constructor].
  - destruct type as [t|]; [|discriminate]. injection H as <- <-.
    split; [destruct Hthis as [->| ->]; simpl; rewrite lookup_insert_eq;
            reflexivity|].
    constructor; [rewrite lookup_insert_eq; eauto | constructor].
Qed.

Lemma infer_subst (this : Ty) :
  forall (map : gmap string Ty) type r map',
    infer this map type = Ok (r, map') ->
    r = subst map' this /\ bound map' (params this).
Proof.
  induction this as
    [ | | | | n | n | p | c priv | i IHi | k IHk v IHv | s IHs | s IHs | s IHs ];
    intros map type r map' H; simpl in H;
    try (injection H as <- <-; split; [reflexivity | constructor]).
  - eapply ParamTypeRef_infer_subst; [left; reflexivity | exact H].
  - eapply ParamTypeRef_infer_subst; [right; reflexivity | exact H].
  - destruct type as [[]|]; try discriminate H;
      bind_inv H; destruct a as [t m]; injection H as <- <-; simpl.
    all: destruct (IHi _ _ _ _ Ha) as [-> Hb]; auto.
  - destruct type as [[]|]; try discriminate H;
      bind_inv H; destruct a as [t m]; bind_inv H; destruct a as [t' m'];
      injection H as <- <-; simpl in *.
    all: destruct (IHk _ _ _ _ Ha) as [-> Hbk];
      destruct (IHv _ _ _ _ Ha0) as [-> Hbv];
      pose proof (infer_extends _ _ _ _ _ Ha0) as Hsub;
      rewrite (subst_weaken _ _ _ Hsub Hbk);
      (split; [reflexivity|]);
      apply Forall_app; split; [eapply bound_weaken; eassumption | exact Hbv].
  - destruct type as [[]|]; try discriminate H;
      bind_inv H; destruct a as [t m]; injection H as <- <-; simpl.
    all: destruct (IHs _ _ _ _ Ha) as [-> Hb]; auto.
  - destruct type as [[]|]; try discriminate H;
      bind_inv H; destruct a as [t m]; injection H as <- <-; simpl.
    all: destruct (IHs _ _ _ _ Ha) as [-> Hb]; auto.
  - destruct type as [[]|]; try discriminate H;
      bind_inv H; destruct a as [t m]; injection H as <- <-; simpl.
    all: destruct (IHs _ _ _ _ Ha) as [-> Hb]; auto.
Qed.

(** Without a type to match against, inference only reads the map, and
    prints the binding of each parameter it meets. *)

Definition printable_bindings (map : gmap string Ty) (names : list string)
    : bool :=
  forallb (fun n => match map !! n with
                    | Some b => printable b
                    | None => false
                    end) names.

Lemma printable_bindings_app (map : gmap string Ty) (l1 l2 : list string) :
  printable_bindings map (l1 ++ l2)
  = printable_bindings map l1 && printable_bindings map l2.
Proof. apply List.forallb_app. Qed.

Lemma printable_bindings_bound (map : gmap string Ty) (names : list string) :
  printable_bindings map names = true -> bound map names.
Proof.
  unfold printable_bindings, bound. rewrite forallb_forall.
  intros H. apply List.Forall_forall. intros n Hn. specialize (H n Hn).
  destruct (map !! n); [eauto | discriminate].
Qed.

Lemma infer_null (this : Ty) (map : gmap string Ty) :
  bound map (params this) ->
  infer this map None
  = if printable_bindings map (params this) then Ok (subst map this, map)
    else Throw InternalError "not yet implemented".
Proof.
  unfold bound.
  induction this as
    [ | | | | n | n | p | c priv | i IHi | k IHk v IHv | s IHs | s IHs | s IHs ];
    simpl; intros Hb; try reflexivity.
  - apply Forall_cons in Hb as [[b Hb] _].
    unfold ParamTypeRef_infer, toString_returns. rewrite Hb.
    destruct (printable b); reflexivity.
  - apply Forall_cons in Hb as [[b Hb] _].
    unfold ParamTypeRef_infer, toString_returns. rewrite Hb.
    destruct (printable b); reflexivity.
  - rewrite IHi by exact Hb.
    destruct (printable_bindings map (params i)); reflexivity.
  - apply Forall_app in Hb as [Hk Hv]. rewrite printable_bindings_app.
    rewrite IHk by exact Hk.
    destruct (printable_bindings map (params k)); simpl; [|reflexivity].
    rewrite IHv by exact Hv.
    destruct (printable_bindings map (params v)); reflexivity.
  - rewrite IHs by exact Hb.
    destruct (printable_bindings map (params s)); reflexivity.
  - rewrite IHs by exact Hb.
    destruct (printable_bindings map (params s)); reflexivity.
  - rewrite IHs by exact Hb.
    destruct (printable_bindings map (params s)); reflexivity.
Qed.

Lemma infer_null_unbound (this : Ty) (map : gmap string Ty) (r : Ty)
    (map' : gmap string Ty) :
  infer this map None = Ok (r, map') ->
  printable_bindings map (params this) = true /\ map' = map.
Proof.
  revert r map'.
  induction this as
    [ | | | | n | n | p | c priv | i IHi | k IHk v IHv | s IHs | s IHs | s IHs ];
    intros r map' H; simpl in H;
    try (injection H as _ <-; split; reflexivity).
  - unfold ParamTypeRef_infer, toString_returns in H. simpl.
    destruct (map !! n) as [prev|] eqn:E; [|discriminate].
    destruct (printable prev); [|discriminate].
    injection H as _ <-. split; reflexivity.
  - unfold ParamTypeRef_infer, toString_returns in H. simpl.
    destruct (map !! n) as [prev|] eqn:E; [|discriminate].
    destruct (printable prev); [|discriminate].
    injection H as _ <-. split; reflexivity.
  - bind_inv H. destruct a as [t m]. injection H as _ <-. simpl. eauto.
  - bind_inv H. destruct a as [t m]. bind_inv H. destruct a as [t' m'].
    injection H as _ <-. simpl in *.
    destruct (IHk _ _ Ha) as [Hk ->]. destruct (IHv _ _ Ha0) as [Hv ->].
    rewrite printable_bindings_app, Hk, Hv. split; reflexivity.
  - bind_inv H. destruct a as [t m]. injection H as _ <-. simpl. eauto.
  - bind_inv H. destruct a as [t m]. injection H as _ <-. simpl. eauto.
  - bind_inv H. destruct a as [t m]. injection H as _ <-. simpl. eauto.
Qed.

(** Inference is substitution.  When [infer] returns, the type it returns
    is the declared type with every type parameter replaced by its binding
    in the map it leaves, and every parameter of the declared type is
    bound there.  Without a type to match against ([null]), [infer]
    returns exactly when every parameter of the declared type is bound to
    a type that has a text, and leaves the map as it is; when every
    parameter is bound and some binding has no text, it throws the plain
    error of printing that binding. *)

Theorem infer_is_substitution (this : Ty) (map : gmap string Ty)
    (type : option Ty) :
  (forall r map',
     infer this map type = Ok (r, map') ->
     r = subst map' this /\ bound map' (params this)) /\
  (printable_bindings map (params this) = true <->
   infer this map None = Ok (subst map this, map)) /\
  (bound map (params this) ->
   printable_bindings map (params this) = false ->
   infer this map None = Throw InternalError "not yet implemented") /\
  (forall r map', infer this map None = Ok (r, map') -> map' = map).
Proof.
  split; [apply infer_subst|]. split; [split|split].
  - intros Hp. rewrite infer_null by (apply printable_bindings_bound, Hp).
    rewrite Hp. reflexivity.
  - intros H. apply infer_null_unbound in H as [H _]. exact H.
  - intros Hb Hp. rewrite infer_null by exact Hb. rewrite Hp. reflexivity.
  - intros r map' H. apply infer_null_unbound in H as [_ H]. exact H.
Qed.

Lemma infer_is_substitution_witness :
  MapType (Builtin IntType None) (ListType (Builtin IntType None))
  = subst (<["a" := Builtin IntType None]> ∅)
          (MapType (ParamTypeRef "a") (ListType (ParamTypeRef "a")))
  /\ bound (<["a" := Builtin IntType None]> ∅)
           (params (MapType (ParamTypeRef "a") (ListType (ParamTypeRef "a")))).
Proof.
  apply (proj1 (infer_is_substitution
                  (MapType (ParamTypeRef "a") (ListType (ParamTypeRef "a")))
                  ∅
                  (Some (MapType (Builtin IntType None)
                                 (ListType (Builtin StringType None)))))).
  reflexivity.
Defined.

(** ** Argument lists *)

Definition arg_params (ats : list ArgType) : list string :=
  List.concat (List.map (fun a => params (arg_type a)) ats).

Definition ret_params (rts : list Ty) : list string :=
  List.concat (List.map params rts).

Lemma infer_args_subst (ats : list ArgType) :
  forall i types (map : gmap string Ty) r map',
    infer_args ats i types map = Ok (r, map') ->
    r = List.map (subst_arg map') ats /\ bound map' (arg_params ats).
Proof.
  induction ats as [|a ats IH]; intros i types map r map' H; simpl in H.
  - injection H as <- <-. split; [reflexivity | constructor].
  - bind_inv H. destruct a0 as [a' m1]. bind_inv H. destruct a0 as [rs m2].
    injection H as <- <-. simpl in *.
    unfold ArgType_infer in Ha. bind_inv Ha. destruct a0 as [t m0].
    injection Ha as <- <-. simpl in *.
    destruct (infer_subst _ _ _ _ _ Ha1) as [-> Hb].
    destruct (IH _ _ _ _ _ Ha0) as [-> Hbs].
    pose proof (infer_args_extends _ _ _ _ _ _ Ha0) as Hsub.
    split.
    + unfold subst_arg at 2. simpl.
      rewrite (subst_weaken _ _ _ Hsub Hb). reflexivity.
    + unfold arg_params. simpl. apply Forall_app. split; [|exact Hbs].
      eapply bound_weaken; eassumption.
Qed.

Lemma infer_rets_subst (rts : list Ty) :
  forall (map : gmap string Ty) r map',
    infer_rets rts map = Ok (r, map') ->
    r = List.map (subst map) rts /\ map' = map
    /\ bound map (ret_params rts).
Proof.
  induction rts as [|t rts IH]; intros map r map' H; simpl in H.
  - injection H as <- <-. split; [reflexivity|]. split; [reflexivity|].
    constructor.
  - bind_inv H. destruct a as [t' m1]. bind_inv H. destruct a as [rs m2].
    injection H as <- <-. simpl in *.
    destruct (infer_null_unbound _ _ _ _ Ha) as [Hp ->].
    pose proof (printable_bindings_bound _ _ Hp) as Hb.
    rewrite (infer_null _ _ Hb), Hp in Ha. injection Ha as <-.
    destruct (IH _ _ _ Ha0) as (-> & -> & Hbs).
    split; [reflexivity|]. split; [reflexivity|].
    unfold ret_params. simpl. apply Forall_app. auto.
Qed.

Lemma inferArgs_subst (fn : FuncType) (map : gmap string Ty)
    (types : list Ty) (fn' : FuncType) (map' : gmap string Ty) :
  inferArgs fn map types = Ok (fn', map') ->
  argTypes fn' = List.map (subst_arg map') (argTypes fn)
  /\ retTypes fn' = List.map (subst map') (retTypes fn)
  /\ bound map' (arg_params (argTypes fn) ++ ret_params (retTypes fn))
  /\ length types = length (argTypes fn).
Proof.
  unfold inferArgs. intros H.
  destruct (Nat.eqb_spec (length types) (length (argTypes fn))) as [Hlen|];
    [|discriminate H].
  bind_inv H. destruct a as [ats m1]. bind_inv H. destruct a as [rts m2].
  injection H as <- <-. simpl in *.
  destruct (infer_rets_subst _ _ _ _ Ha0) as (-> & -> & Hbr).
  destruct (infer_args_subst _ _ _ _ _ _ Ha) as [-> Hba].
  split; [reflexivity|]. split; [reflexivity|].
  split; [apply Forall_app; auto | exact Hlen].
Qed.

(** [inferArgs], when it returns, returns the declared function type with
    every type parameter replaced by its binding in the map it leaves; the
    bindings come from the arguments alone, so a return type can only
    mention parameters that some argument has bound. *)

Theorem inferArgs_is_substitution (fn : FuncType) (map : gmap string Ty)
    (types : list Ty) (fn' : FuncType) (map' : gmap string Ty) :
  inferArgs fn map types = Ok (fn', map') ->
  argTypes fn' = List.map (subst_arg map') (argTypes fn)
  /\ retTypes fn' = List.map (subst map') (retTypes fn)
  /\ bound map' (arg_params (argTypes fn) ++ ret_params (retTypes fn))
  /\ length types = length (argTypes fn).
Proof.
  exact (inferArgs_subst fn map types fn' map').
Qed.

Lemma inferArgs_is_substitution_witness :
  argTypes (mkFuncType [mkArgType None (ListType (Builtin IntType None)) false;
                        mkArgType (Some "x") (Builtin IntType None) true]
                       [OptionType (Builtin IntType None)])
  = List.map (subst_arg (<["a" := Builtin IntType None]> ∅))
      [mkArgType None (ListType (ParamTypeRef "a")) false;
       mkArgType (Some "x") (ParamTypeRef "a") true]
  /\ retTypes (mkFuncType [mkArgType None (ListType (Builtin IntType None)) false;
                           mkArgType (Some "x") (Builtin IntType None) true]
                          [OptionType (Builtin IntType None)])
     = List.map (subst (<["a" := Builtin IntType None]> ∅))
         [OptionType (ParamTypeRef "a")].
Proof.
  pose proof (inferArgs_is_substitution
    (mkFuncType [mkArgType None (ListType (ParamTypeRef "a")) false;
                 mkArgType (Some "x") (ParamTypeRef "a") true]
                [OptionType (ParamTypeRef "a")])
    ∅
    [ListType (Builtin IntType None); Builtin StringType None]
    (mkFuncType [mkArgType None (ListType (Builtin IntType None)) false;
                 mkArgType (Some "x") (Builtin IntType None) true]
                [OptionType (Builtin IntType None)])
    (<["a" := Builtin IntType None]> ∅) eq_refl) as (H1 & H2 & _).
  split; [exact H1 | exact H2].
Defined.

End Substitution.

(** * Generic functions *)

Module Parametric.
Import Types Inference Calls Substitution.

(** [FuncType.infer].  The type to match against is [null], a type that is
    not a function type, or a function type. *)

Inductive MatchType : Type :=
| NoType
| DataType (t : Ty)
| FunctionType (f : FuncType).

(** [this.#retTypes.map((rt, i) => rt.infer(site, map, type.retTypes[i]))],
    from index [i] on. *)

Fixpoint infer_rets_against (rts : list Ty) (i : nat) (types : list Ty)
    (map : gmap string Ty) : Result (list Ty * gmap string Ty) :=
  match rts with
  | [] => Ok ([], map)
  | t :: rts' =>
      let* r := infer t map (types !! i) in
      let* rs := infer_rets_against rts' (S i) types (snd r) in
      Ok (fst r :: fst rs, snd rs)
  end.

Definition FuncType_infer (this : FuncType) (map : gmap string Ty)
    (type : MatchType) : Result (FuncType * gmap string Ty) :=
  match type with
  | NoType =>
      let* a := infer_args (argTypes this) 0 [] map in
      let* r := infer_rets (retTypes this) (snd a) in
      Ok (mkFuncType (fst a) (fst r), snd r)
  | FunctionType g =>
      if Nat.eqb (length (argTypes g)) (length (argTypes this))
         && negb (Nat.eqb (length (retTypes g)) (length (retTypes this)))
      then
        let* a := infer_args (argTypes this) 0
                    (List.map arg_type (argTypes g)) map in
        let* r := infer_rets_against (retTypes this) 0 (retTypes g) (snd a) in
        Ok (mkFuncType (fst a) (fst r), snd r)
      else Throw TypeError "unable to infer type"
  | DataType _ => Throw TypeError "unable to infer type"
  end.

(** [a.getType(site)] for the instances of module [Calls]. *)

Definition getType (a : Instance) : Ty :=
  match a with
  | DataInstance t => t
  | VoidInstance => VoidType
  | ErrorInstance => ErrorType
  end.

(** *** [FuncType.infer] as substitution *)

Definition subst_func (map : gmap string Ty) (fn : FuncType) : FuncType :=
  mkFuncType (List.map (subst_arg map) (argTypes fn))
             (List.map (subst map) (retTypes fn)).

Definition func_params (fn : FuncType) : list string :=
  arg_params (argTypes fn) ++ ret_params (retTypes fn).

Lemma infer_rets_against_subst (rts : list Ty) :
  forall i types (map : gmap string Ty) r map',
    infer_rets_against rts i types map = Ok (r, map') ->
    r = List.map (subst map') rts /\ map ⊆ map'
    /\ bound map' (ret_params rts).
Proof.
  induction rts as [|t rts IH]; intros i types map r map' H; simpl in H.
  - injection H as <- <-. split; [reflexivity|]. split; [reflexivity|].
    constructor.
  - bind_inv H. destruct a as [t' m1]. bind_inv H. destruct a as [rs m2].
    injection H as <- <-. simpl in *.
    destruct (infer_subst _ _ _ _ _ Ha) as [-> Hb].
    destruct (IH _ _ _ _ _ Ha0) as (-> & Hsub & Hbs).
    split; [rewrite (subst_weaken _ _ _ Hsub Hb); reflexivity|].
    split; [etrans; [eapply infer_extends; exact Ha | exact Hsub]|].
    unfold ret_params. simpl. apply Forall_app. split; [|exact Hbs].
    eapply bound_weaken; eassumption.
Qed.

Lemma subst_args_weaken (m1 m2 : gmap string Ty) (ats : list ArgType) :
  m1 ⊆ m2 -> bound m1 (arg_params ats) ->
  List.map (subst_arg m2) ats = List.map (subst_arg m1) ats.
Proof.
  intros Hsub. unfold arg_params.
  induction ats as [|a ats IH]; simpl; intros Hb; [reflexivity|].
  apply Forall_app in Hb as [Ha Hats].
  unfold subst_arg at 1 3. rewrite (subst_weaken _ _ _ Hsub Ha), IH by exact Hats.
  reflexivity.
Qed.

(** [FuncType.infer], when it returns, returns the declared function type
    with every type parameter replaced by its binding in the map it
    leaves.  Against a function type it returns only when that type has
    as many arguments and a different number of return types: against a
    function type with as many return types as the declared type it
    raises the type error "unable to infer type". *)

Theorem FuncType_infer_is_substitution (this : FuncType)
    (map : gmap string Ty) (type : MatchType) :
  (forall fn' map',
     FuncType_infer this map type = Ok (fn', map') ->
     fn' = subst_func map' this /\ map ⊆ map'
     /\ bound map' (func_params this)) /\
  (forall g,
     type = FunctionType g ->
     length (retTypes g) = length (retTypes this) ->
     FuncType_infer this map type = Throw TypeError "unable to infer type").
Proof.
  split.
  - intros fn' map' H.
    assert (Hgen : forall a r m1,
              (exists i types, infer_args (argTypes this) i types map = Ok (a, m1)) ->
              List.map (subst map') (retTypes this) = r ->
              m1 ⊆ map' -> bound map' (ret_params (retTypes this)) ->
              mkFuncType a r = subst_func map' this /\ map ⊆ map'
              /\ bound map' (func_params this)).
    { intros a r m1 (i & types & Ha) Hr Hsub Hbr.
      destruct (infer_args_subst _ _ _ _ _ _ Ha) as [-> Hba].
      pose proof (infer_args_extends _ _ _ _ _ _ Ha) as Hsub0.
      split; [|split].
      - unfold subst_func. rewrite Hr.
        rewrite (subst_args_weaken _ _ _ Hsub Hba). reflexivity.
      - etrans; eassumption.
      - apply Forall_app. split; [eapply bound_weaken; eassumption | exact Hbr]. }
    destruct type as [|t|g]; simpl in H; [| discriminate |].
    + bind_inv H. destruct a as [ats m1]. bind_inv H. destruct a as [rts m2].
      injection H as <- <-. simpl in *.
      destruct (infer_rets_subst _ _ _ _ Ha0) as (-> & -> & Hbr).
      apply (Hgen ats _ m1); eauto.
    + destruct (_ && _); [|discriminate].
      bind_inv H. destruct a as [ats m1]. bind_inv H. destruct a as [rts m2].
      injection H as <- <-. simpl in *.
      destruct (infer_rets_against_subst _ _ _ _ _ _ Ha0) as (-> & Hsub & Hbr).
      apply (Hgen ats _ m1); eauto.
  - intros g -> Hlen. simpl. rewrite Hlen, Nat.eqb_refl, andb_false_r.
    reflexivity.
Qed.

Lemma FuncType_infer_is_substitution_witness :
  FuncType_infer
    (mkFuncType [mkArgType None (ParamTypeRef "a") false] [ParamTypeRef "a"])
    ∅
    (FunctionType
       (mkFuncType [mkArgType None (Builtin IntType None) false]
                   [Builtin IntType None]))
  = Throw TypeError "unable to infer type".
Proof.
  apply (proj2 (FuncType_infer_is_substitution
                  (mkFuncType [mkArgType None (ParamTypeRef "a") false]
                              [ParamTypeRef "a"])
                  ∅
                  (FunctionType
                     (mkFuncType [mkArgType None (Builtin IntType None) false]
                                 [Builtin IntType None])))
               (mkFuncType [mkArgType None (Builtin IntType None) false]
                           [Builtin IntType None]));
    reflexivity.
Defined.

Section ParametricInstance.

(** A type class and its test [isImplementedBy(type)], which compares the
    members of the type with the members that the class asks for. *)

Variable TypeClass : Type.
Variable isImplementedBy : TypeClass -> Ty -> bool.

Record TypeParameter : Type := mkTypeParameter {
  param_name : string;
  param_typeClass : option TypeClass
}.

(** [!p.typeClass?.isImplementedBy(types[i]) ?? true]: the negation is
    applied first, so the test fails for a parameter without a type
    class. *)

Definition typeclass_match_failed (p : TypeParameter) (t : Ty) : bool :=
  match param_typeClass p with
  | None => true
  | Some tc => negb (isImplementedBy tc t)
  end.

(** The loop [this.#params.forEach((p, i) => ...)] of [applyTypes], from
    index [i] on.  The test of the lengths before the loop makes the case
    of a missing [types[i]] unreachable. *)

Fixpoint bind_params (ps : list TypeParameter) (i : nat) (types : list Ty)
    (map : gmap string Ty) : Result (gmap string Ty) :=
  match ps with
  | [] => Ok map
  | p :: ps' =>
      match types !! i with
      | None => Throw InternalError "types[i] is undefined"
      | Some t =>
          if typeclass_match_failed p t then
            Throw TypeError "typeclass match failed"
          else bind_params ps' (S i) types (<[param_name p := t]> map)
      end
  end.

(** [ParametricInstance.applyTypes]; the result is the type of the
    function instance that is returned. *)

Definition applyTypes (ps : list TypeParameter) (fnType : FuncType)
    (types : list Ty) : Result FuncType :=
  if negb (Nat.eqb (length types) (length ps)) then
    Throw TypeError "wrong number of parameter type arguments"
  else
    let* map := bind_params ps 0 types ∅ in
    let* r := FuncType_infer fnType map NoType in
    Ok (fst r).

(** The loop of [call] that makes sure that each parameter is defined in
    the map, and gathers the types in [paramTypes]. *)

Fixpoint inferred_types (ps : list TypeParameter) (map : gmap string Ty)
    : Result (list Ty) :=
  match ps with
  | [] => Ok []
  | p :: ps' =>
      match map !! param_name p with
      | None =>
          Throw TypeError
            "failed to infer all type parameters (hint: apply directly using [...])"
      | Some pt =>
          let* pts := inferred_types ps' map in Ok (pt :: pts)
      end
  end.

(** [ParametricInstance.call]: the types of the returned instance, and the
    types pushed to [paramTypes]. *)

Definition call (ps : list TypeParameter) (fnType : FuncType)
    (args : list Instance) (namedArgs : list (string * Instance))
    : Result (list Ty * list Ty) :=
  let* r := inferArgs fnType ∅ (List.map getType args) in
  let* paramTypes := inferred_types ps (snd r) in
  let* rets := checkCall (fst r) args namedArgs in
  Ok (rets, paramTypes).

(** *** Facts *)

Lemma subst_ext (m1 m2 : gmap string Ty) (t : Ty) :
  Forall (fun n => m1 !! n = m2 !! n) (params t) -> subst m1 t = subst m2 t.
Proof.
  induction t; simpl; intros Hb; try reflexivity.
  - apply Forall_cons in Hb as [Hb _]. rewrite Hb. reflexivity.
  - apply Forall_cons in Hb as [Hb _]. rewrite Hb. reflexivity.
  - rewrite IHt by exact Hb. reflexivity.
  - apply Forall_app in Hb as [Hk Hv].
    rewrite IHt1, IHt2 by assumption. reflexivity.
  - rewrite IHt by exact Hb. reflexivity.
  - rewrite IHt by exact Hb. reflexivity.
  - rewrite IHt by exact Hb. reflexivity.
Qed.

Lemma subst_func_ext (m1 m2 : gmap string Ty) (fn : FuncType) :
  Forall (fun n => m1 !! n = m2 !! n) (func_params fn) ->
  subst_func m1 fn = subst_func m2 fn.
Proof.
  unfold func_params, subst_func. intros H.
  apply Forall_app in H as [Ha Hr]. f_equal.
  - unfold arg_params in Ha.
    induction (argTypes fn) as [|a ats IH]; simpl in *; [reflexivity|].
    apply Forall_app in Ha as [Ha Hats].
    unfold subst_arg at 1 3. rewrite (subst_ext _ _ _ Ha), IH by exact Hats.
    reflexivity.
  - unfold ret_params in Hr.
    induction (retTypes fn) as [|t rts IH]; simpl in *; [reflexivity|].
    apply Forall_app in Hr as [Ht Hrts].
    rewrite (subst_ext _ _ _ Ht), IH by exact Hrts. reflexivity.
Qed.

Lemma printable_bindings_ext (m1 m2 : gmap string Ty) (names : list string) :
  Forall (fun n => m1 !! n = m2 !! n) names ->
  printable_bindings m1 names = printable_bindings m2 names.
Proof.
  induction 1 as [|n names Hn _ IH]; simpl; [reflexivity|].
  rewrite Hn, IH. reflexivity.
Qed.

Lemma infer_args_null (ats : list ArgType) (map : gmap string Ty) :
  bound map (arg_params ats) ->
  forall i,
    infer_args ats i [] map
    = if printable_bindings map (arg_params ats)
      then Ok (List.map (subst_arg map) ats, map)
      else Throw InternalError "not yet implemented".
Proof.
  unfold arg_params.
  induction ats as [|a ats IH]; simpl; intros Hb i; [reflexivity|].
  apply Forall_app in Hb as [Ha Hats]. rewrite printable_bindings_app.
  unfold ArgType_infer.
  replace (@lookup nat Ty (list Ty) _ i []) with (@None Ty)
    by (destruct i; reflexivity).
  rewrite (infer_null _ _ Ha).
  destruct (printable_bindings map (params (arg_type a))); simpl;
    [|reflexivity].
  rewrite (IH Hats).
  destruct (printable_bindings map _); reflexivity.
Qed.

Lemma infer_rets_null (rts : list Ty) (map : gmap string Ty) :
  bound map (ret_params rts) ->
  infer_rets rts map
  = if printable_bindings map (ret_params rts)
    then Ok (List.map (subst map) rts, map)
    else Throw InternalError "not yet implemented".
Proof.
  unfold ret_params.
  induction rts as [|t rts IH]; simpl; intros Hb; [reflexivity|].
  apply Forall_app in Hb as [Ht Hrts]. rewrite printable_bindings_app.
  rewrite (infer_null _ _ Ht).
  destruct (printable_bindings map (params t)); simpl; [|reflexivity].
  rewrite (IH Hrts).
  destruct (printable_bindings map _); reflexivity.
Qed.

Lemma FuncType_infer_null (fn : FuncType) (map : gmap string Ty) :
  bound map (func_params fn) ->
  FuncType_infer fn map NoType
  = if printable_bindings map (func_params fn)
    then Ok (subst_func map fn, map)
    else Throw InternalError "not yet implemented".
Proof.
  unfold func_params. intros H. apply Forall_app in H as [Ha Hr].
  rewrite printable_bindings_app.
  simpl. rewrite (infer_args_null _ _ Ha).
  destruct (printable_bindings map (arg_params (argTypes fn))); simpl;
    [|reflexivity].
  rewrite (infer_rets_null _ _ Hr).
  destruct (printable_bindings map (ret_params (retTypes fn))); reflexivity.
Qed.

(** The binding that the loop of [applyTypes] leaves for a name: that of
    the last parameter of that name. *)

Fixpoint last_binding (n : string) (pts : list (TypeParameter * Ty))
    (start : option Ty) : option Ty :=
  match pts with
  | [] => start
  | (p, t) :: pts' =>
      last_binding n pts'
        (if String.eqb (param_name p) n then Some t else start)
  end.

Lemma bind_params_ok (ps : list TypeParameter) (types : list Ty) :
  forall i map,
    length (drop i types) = length ps ->
    Forall (fun pt => typeclass_match_failed (fst pt) (snd pt) = false)
           (combine ps (drop i types)) ->
    exists map',
      bind_params ps i types map = Ok map'
      /\ forall n,
           map' !! n = last_binding n (combine ps (drop i types)) (map !! n).
Proof.
  induction ps as [|p ps IH]; intros i map Hlen Hall; simpl.
  - exists map. split; [reflexivity|]. intros n. reflexivity.
  - destruct (types !! i) as [t|] eqn:Et.
    2:{ apply lookup_ge_None in Et. rewrite drop_ge in Hlen by exact Et.
        discriminate Hlen. }
    rewrite (drop_S _ _ _ Et) in Hlen, Hall |- *. simpl in Hlen, Hall.
    apply Forall_cons in Hall as [Hp Hall]. simpl in Hp. rewrite Hp.
    destruct (IH (S i) (<[param_name p := t]> map)) as (map' & E & Hmap');
      [lia | exact Hall|].
    exists map'. split; [exact E|]. intros n. rewrite Hmap'. simpl.
    destruct (String.eqb_spec (param_name p) n) as [->|Hne].
    + rewrite lookup_insert_eq. reflexivity.
    + rewrite lookup_insert_ne by exact Hne. reflexivity.
Qed.

Lemma inferred_types_ok (ps : list TypeParameter) (map : gmap string Ty)
    (pts : list Ty) :
  inferred_types ps map = Ok pts ->
  length pts = length ps
  /\ forall n start,
       In n (List.map param_name ps) ->
       last_binding n (combine ps pts) start = map !! n.
Proof.
  revert pts. induction ps as [|p ps IH]; intros pts H; simpl in H.
  - injection H as <-. split; [reflexivity|]. intros n start [].
  - destruct (map !! param_name p) as [pt|] eqn:E; [|discriminate].
    apply bind_ok_inv in H as (pts' & Hpts & H). injection H as <-.
    destruct (IH _ Hpts) as [Hlen Hlast].
    split; [simpl; lia|]. intros n start Hn. simpl.
    destruct (in_dec string_dec n (List.map param_name ps)) as [Hin|Hnin].
    + apply Hlast, Hin.
    + destruct Hn as [<-|Hn]; [|contradiction].
      rewrite String.eqb_refl.
      assert (Hkeep : forall s, last_binding (param_name p) (combine ps pts') s = s).
      { clear -Hnin. revert pts'.
        induction ps as [|q ps IH]; intros pts' s; simpl; [reflexivity|].
        destruct pts' as [|t pts']; [reflexivity|]. simpl.
        destruct (String.eqb_spec (param_name q) (param_name p)) as [E|_].
        - exfalso. apply Hnin. left. exact E.
        - apply IH. intros Hin. apply Hnin. right. exact Hin. }
      rewrite Hkeep. symmetry. exact E.
Qed.

(** Inferring the type parameters from the arguments of a call agrees
    with applying the inferred types directly, as far as the inferred
    types have a text.  When [call] returns, for a function type that
    mentions no other type parameters than the declared ones, [call] has
    checked the arguments against the declared type with every parameter
    replaced by the inferred type.  [applyTypes] on the types that [call]
    has gathered in [paramTypes] returns (as soon as its type class tests
    pass) that same function type when every type bound to a parameter of
    the function type has a text; otherwise it throws the plain error of
    printing the binding, because it infers every occurrence against the
    bindings, which prints them. *)

Theorem call_agrees_with_applyTypes (ps : list TypeParameter) (fnType : FuncType)
    (args : list Instance) (namedArgs : list (string * Instance))
    (rets paramTypes : list Ty) :
  call ps fnType args namedArgs = Ok (rets, paramTypes) ->
  Forall (fun n => In n (List.map param_name ps)) (func_params fnType) ->
  Forall (fun pt => typeclass_match_failed (fst pt) (snd pt) = false)
         (combine ps paramTypes) ->
  exists fn' map',
    inferArgs fnType ∅ (List.map getType args) = Ok (fn', map')
    /\ fn' = subst_func map' fnType
    /\ checkCall fn' args namedArgs = Ok rets
    /\ rets = retTypes fn'
    /\ applyTypes ps fnType paramTypes
       = if printable_bindings map' (func_params fnType) then Ok fn'
         else Throw InternalError "not yet implemented".
Proof.
  unfold call. intros H Hfree Htc.
  apply bind_ok_inv in H as ([fn1 m1] & Hinf & H). simpl in H.
  apply bind_ok_inv in H as (pts & Hpts & H).
  apply bind_ok_inv in H as (rs & Hcall & H). injection H as <- <-.
  destruct (inferred_types_ok _ _ _ Hpts) as [Hlen Hlast].
  destruct (inferArgs_subst _ _ _ _ _ Hinf) as (Ea & Er & Hb & _).
  assert (Hfn1 : fn1 = subst_func m1 fnType).
  { destruct fn1 as [ats rts]. simpl in Ea, Er. subst. reflexivity. }
  destruct (bind_params_ok ps pts 0 ∅) as (m2 & Hbind & Hm2).
  { rewrite drop_0. exact Hlen. }
  { rewrite drop_0. exact Htc. }
  rewrite drop_0 in Hm2.
  assert (Hagree : Forall (fun n => m2 !! n = m1 !! n) (func_params fnType)).
  { eapply Forall_impl; [exact Hfree|]. intros n Hn.
    rewrite Hm2. apply Hlast, Hn. }
  assert (Hb2 : bound m2 (func_params fnType)).
  { unfold bound, func_params in *. rewrite List.Forall_forall in *.
    intros n Hn. rewrite (Hagree n Hn). apply Hb, Hn. }
  exists fn1, m1. split; [|split; [|split; [|split]]].
  - exact Hinf.
  - exact Hfn1.
  - exact Hcall.
  - unfold checkCall in Hcall.
    apply bind_ok_inv in Hcall as (u1 & _ & Hcall).
    apply bind_ok_inv in Hcall as (u2 & _ & Hcall).
    apply bind_ok_inv in Hcall as (u3 & _ & Hcall).
    injection Hcall as <-. reflexivity.
  - unfold applyTypes. rewrite Hlen, Nat.eqb_refl. simpl.
    rewrite Hbind. simpl.
    pose proof (FuncType_infer_null _ _ Hb2) as E.
    rewrite (printable_bindings_ext _ _ _ Hagree) in E.
    unfold FuncType_infer in E. rewrite E.
    destruct (printable_bindings m1 (func_params fnType)); simpl;
      [|reflexivity].
    rewrite Hfn1. f_equal. apply subst_func_ext, Hagree.
Qed.

End ParametricInstance.

Lemma call_agrees_with_applyTypes_witness :
  exists fn' map',
    inferArgs
      (mkFuncType [mkArgType (Some "x") (ParamTypeRef "a") false;
                   mkArgType (Some "l") (ListType (ParamTypeRef "a")) false]
                  [OptionType (ParamTypeRef "a")])
      ∅
      (List.map getType
         [DataInstance (Builtin IntType None);
          DataInstance (ListType (Builtin IntType None))])
    = Ok (fn', map')
    /\ fn' = subst_func map'
               (mkFuncType [mkArgType (Some "x") (ParamTypeRef "a") false;
                            mkArgType (Some "l") (ListType (ParamTypeRef "a")) false]
                           [OptionType (ParamTypeRef "a")])
    /\ checkCall fn'
         [DataInstance (Builtin IntType None);
          DataInstance (ListType (Builtin IntType None))] []
       = Ok [OptionType (Builtin IntType None)]
    /\ [OptionType (Builtin IntType None)] = retTypes fn'
    /\ applyTypes unit (fun _ _ => true)
         [mkTypeParameter unit "a" (Some tt)]
         (mkFuncType [mkArgType (Some "x") (ParamTypeRef "a") false;
                      mkArgType (Some "l") (ListType (ParamTypeRef "a")) false]
                     [OptionType (ParamTypeRef "a")])
         [Builtin IntType None]
       = if printable_bindings map'
              (func_params
                 (mkFuncType
                    [mkArgType (Some "x") (ParamTypeRef "a") false;
                     mkArgType (Some "l") (ListType (ParamTypeRef "a")) false]
                    [OptionType (ParamTypeRef "a")]))
         then Ok fn' else Throw InternalError "not yet implemented".
Proof.
  apply (call_agrees_with_applyTypes unit (fun _ _ => true)
           [mkTypeParameter unit "a" (Some tt)]
           (mkFuncType [mkArgType (Some "x") (ParamTypeRef "a") false;
                        mkArgType (Some "l") (ListType (ParamTypeRef "a")) false]
                       [OptionType (ParamTypeRef "a")])
           [DataInstance (Builtin IntType None);
            DataInstance (ListType (Builtin IntType None))] []
           [OptionType (Builtin IntType None)] [Builtin IntType None]).
  - reflexivity.
  - repeat constructor.
  - repeat constructor.
Defined.

(** A call of [(a) -> Bool] with an argument of type [AnyDataType]
    returns, and the explicit application of the inferred type throws. *)

Example applyTypes_without_text :
  call unit [mkTypeParameter unit "a" (Some tt)]
    (mkFuncType [mkArgType None (ParamTypeRef "a") false]
                [Builtin BoolType None])
    [DataInstance AnyDataType] []
  = Ok ([Builtin BoolType None], [AnyDataType])
  /\ applyTypes unit (fun _ _ => true) [mkTypeParameter unit "a" (Some tt)]
       (mkFuncType [mkArgType None (ParamTypeRef "a") false]
                   [Builtin BoolType None])
       [AnyDataType]
     = Throw InternalError "not yet implemented".
Proof. split; reflexivity. Qed.

End Parametric.

(** * Function types as base types *)

Module FunctionTypes.
Import Types Inference Calls TypeOrder.

(** [ArgType.isBaseOf].  The name of [other] is compared as
    [other.#name?.toString() ?? ""]; the types are compared only when
    [this] has no name, and in the other direction. *)

Definition ArgType_isBaseOf (this other : ArgType) : option bool :=
  if arg_optional this && negb (arg_optional other) then Some false
  else
    match arg_name this with
    | Some n => Some (String.eqb n (ArgType_name other))
    | None => isBaseOf (arg_type other) (arg_type this)
    end.

(** The loop [for (let i = 0; i < this.nNonOptArgs; i++)] over
    [this.#argTypes[i]] and [other.#argTypes[i]]; [None] is a thrown
    error. *)

Fixpoint args_isBaseOf (n : nat) (ats ots : list ArgType) : option bool :=
  match n with
  | 0 => Some true
  | S n' =>
      match ats, ots with
      | a :: ats', o :: ots' =>
          and_then (ArgType_isBaseOf a o) (args_isBaseOf n' ats' ots')
      | _, _ => None
      end
  end.

(** The loop over the return types, which have the same number. *)

Fixpoint rets_isBaseOf (rts ots : list Ty) : option bool :=
  match rts, ots with
  | r :: rts', o :: ots' => and_then (isBaseOf r o) (rets_isBaseOf rts' ots')
  | _, _ => Some true
  end.

(** [FuncType.isBaseOf(other)] for a function type [other]. *)

Definition FuncType_isBaseOf (this other : FuncType) : option bool :=
  if negb (Nat.eqb (nNonOptArgs this) (nNonOptArgs other)) then Some false
  else
    and_then
      (args_isBaseOf (nNonOptArgs this) (argTypes this) (argTypes other))
      (if Nat.eqb (length (retTypes this)) (length (retTypes other))
       then rets_isBaseOf (retTypes this) (retTypes other)
       else Some false).

(** Argument lists without names and without default values, and
    instances that carry a data type. *)

Definition positional (fn : FuncType) : Prop :=
  Forall (fun a => arg_name a = None /\ arg_optional a = false) (argTypes fn).

Definition carries_type (v : Instance) : Prop :=
  match v with DataInstance _ => True | _ => False end.

Lemma positional_nNonOptArgs (fn : FuncType) :
  positional fn -> nNonOptArgs fn = length (argTypes fn).
Proof.
  unfold positional, nNonOptArgs, isOptional.
  induction (argTypes fn) as [|a ats IH]; simpl; intros H; [reflexivity|].
  apply Forall_cons in H as [[_ Ha] H]. rewrite Ha. simpl. rewrite IH by exact H.
  reflexivity.
Qed.

Lemma args_isBaseOf_positional (ats ots : list ArgType) :
  Forall (fun a => arg_name a = None /\ arg_optional a = false) ats ->
  length ots = length ats ->
  args_isBaseOf (length ats) ats ots = Some true ->
  Forall2 (fun a o => isBaseOf (arg_type o) (arg_type a) = Some true) ats ots.
Proof.
  revert ots. induction ats as [|a ats IH]; intros [|o ots] Hp Hlen H;
    simpl in *; try discriminate; [constructor|].
  apply Forall_cons in Hp as [[Hn Ho] Hp].
  apply and_then_true in H as [Ha H].
  unfold ArgType_isBaseOf in Ha. rewrite Hn, Ho in Ha. simpl in Ha.
  constructor; [exact Ha|]. apply IH; [exact Hp | lia | exact H].
Qed.

Lemma rets_isBaseOf_true (rts ots : list Ty) :
  length rts = length ots ->
  rets_isBaseOf rts ots = Some true ->
  Forall2 (fun r o => isBaseOf r o = Some true) rts ots.
Proof.
  revert ots. induction rts as [|r rts IH]; intros [|o ots] Hlen H;
    simpl in *; try discriminate; [constructor|].
  apply and_then_true in H as [Hr H].
  constructor; [exact Hr|]. apply IH; [lia | exact H].
Qed.

Lemma check_positional_base (posArgs : list Instance) :
  forall ats ots,
    Forall2 (fun a o => isBaseOf (arg_type o) (arg_type a) = Some true)
            ats ots ->
    Forall carries_type posArgs ->
    check_positional posArgs ats = Ok tt ->
    check_positional posArgs ots = Ok tt.
Proof.
  induction posArgs as [|v vs IH]; intros ats ots H2 Hd H; [reflexivity|].
  destruct H2 as [|a o ats ots Hao H2]; [discriminate H|].
  apply Forall_cons in Hd as [Hv Hd]. simpl in H |- *.
  apply bind_ok_inv in H as ([] & Hi & H).
  apply check_instance_ok in Hi.
  destruct v as [t| |]; try destruct Hv.
  assert (Ho : isInstanceOf (DataInstance t) (arg_type o) = Some true).
  { unfold isInstanceOf, Instance_isInstanceOf in *.
    eapply isBaseOf_trans; eassumption. }
  apply (check_instance_ok _ _ "unexpected type for positional arg") in Ho.
  rewrite Ho. simpl. eapply IH; eassumption.
Qed.

(** A function can stand in for a function of a base type.  For function
    types whose arguments have no names and no default values: when [f]
    is a base type of [g], every call with positional data arguments that
    [f] accepts is accepted by [g], and each type that [g] returns has
    the corresponding return type of [f] as a base type. *)

Theorem FuncType_isBaseOf_calls (f g : FuncType) (posArgs : list Instance)
    (rets : list Ty) :
  positional f -> positional g ->
  FuncType_isBaseOf f g = Some true ->
  Forall carries_type posArgs ->
  checkCall f posArgs [] = Ok rets ->
  checkCall g posArgs [] = Ok (retTypes g)
  /\ rets = retTypes f
  /\ Forall2 (fun r o => isBaseOf r o = Some true) (retTypes f) (retTypes g).
Proof.
  intros Hpf Hpg Hfg Hd Hcall.
  pose proof (positional_nNonOptArgs _ Hpf) as Hnf.
  pose proof (positional_nNonOptArgs _ Hpg) as Hng.
  unfold FuncType_isBaseOf in Hfg. rewrite Hnf, Hng in Hfg.
  destruct (Nat.eqb_spec (length (argTypes f)) (length (argTypes g)))
    as [Hlen|]; [|discriminate]. simpl in Hfg.
  apply and_then_true in Hfg as [Hargs Hrets].
  destruct (Nat.eqb_spec (length (retTypes f)) (length (retTypes g)))
    as [Hrlen|]; [|discriminate].
  apply args_isBaseOf_positional in Hargs; [|exact Hpf | lia].
  apply rets_isBaseOf_true in Hrets; [|exact Hrlen].
  unfold checkCall in Hcall |- *. rewrite Hnf in Hcall. rewrite Hng.
  apply bind_ok_inv in Hcall as ([] & Harity & Hcall).
  apply bind_ok_inv in Hcall as ([] & Hpos & Hcall).
  apply bind_ok_inv in Hcall as ([] & _ & Hcall). injection Hcall as <-.
  assert (Hn : length posArgs = length (argTypes f)).
  { destruct (Nat.ltb_spec (length posArgs) (length (argTypes f))) as [Hlt|Hge].
    - exfalso. rewrite firstn_all in Harity.
      unfold positional in Hpf.
      destruct (argTypes f) as [|a ats]; simpl in *; [lia|].
      apply Forall_cons in Hpf as [[Hname _] _].
      unfold isNamed in Harity. rewrite Hname in Harity. discriminate.
    - destruct (Nat.ltb_spec (length (argTypes f)) (length posArgs));
        [discriminate | lia]. }
  rewrite <- Hlen, Hn, Nat.ltb_irrefl. simpl.
  rewrite (check_positional_base _ _ _ Hargs Hd Hpos). simpl.
  split; [reflexivity|]. split; [reflexivity | exact Hrets].
Qed.

Lemma FuncType_isBaseOf_calls_witness :
  checkCall
    (mkFuncType [mkArgType None (Builtin CredentialType None) false]
                [Builtin BoolType None])
    [DataInstance (Builtin CredentialPubKeyType None)] []
  = Ok [Builtin BoolType None]
  /\ [Builtin BoolType None] = [Builtin BoolType None]
  /\ Forall2 (fun r o => isBaseOf r o = Some true)
       [Builtin BoolType None] [Builtin BoolType None].
Proof.
  apply (FuncType_isBaseOf_calls
           (mkFuncType [mkArgType None (Builtin CredentialPubKeyType None) false]
                       [Builtin BoolType None])
           (mkFuncType [mkArgType None (Builtin CredentialType None) false]
                       [Builtin BoolType None])
           [DataInstance (Builtin CredentialPubKeyType None)]
           [Builtin BoolType None]).
  - repeat constructor.
  - repeat constructor.
  - reflexivity.
  - repeat constructor.
  - reflexivity.
Defined.

End FunctionTypes.

(** * The argument lists that entry points accept *)

Module EntryContracts.
Import Types IRText Entry.

(** The deprecation warning "main with variable arguments" is given when
    no underscore is used and the number of arguments is not [n]. *)

Definition warns (n : nat) (argTypeNames : list string) : bool :=
  negb (haveUnderscores argTypeNames)
  && negb (Nat.eqb (length argTypeNames) n).

Definition returns_Bool (retTypes : list Ty) : Prop :=
  exists t, retTypes = [t] /\ Builtin_isBaseOf BoolType t = true.

Lemma check_retTypes_ok (retTypes : list Ty) :
  check_retTypes retTypes = Ok tt <-> returns_Bool retTypes.
Proof.
  unfold check_retTypes, returns_Bool. split.
  - destruct retTypes as [|t [|t' rest]]; try discriminate.
    destruct (Builtin_isBaseOf BoolType t) eqn:E;
      [|unfold toString_returns; destruct (printable t); discriminate].
    intros _. exists t. auto.
  - intros (t & -> & Ht). rewrite Ht. reflexivity.
Qed.

(** A minting or staking program is accepted exactly when [main] returns
    one value of type [Bool] and its argument type names are one of seven
    lists: [Redeemer] and [ScriptContext] in that order with either or
    both left out, or two arguments of which either or both are
    underscores, each type in its own position.  More than two arguments
    are a type error, and fewer than two arguments with an underscore
    among them fail the assertion "expected 2 arguments". *)

Theorem minting_staking_entry_contract (argTypeNames : list string)
    (retTypes : list Ty) (warned : bool) :
  (RedeemerProgram_evalTypesInternal argTypeNames retTypes = Ok warned <->
   In argTypeNames
     [[]; ["Redeemer"]; ["ScriptContext"]; ["Redeemer"; "ScriptContext"];
      [""; ""]; ["Redeemer"; ""]; [""; "ScriptContext"]]
   /\ returns_Bool retTypes
   /\ warned = warns 2 argTypeNames) /\
  (2 < length argTypeNames ->
   RedeemerProgram_evalTypesInternal argTypeNames retTypes
   = Throw TypeError "too many arguments for main") /\
  (haveUnderscores argTypeNames = true -> length argTypeNames < 2 ->
   RedeemerProgram_evalTypesInternal argTypeNames retTypes
   = Throw InternalError "expected 2 arguments").
Proof.
  split; [split|split].
  - intros H. unfold RedeemerProgram_evalTypesInternal in H.
    apply bind_ok_inv in H as (w & Hargs & H).
    apply bind_ok_inv in H as ([] & Hret & H). injection H as ->.
    pose proof (Redeemer_checked_names _ _ Hargs) as Hin.
    split; [exact Hin|]. split; [apply check_retTypes_ok; exact Hret|].
    repeat (destruct Hin as [<-|Hin];
            [vm_compute in Hargs; injection Hargs as <-; reflexivity|]).
    destruct Hin.
  - intros (Hin & Hret & ->). apply check_retTypes_ok in Hret.
    unfold RedeemerProgram_evalTypesInternal.
    assert (Hargs : Redeemer_check_main_args argTypeNames
                    = Ok (warns 2 argTypeNames)).
    { repeat (destruct Hin as [<-|Hin]; [reflexivity|]). destruct Hin. }
    rewrite Hargs. simpl. rewrite Hret. reflexivity.
  - intros Hlen. unfold RedeemerProgram_evalTypesInternal,
      Redeemer_check_main_args.
    destruct (Nat.ltb_spec 2 (length argTypeNames)); [reflexivity | lia].
  - intros Hu Hlen. unfold RedeemerProgram_evalTypesInternal,
      Redeemer_check_main_args.
    destruct (Nat.ltb_spec 2 (length argTypeNames)); [lia|].
    rewrite Hu. destruct (Nat.eqb_spec (length argTypeNames) 2); [lia|].
    reflexivity.
Qed.

Lemma minting_staking_entry_contract_witness :
  RedeemerProgram_evalTypesInternal [""; "Redeemer"] [Builtin BoolType None]
  = Throw TypeError "unexpected Redeemer type for arg 1 of main"
  /\ RedeemerProgram_evalTypesInternal
       ["Redeemer"; "ScriptContext"; ""] [Builtin BoolType None]
     = Throw TypeError "too many arguments for main".
Proof.
  split; [reflexivity|].
  apply (proj1 (proj2 (minting_staking_entry_contract
                         ["Redeemer"; "ScriptContext"; ""]
                         [Builtin BoolType None] false))).
  simpl. lia.
Defined.

(** A spending program is accepted exactly when [main] returns one value
    of type [Bool] and its argument type names are one of fifteen lists:
    [Datum], [Redeemer] and [ScriptContext] in that order with any of
    them left out, or three arguments of which some are underscores, each
    type in its own position.  The deprecation warning is given exactly
    for the lists of fewer than three arguments. *)

Theorem spending_accepted_arguments (argTypeNames : list string)
    (retTypes : list Ty) (warned : bool) :
  DatumRedeemerProgram_evalTypesInternal argTypeNames retTypes = Ok warned <->
  In argTypeNames
    [[]; ["Datum"]; ["Redeemer"]; ["ScriptContext"];
     ["Datum"; "Redeemer"]; ["Datum"; "ScriptContext"];
     ["Redeemer"; "ScriptContext"];
     ["Datum"; "Redeemer"; "ScriptContext"];
     [""; ""; ""]; ["Datum"; ""; ""]; [""; "Redeemer"; ""];
     [""; ""; "ScriptContext"]; ["Datum"; "Redeemer"; ""];
     ["Datum"; ""; "ScriptContext"]; [""; "Redeemer"; "ScriptContext"]]
  /\ returns_Bool retTypes
  /\ warned = warns 3 argTypeNames.
Proof.
  split.
  - intros H. unfold DatumRedeemerProgram_evalTypesInternal in H.
    apply bind_ok_inv in H as (w & Hargs & H).
    apply bind_ok_inv in H as ([] & Hret & H). injection H as ->.
    pose proof (DatumRedeemer_checked_names _ _ Hargs) as Hin.
    split; [exact Hin|]. split; [apply check_retTypes_ok; exact Hret|].
    repeat (destruct Hin as [<-|Hin];
            [vm_compute in Hargs; injection Hargs as <-; reflexivity|]).
    destruct Hin.
  - intros (Hin & Hret & ->). apply check_retTypes_ok in Hret.
    unfold DatumRedeemerProgram_evalTypesInternal.
    assert (Hargs : DatumRedeemer_check_main_args argTypeNames
                    = Ok (warns 3 argTypeNames)).
    { repeat (destruct Hin as [<-|Hin]; [reflexivity|]). destruct Hin. }
    rewrite Hargs. simpl. rewrite Hret. reflexivity.
Qed.

Lemma spending_accepted_arguments_witness :
  DatumRedeemerProgram_evalTypesInternal
    ["Datum"; ""; "ScriptContext"] [Builtin BoolType None] = Ok false.
Proof.
  apply (proj2 (spending_accepted_arguments
                  ["Datum"; ""; "ScriptContext"] [Builtin BoolType None] false)).
  split; [|split].
  - do 13 right. left. reflexivity.
  - exists (Builtin BoolType None). split; reflexivity.
  - reflexivity.
Defined.

End EntryContracts.

(** * The entry point of testing programs *)

Module Testing.
Import Types IRText Entry.

#[local] Arguments String.append _ _ : simpl nomatch.

(** [TestingProgram.evalTypes], after the modules have been evaluated:
    [main] can have any argument types and any return type. *)

Definition TestingProgram_evalTypes (retTypes : list Ty) : Result unit :=
  if Nat.ltb 1 (length retTypes) then
    Throw TypeError "program entry-point can only return one value"
  else Ok tt.

Section ToIR.
Variables TAB mainPath : string.

(** [`arg${i}`]. *)

Definition arg (i : nat) : string := "arg" +:+ nat_to_string i.

(** [this.mainFunc.argTypes.map((t, i) => ...)], from index [i] on. *)

Fixpoint innerArgs (i : nat) (argTypes : list Ty) : list IR :=
  match argTypes with
  | [] => []
  | t :: argTypes' =>
      (if Builtin_isBaseOf BoolType t
       then IRstr ("__helios__common__unBoolData(" +:+ arg i +:+ ")")
       else IRstr (arg i))
      :: innerArgs (S i) argTypes'
  end.

Fixpoint outerArgs (i : nat) (argTypes : list Ty) : list IR :=
  match argTypes with
  | [] => []
  | _ :: argTypes' => IRstr (arg i) :: outerArgs (S i) argTypes'
  end.

(** [TestingProgram.toIR], up to the call of [wrapEntryPoint]; [retType]
    is [this.mainFunc.retTypes[0]]. *)

Definition TestingProgram_toIR (argTypes : list Ty) (retType : Ty) : IR :=
  let ir :=
    IRlist [IRstr (mainPath +:+ "(" +:+ mainPath +:+ ")(");
            IR_join ", " (innerArgs 0 argTypes);
            IRstr ")"] in
  let ir :=
    if Builtin_isBaseOf BoolType retType
    then IRlist [IRstr "__helios__common__boolData("; ir; IRstr ")"]
    else ir in
  IRlist [IRstr (TAB +:+ "/*entry point*/" +:+ newline +:+ TAB +:+ "(");
          IR_join ", " (outerArgs 0 argTypes);
          IRstr (") -> {" +:+ newline +:+ TAB +:+ TAB);
          ir;
          IRstr (newline +:+ TAB +:+ "}")].

End ToIR.

(** The parameters of the wrapper and the arguments it passes to [main]. *)

Definition parameter_names (n : nat) : list string :=
  List.map arg (List.seq 0 n).

Definition passed_argument (i : nat) (t : Ty) : string :=
  if Builtin_isBaseOf BoolType t
  then "__helios__common__unBoolData(" +:+ arg i +:+ ")"
  else arg i.

Fixpoint passed_arguments (i : nat) (argTypes : list Ty) : list string :=
  match argTypes with
  | [] => []
  | t :: argTypes' => passed_argument i t :: passed_arguments (S i) argTypes'
  end.

Definition testing_wrapper_text (TAB mainPath : string) (argTypes : list Ty)
    (retType : Ty) : string :=
  TAB +:+ "/*entry point*/" +:+ newline +:+ TAB
  +:+ "(" +:+ join ", " (parameter_names (length argTypes))
  +:+ ") -> {" +:+ newline +:+ TAB +:+ TAB
  +:+ (if Builtin_isBaseOf BoolType retType
       then "__helios__common__boolData(" else "")
  +:+ mainPath +:+ "(" +:+ mainPath +:+ ")("
  +:+ join ", " (passed_arguments 0 argTypes) +:+ ")"
  +:+ (if Builtin_isBaseOf BoolType retType then ")" else "")
  +:+ newline +:+ TAB +:+ "}".

Lemma nat_to_string_inj (i j : nat) :
  nat_to_string i = nat_to_string j -> i = j.
Proof.
  unfold nat_to_string. intros H.
  assert (E : Some (Nat.to_uint i) = Some (Nat.to_uint j)).
  { rewrite <- !NilEmpty.usu. rewrite H. reflexivity. }
  injection E as E.
  rewrite <- (Unsigned.of_to i), <- (Unsigned.of_to j), E. reflexivity.
Qed.

Lemma arg_inj (i j : nat) : arg i = arg j -> i = j.
Proof.
  unfold arg. intros H. apply (Structs.append_inv_head "arg") in H.
  apply nat_to_string_inj, H.
Qed.

Lemma outerArgs_names (argTypes : list Ty) :
  forall i,
    outerArgs i argTypes
    = List.map IRstr (List.map arg (List.seq i (length argTypes))).
Proof.
  induction argTypes as [|t ts IH]; intros i; simpl; [reflexivity|].
  rewrite IH. reflexivity.
Qed.

Lemma innerArgs_passed (argTypes : list Ty) :
  forall i,
    innerArgs i argTypes = List.map IRstr (passed_arguments i argTypes).
Proof.
  induction argTypes as [|t ts IH]; intros i; simpl; [reflexivity|].
  rewrite IH. unfold passed_argument.
  destruct (Builtin_isBaseOf BoolType t); reflexivity.
Qed.

(** The entry point of a testing program is a function with one parameter
    per argument of [main], named [arg0], [arg1], ... (pairwise different
    names).  Its body applies [main] to itself and then to the
    parameters, each argument of type [Bool] being converted from data
    first; a result of type [Bool] is converted to data.  More than one
    return value is a type error. *)

Theorem testing_entry_point (TAB mainPath : string) (argTypes : list Ty)
    (retType : Ty) (retTypes : list Ty) :
  IR_text (TestingProgram_toIR TAB mainPath argTypes retType)
  = testing_wrapper_text TAB mainPath argTypes retType
  /\ length (parameter_names (length argTypes)) = length argTypes
  /\ NoDup (parameter_names (length argTypes))
  /\ length (passed_arguments 0 argTypes) = length argTypes
  /\ (TestingProgram_evalTypes retTypes = Ok tt <-> length retTypes <= 1).
Proof.
  split; [|split; [|split; [|split]]].
  - unfold TestingProgram_toIR, testing_wrapper_text, parameter_names.
    rewrite outerArgs_names, innerArgs_passed.
    destruct (Builtin_isBaseOf BoolType retType);
      cbn [IR_text foldr]; rewrite !IR_text_join;
      rewrite ?append_assoc, ?append_nil_r; reflexivity.
  - unfold parameter_names. rewrite List.length_map, List.length_seq.
    reflexivity.
  - unfold parameter_names. apply NoDup_fmap_2; [|apply NoDup_seq].
    intros i j. apply arg_inj.
  - generalize 0. induction argTypes as [|t ts IH]; intros i; simpl;
      [reflexivity|]. rewrite IH. reflexivity.
  - unfold TestingProgram_evalTypes.
    destruct (Nat.ltb_spec 1 (length retTypes)); split; intros; try lia;
      try reflexivity; discriminate.
Qed.

Lemma testing_entry_point_witness :
  TestingProgram_evalTypes [Builtin IntType None] = Ok tt.
Proof.
  apply (proj2 (proj2 (proj2 (proj2 (testing_entry_point
           "  " "__module__t__main" [Builtin BoolType None]
           (Builtin IntType None) [Builtin IntType None]))))).
  simpl. lia.
Defined.

Example testing_entry_point_text :
  IR_text (TestingProgram_toIR "" "m" [Builtin BoolType None; Builtin IntType None]
             (Builtin BoolType None))
  = "/*entry point*/" +:+ newline
    +:+ "(arg0, arg1) -> {" +:+ newline
    +:+ "__helios__common__boolData(m(m)(__helios__common__unBoolData(arg0), arg1))"
    +:+ newline +:+ "}".
Proof. reflexivity. Qed.

End Testing.

(** * Constants as parameters *)

Module Parameters.
Import Types IRText Resolver Params.

(** [s instanceof ConstStatement && s.name.value == name]. *)

Definition is_const_named (name : string) (s : Statement) : bool :=
  match s with
  | ConstStatement n _ => String.eqb n name
  | _ => false
  end.

(** ** [MainModule.mainFunc] *)

Fixpoint mainFunc_in (stmts : list Statement) : Result Statement :=
  match stmts with
  | [] =>
      Throw InternalError
        "'main' not found (is a module being used as an entrypoint?)"
  | s :: stmts' =>
      if String.eqb (statement_name s) "main" then
        match s with
        | FuncStatement _ _ _ => Ok s
        | _ => Throw TypeError "'main' isn't a function statement"
        end
      else mainFunc_in stmts'
  end.

Definition MainModule_mainFunc (m : Module) : Result Statement :=
  mainFunc_in (statements m).

(** [Program.mainFunc]. *)

Definition mainFunc (p : Program) : Result Statement :=
  let* m := mainModule p in
  MainModule_mainFunc m.

(** ** [ConstStatement.changeValueSafe] and [Program.changeParamSafe] *)

Section ChangeParam.

(** [UplcData] (uplc-data.js) with its getter [index], which gives the
    constructor index of constructor data and throws for other data. *)

Variable UplcData : Type.
Variable index : UplcData -> Result Z.

(** The value expressions that [changeValueSafe] builds. *)

Inductive ValueExpr : Type :=
| PrimitiveLiteralExpr (b : bool)
| LiteralDataExpr (type : Ty) (data : UplcData).

Definition changeValueSafe (type : Ty) (data : UplcData) : Result ValueExpr :=
  if Builtin_isBaseOf BoolType type then
    let* i := index data in
    Ok (PrimitiveLiteralExpr (Z.eqb i 1))
  else Ok (LiteralDataExpr type data).

(** The loop of [changeParamSafe] over [mainAndPostStatements], from
    position [i] on: the position of the statement that is changed, with
    its new value expression. *)

Fixpoint change_first (name : string) (data : UplcData)
    (stmts : list Statement) (i : nat) : option (Result (nat * ValueExpr)) :=
  match stmts with
  | [] => None
  | ConstStatement n type :: stmts' =>
      if String.eqb n name then
        Some (let* v := changeValueSafe type data in Ok (i, v))
      else change_first name data stmts' (S i)
  | _ :: stmts' => change_first name data stmts' (S i)
  end.

Definition changeParamSafe (name : string) (data : UplcData) (p : Program)
    : Result (nat * ValueExpr) :=
  let* stmts := mainAndPostStatements p in
  match change_first name data stmts 0 with
  | Some r => r
  | None =>
      let* main := mainFunc p in
      Throw ReferenceError ("param '" ++ name ++ "' not found")
  end.

(** *** Facts *)

Lemma get_filter_ne {V : Type} (name k : string) (res : list (string * V)) :
  k <> name ->
  get name (List.filter (fun kv => negb (String.eqb (fst kv) k)) res)
  = get name res.
Proof.
  intros Hne. induction res as [|[k' v] res IH]; simpl; [reflexivity|].
  destruct (String.eqb_spec k' k) as [->|Hk]; simpl.
  - destruct (String.eqb_spec k name); [contradiction | exact IH].
  - destruct (String.eqb_spec k' name); [reflexivity | exact IH].
Qed.

Lemma const_types_get_other (name : string) (stmts : list Statement) :
  Forall (fun s => is_const_named name s = false) stmts ->
  forall res, get name (const_types stmts res) = get name res.
Proof.
  induction 1 as [|s stmts Hs _ IH]; intros res; simpl; [reflexivity|].
  destruct s as [| | n type | |]; try apply IH.
  rewrite IH. simpl in Hs |- *. rewrite Hs.
  apply get_filter_ne. intros ->. rewrite String.eqb_refl in Hs. discriminate.
Qed.

Lemma const_types_get_last (name : string) (type : Ty)
    (pre post : list Statement) :
  Forall (fun s => is_const_named name s = false) post ->
  forall res,
    get name (const_types (pre ++ ConstStatement name type :: post) res)
    = Some type.
Proof.
  intros Hpost. induction pre as [|s pre IH]; intros res; simpl.
  - rewrite (const_types_get_other _ _ Hpost). simpl.
    rewrite String.eqb_refl. reflexivity.
  - destruct s; apply IH.
Qed.

Lemma change_first_none (name : string) (data : UplcData)
    (stmts : list Statement) :
  forall i,
    change_first name data stmts i = None
    <-> Forall (fun s => is_const_named name s = false) stmts.
Proof.
  induction stmts as [|s stmts IH]; intros i; simpl.
  - split; [constructor | reflexivity].
  - rewrite Forall_cons.
    destruct s as [| | n type | |]; simpl; rewrite ?IH; try tauto.
    destruct (String.eqb n name); [|rewrite IH; tauto].
    split; [discriminate | intros [? _]; discriminate].
Qed.

Lemma change_first_some (name : string) (data : UplcData)
    (pre post : list Statement) (type : Ty) :
  Forall (fun s => is_const_named name s = false) pre ->
  forall i,
    change_first name data (pre ++ ConstStatement name type :: post) i
    = Some (let* v := changeValueSafe type data in Ok (i + length pre, v)).
Proof.
  induction 1 as [|s pre Hs _ IH]; intros i; simpl.
  - rewrite String.eqb_refl, Nat.add_0_r. reflexivity.
  - rewrite Nat.add_succ_r.
    destruct s as [| | n t | |]; simpl in Hs; rewrite ?Hs, IH; reflexivity.
Qed.

(** The constants that can be changed are the constants that [paramTypes]
    lists.  For a name without an entry in [paramTypes] the change fails
    with the reference error "param ... not found" (when the program has
    a [main] function; otherwise with the error of looking for it).  For
    a name with an entry the statement that is changed is the first
    constant of that name, whereas the type that [paramTypes] gives is
    the type of the last one. *)

Theorem changeParamSafe_paramTypes (name : string) (data : UplcData)
    (p : Program) (stmts : list Statement) :
  mainAndPostStatements p = Ok stmts ->
  (Forall (fun s => is_const_named name s = false) stmts ->
   paramTypes p = Ok (const_types stmts [])
   /\ get name (const_types stmts []) = None
   /\ (forall main, mainFunc p = Ok main ->
         changeParamSafe name data p
         = Throw ReferenceError ("param '" +:+ name +:+ "' not found"))
   /\ (forall kind msg, mainFunc p = Throw kind msg ->
         changeParamSafe name data p = Throw kind msg)) /\
  (forall pre type post,
     stmts = pre ++ ConstStatement name type :: post ->
     (Forall (fun s => is_const_named name s = false) pre ->
      changeParamSafe name data p
      = let* v := changeValueSafe type data in Ok (length pre, v)) /\
     (Forall (fun s => is_const_named name s = false) post ->
      get name (const_types stmts []) = Some type)).
Proof.
  intros Hstmts. split.
  - intros Hnone. split; [|split; [|split]].
    + unfold paramTypes. rewrite Hstmts. reflexivity.
    + rewrite (const_types_get_other _ _ Hnone). reflexivity.
    + intros main Hmain. unfold changeParamSafe. rewrite Hstmts. simpl.
      rewrite (proj2 (change_first_none name data stmts 0) Hnone).
      rewrite Hmain. reflexivity.
    + intros kind msg Hmain. unfold changeParamSafe. rewrite Hstmts. simpl.
      rewrite (proj2 (change_first_none name data stmts 0) Hnone).
      rewrite Hmain. reflexivity.
  - intros pre type post ->. split.
    + intros Hpre. unfold changeParamSafe. rewrite Hstmts. simpl.
      rewrite (change_first_some name data pre post type Hpre 0). reflexivity.
    + intros Hpost. apply const_types_get_last. exact Hpost.
Qed.

End ChangeParam.

Lemma changeParamSafe_paramTypes_witness :
  changeParamSafe unit (fun _ => Ok 1%Z) "B" tt
    (mkProgram TestingProgram
       [(mkModule "m" [ConstStatement "A" (Builtin IntType None);
                       FuncStatement "main" [] [Builtin BoolType None]], true)])
  = Throw ReferenceError "param 'B' not found".
Proof.
  apply (proj1 (proj2 (proj2 (proj1
    (changeParamSafe_paramTypes unit (fun _ => Ok 1%Z) "B" tt
       (mkProgram TestingProgram
          [(mkModule "m" [ConstStatement "A" (Builtin IntType None);
                          FuncStatement "main" [] [Builtin BoolType None]],
            true)])
       [ConstStatement "A" (Builtin IntType None);
        FuncStatement "main" [] [Builtin BoolType None]]
       eq_refl)
    ltac:(repeat constructor))))
    (FuncStatement "main" [] [Builtin BoolType None])).
  reflexivity.
Defined.

(** [mainFunc] returns the first statement called [main] when that
    statement is a function; a statement of another kind called [main]
    before it is a type error, and a module without a statement called
    [main] is a plain error. *)

Theorem mainFunc_first_main (m : Module) :
  (forall s, MainModule_mainFunc m = Ok s ->
     exists pre post n argTypeNames retTypes,
       statements m = pre ++ s :: post
       /\ s = FuncStatement n argTypeNames retTypes /\ n = "main"
       /\ Forall (fun s' => statement_name s' <> "main") pre) /\
  (forall pre s post,
     statements m = pre ++ s :: post ->
     Forall (fun s' => statement_name s' <> "main") pre ->
     statement_name s = "main" ->
     (forall n a r, s <> FuncStatement n a r) ->
     MainModule_mainFunc m
     = Throw TypeError "'main' isn't a function statement") /\
  (Forall (fun s' => statement_name s' <> "main") (statements m) ->
   MainModule_mainFunc m
   = Throw InternalError
       "'main' not found (is a module being used as an entrypoint?)").
Proof.
  unfold MainModule_mainFunc. split; [|split].
  - induction (statements m) as [|s0 stmts IH]; intros s H; simpl in H;
      [discriminate|].
    destruct (String.eqb_spec (statement_name s0) "main") as [E|E].
    + destruct s0 as [| | | n a r |]; try discriminate H.
      injection H as <-. exists [], stmts, n, a, r.
      repeat split; [exact E | constructor].
    + destruct (IH _ H) as (pre & post & n & a & r & -> & Hs & Hn & Hpre).
      exists (s0 :: pre), post, n, a, r.
      repeat split; [exact Hs | exact Hn | constructor; assumption].
  - intros pre s post -> Hpre Hs Hnot.
    induction Hpre as [|s0 pre Hs0 _ IH]; simpl.
    + rewrite Hs, String.eqb_refl.
      destruct s; try reflexivity. exfalso. eapply Hnot. reflexivity.
    + destruct (String.eqb_spec (statement_name s0) "main");
        [contradiction | exact IH].
  - induction 1 as [|s0 stmts Hs0 _ IH]; simpl; [reflexivity|].
    destruct (String.eqb_spec (statement_name s0) "main");
      [contradiction | exact IH].
Qed.

Lemma mainFunc_first_main_witness :
  MainModule_mainFunc
    (mkModule "m" [ImportModuleStatement "util"; ConstStatement "main" (Builtin IntType None);
                   FuncStatement "main" [] [Builtin BoolType None]])
  = Throw TypeError "'main' isn't a function statement".
Proof.
  apply (proj1 (proj2 (mainFunc_first_main
           (mkModule "m" [ImportModuleStatement "util";
                          ConstStatement "main" (Builtin IntType None);
                          FuncStatement "main" [] [Builtin BoolType None]])))
           [ImportModuleStatement "util"]
           (ConstStatement "main" (Builtin IntType None))
           [FuncStatement "main" [] [Builtin BoolType None]]).
  - reflexivity.
  - repeat constructor. discriminate.
  - reflexivity.
  - discriminate.
Defined.

(** C8. The specification asks that requesting the value of an undeclared
    constant fail with a reference error that names the missing parameter.
    For the program with the single statement [main] and the undeclared
    name [B], both read paths throw a plain error: the getter [parameters]
    through [assertDefined], and [evalParam] through
    [throw new Error(...)], whereas the write path [changeParamSafe]
    raises the reference error, with the very message of [evalParam].
    For the undeclared name [toString], which every object inherits, the
    getter does not fail at all: it returns the inherited property. *)

Lemma undeclared_parameter_is_a_plain_error :
  parameters_get nat (fun _ map => Ok map) (fun map => Ok map)
    (fun _ _ => Ok 0) []
    (mkProgram TestingProgram
       [(mkModule "m" [FuncStatement "main" [] [Builtin BoolType None]],
         true)])
    "B"
  = Throw InternalError "invalid param name 'B'"
  /\ evalParam nat (fun _ map => Ok map) (fun map => Ok map)
       (fun _ _ => Ok 0) "B"
       (mkProgram TestingProgram
          [(mkModule "m" [FuncStatement "main" [] [Builtin BoolType None]],
            true)])
     = Throw InternalError "param 'B' not found"
  /\ changeParamSafe unit (fun _ => Ok 1%Z) "B" tt
       (mkProgram TestingProgram
          [(mkModule "m" [FuncStatement "main" [] [Builtin BoolType None]],
            true)])
     = Throw ReferenceError "param 'B' not found"
  /\ parameters_get nat (fun _ map => Ok map) (fun map => Ok map)
       (fun _ _ => Ok 0) []
       (mkProgram TestingProgram
          [(mkModule "m" [FuncStatement "main" [] [Builtin BoolType None]],
            true)])
       "toString"
     = Ok (InheritedProperty nat "toString", []).
Proof. split; [|split; [|split]]; reflexivity. Qed.

End Parameters.

(** * Constants as compile-time parameters *)

Module CompileParameters.
Import Types IRText Resolver Entry Params.

(** A statement of the program with the mark [isImport], its place in the
    statements of the main module when it is one of them (which tells
    whether two statements are the same object), and its path
    [`__module__${module}__${name}`]. *)

Record Located : Type := mkLocated {
  located_statement : Statement;
  located_isImport : bool;
  located_main : option nat;
  located_path : string
}.

Fixpoint locate (m : Module) (isImport inMain : bool) (j : nat)
    (stmts : list Statement) : list Located :=
  match stmts with
  | [] => []
  | s :: stmts' =>
      mkLocated s isImport (if inMain then Some j else None)
        ("__module__" +:+ name m +:+ "__" +:+ statement_name s)
      :: locate m isImport inMain (S j) stmts'
  end.

(** [allStatements]; [seenMain] tells whether a [MainModule] came before,
    [mainModule] being the first one. *)

Fixpoint allStatements_located (modules : list (Module * bool))
    (seenMain : bool) : list Located :=
  match modules with
  | [] => []
  | (m, isMain) :: modules' =>
      let isImport :=
        negb (isMain || match modules' with [] => true | _ => false end) in
      locate m isImport (isMain && negb seenMain) 0 (statements m)
      ++ allStatements_located modules' (seenMain || isMain)
  end.

(** [parameters.findIndex(p => statement.name.value == p)]. *)

Fixpoint findIndex_name (n : string) (parameters : list string) : option nat :=
  match parameters with
  | [] => None
  | p :: parameters' =>
      if String.eqb n p then Some 0
      else option_map S (findIndex_name n parameters')
  end.

(** The loop over [mainStatements] that fills [parameterStatements], [j]
    being the place of the first statement of [stmts]. *)

Fixpoint find_parameterStatements (parameters : list string)
    (stmts : list Statement) (j : nat)
    (parameterStatements : list (option nat)) : list (option nat) :=
  match stmts with
  | [] => parameterStatements
  | s :: stmts' =>
      find_parameterStatements parameters stmts' (S j)
        match s with
        | ConstStatement n _ =>
            match findIndex_name n parameters with
            | Some i => <[i := Some j]> parameterStatements
            | None => parameterStatements
            end
        | _ => parameterStatements
        end
  end.

(** [parameters.forEach((p, i) => ...)]: every parameter has a
    statement. *)

Fixpoint check_parameterStatements (parameters : list string)
    (parameterStatements : list (option nat)) : Result unit :=
  match parameters, parameterStatements with
  | [], _ => Ok tt
  | p :: parameters', Some _ :: parameterStatements' =>
      check_parameterStatements parameters' parameterStatements'
  | p :: _, _ =>
      Throw InternalError
        ("parameter " ++ p ++ " not found (hint: must come before main)")
  end.

(** The first part of [statementsToIR]: the constants of the main module
    that the parameters name. *)

Definition parameterStatements (parameters : list string) (p : Program)
    : Result (list (option nat)) :=
  match parameters with
  | [] => Ok []
  | _ :: _ =>
      let* main := mainModule p in
      let found :=
        find_parameterStatements parameters (statements main) 0
          (replicate (length parameters) None) in
      let* _ := check_parameterStatements parameters found in
      Ok found
  end.

(** [parameterStatements.findIndex(cs => cs === statement)]. *)

Fixpoint findIndex_statement (j : nat) (parameterStatements : list (option nat))
    : option nat :=
  match parameterStatements with
  | [] => None
  | cs :: rest =>
      if bool_decide (cs = Some j) then Some 0
      else option_map S (findIndex_statement j rest)
  end.

Section StatementsToIR.

(** [statement.toIR(map)] for the statement with the given path, and the
    condition [endCond]. *)

Variable statement_toIR :
  string -> Statement -> IRDefinitions -> Result IRDefinitions.
Variable endCond : Statement -> bool -> bool.

(** The parameter that a statement stands for, with the type of the
    statement. *)

Definition parameter_of (parameters : list string)
    (found : list (option nat)) (l : Located) : option (nat * Ty) :=
  match parameters, located_statement l, located_main l with
  | _ :: _, ConstStatement _ type, Some j =>
      option_map (fun i => (i, type)) (findIndex_statement j found)
  | _, _, _ => None
  end.

Definition parameter_IR (i : nat) (type : Ty) : IR :=
  let ir := IRstr ("__PARAM_" +:+ nat_to_string i) in
  if Builtin_isBaseOf BoolType type
  then IRlist [IRstr "__helios__common__unBoolData("; ir; IRstr ")"]
  else ir.

(** The loop over [allStatements]. *)

Fixpoint statementsToIR_loop (parameters : list string)
    (found : list (option nat)) (stmts : list Located) (map : IRDefinitions)
    : Result IRDefinitions :=
  match stmts with
  | [] => Ok map
  | l :: stmts' =>
      match parameter_of parameters found l with
      | Some (i, type) =>
          statementsToIR_loop parameters found stmts'
            (map_set (located_path l) (parameter_IR i type) map)
      | None =>
          let* map' :=
            statement_toIR (located_path l) (located_statement l) map in
          if endCond (located_statement l) (located_isImport l) then Ok map'
          else statementsToIR_loop parameters found stmts' map'
      end
  end.

(** [Program.statementsToIR]. *)

Definition statementsToIR (parameters : list string) (p : Program)
    : Result IRDefinitions :=
  let* found := parameterStatements parameters p in
  statementsToIR_loop parameters found
    (allStatements_located (program_modules p) false) [].

End StatementsToIR.

(** *** The statements of the parameters *)

Section Found.
Variable parameters : list string.

(** The entry of parameter [i] after the loop: the place of the last
    constant whose name is first found at [i]. *)

Definition names_parameter (i : nat) (s : Statement) : bool :=
  match s with
  | ConstStatement n _ =>
      bool_decide (findIndex_name n parameters = Some i)
  | _ => false
  end.

Fixpoint last_place (i : nat) (stmts : list Statement) (j : nat)
    (cur : option nat) : option nat :=
  match stmts with
  | [] => cur
  | s :: stmts' =>
      last_place i stmts' (S j) (if names_parameter i s then Some j else cur)
  end.

Lemma findIndex_name_lt (n : string) (i : nat) :
  findIndex_name n parameters = Some i -> i < length parameters.
Proof.
  revert i. induction parameters as [|p ps IH]; intros i; simpl;
    [discriminate|].
  destruct (String.eqb n p); [intros [= <-]; lia|].
  destruct (findIndex_name n ps) as [k|]; simpl; [|discriminate].
  intros [= <-]. specialize (IH k eq_refl). lia.
Qed.

Lemma findIndex_name_spec (n : string) (i : nat) :
  findIndex_name n parameters = Some i <->
  parameters !! i = Some n /\ forall k, k < i -> parameters !! k <> Some n.
Proof.
  revert i. induction parameters as [|p ps IH]; intros i; simpl.
  - split; [discriminate | intros [H _]; discriminate H].
  - destruct (String.eqb_spec n p) as [->|Hne].
    + split.
      * intros [= <-]. split; [reflexivity | intros k Hk; lia].
      * intros [Hi Hk]. destruct i as [|i]; [reflexivity|].
        exfalso. apply (Hk 0); [lia | reflexivity].
    + destruct i as [|i]; simpl.
      * split.
        -- destruct (findIndex_name n ps); discriminate.
        -- intros [[= ->] _]. contradiction.
      * specialize (IH i).
        destruct (findIndex_name n ps) as [k|]; simpl.
        -- split.
           ++ intros [= ->]. destruct (proj1 IH eq_refl) as [Hi Hk].
              split; [exact Hi|].
              intros [|k] Hlt; simpl; [congruence | apply Hk; lia].
           ++ intros [Hi Hk]. f_equal. f_equal.
              assert (E : Some k = Some i); [|congruence].
              apply IH. split; [exact Hi|].
              intros k' Hk'. apply (Hk (S k')). lia.
        -- split; [discriminate|]. intros [Hi Hk]. exfalso.
           assert (E : @None nat = Some i); [|discriminate E].
           apply IH. split; [exact Hi|].
           intros k' Hk'. apply (Hk (S k')). lia.
Qed.

Lemma find_parameterStatements_lookup (stmts : list Statement) :
  forall j found i,
    i < length found -> length found = length parameters ->
    find_parameterStatements parameters stmts j found !! i
    = Some (last_place i stmts j (default None (found !! i))).
Proof.
  induction stmts as [|s stmts IH]; intros j found i Hi Hlen; simpl.
  - destruct (lookup_lt_is_Some_2 found i Hi) as [x Hx]. rewrite Hx.
    reflexivity.
  - destruct s as [| | n type | |]; simpl; try (apply IH; assumption).
    destruct (findIndex_name n parameters) as [k|] eqn:Ek.
    + rewrite IH by (rewrite ?length_insert; assumption). f_equal. f_equal.
      destruct (decide (k = i)) as [->|Hne].
      * rewrite list_lookup_insert_eq by exact Hi.
        rewrite bool_decide_eq_true_2 by reflexivity. reflexivity.
      * rewrite list_lookup_insert_ne by exact Hne.
        rewrite bool_decide_eq_false_2 by congruence. reflexivity.
    + rewrite IH by assumption.
      rewrite bool_decide_eq_false_2 by congruence. reflexivity.
Qed.

Lemma last_place_some (i : nat) (stmts : list Statement) :
  forall j cur j',
    last_place i stmts j cur = Some j' ->
    cur = Some j'
    \/ exists k s, j' = j + k /\ stmts !! k = Some s
                   /\ names_parameter i s = true.
Proof.
  induction stmts as [|s stmts IH]; intros j cur j' H; simpl in H;
    [left; exact H|].
  destruct (IH _ _ _ H) as [Hc|(k & s' & -> & Hk & Hs)].
  - destruct (names_parameter i s) eqn:E; [|left; exact Hc].
    injection Hc as <-. right. exists 0, s.
    split; [lia|]. split; [reflexivity | exact E].
  - right. exists (S k), s'. split; [lia|]. split; assumption.
Qed.

Lemma last_place_is_Some (i : nat) (stmts : list Statement) :
  forall j cur,
    is_Some cur \/ (exists s, In s stmts /\ names_parameter i s = true) ->
    is_Some (last_place i stmts j cur).
Proof.
  induction stmts as [|s stmts IH]; intros j cur H; simpl.
  - destruct H as [H|(s & [] & _)]. exact H.
  - apply IH. destruct (names_parameter i s) eqn:E; [left; eauto|].
    destruct H as [H|(s' & [<-|Hin] & Hs')]; [left; exact H | congruence|].
    right. eauto.
Qed.

Lemma check_parameterStatements_ok (found : list (option nat)) :
  length found = length parameters ->
  check_parameterStatements parameters found = Ok tt
  <-> forall i, i < length parameters -> exists j, found !! i = Some (Some j).
Proof.
  revert found. induction parameters as [|p ps IH]; intros found Hlen; simpl.
  - split; [intros _ i Hi; lia | reflexivity].
  - destruct found as [|[j|] found]; simpl in Hlen; [discriminate| |].
    + rewrite IH by lia. split.
      * intros H [|i] Hi; simpl; [eauto|]. apply H. lia.
      * intros H i Hi. apply (H (S i)). lia.
    + split; [discriminate|]. intros H.
      destruct (H 0) as (j & Hj); [lia|]. discriminate Hj.
Qed.

End Found.

(** The statements of a program are made into definitions with
    parameters only when the parameters are pairwise different names of
    constants of the main module: [statementsToIR] with a parameter list
    that is not empty passes its first part exactly when that holds, and
    otherwise fails before any statement is looked at. *)

Theorem statementsToIR_parameters
    (statement_toIR : string -> Statement -> IRDefinitions -> Result IRDefinitions)
    (endCond : Statement -> bool -> bool)
    (parameters : list string) (p : Program) (main : Module) :
  parameters <> [] ->
  mainModule p = Ok main ->
  ((exists found, parameterStatements parameters p = Ok found) <->
   NoDup parameters
   /\ forall n, In n parameters ->
        exists type, In (ConstStatement n type) (statements main)) /\
  (forall map, statementsToIR statement_toIR endCond parameters p = Ok map ->
     exists found, parameterStatements parameters p = Ok found) /\
  (forall kind msg, parameterStatements parameters p = Throw kind msg ->
     statementsToIR statement_toIR endCond parameters p = Throw kind msg).
Proof.
  intros Hne Hmain.
  set (found := find_parameterStatements parameters (statements main) 0
                  (replicate (length parameters) None)).
  assert (Hlen : length found = length parameters).
  { unfold found. clear. generalize 0.
    assert (H : length (replicate (length parameters) (@None nat))
                = length parameters) by apply length_replicate.
    revert H. generalize (replicate (length parameters) (@None nat)).
    induction (statements main) as [|s stmts IH]; intros l Hl j; simpl;
      [exact Hl|].
    apply IH. destruct s; try exact Hl.
    destruct (findIndex_name _ _); [rewrite length_insert|]; exact Hl. }
  assert (Hfound : forall i, i < length parameters ->
            found !! i = Some (last_place parameters i (statements main) 0 None)).
  { intros i Hi. unfold found.
    rewrite find_parameterStatements_lookup
      by (rewrite ?length_replicate; auto).
    destruct (lookup_lt_is_Some_2 (replicate (length parameters) (@None nat)) i)
      as [x Hx]; [rewrite length_replicate; exact Hi|].
    rewrite Hx. apply lookup_replicate in Hx as [-> _]. reflexivity. }
  assert (Hphase : parameterStatements parameters p
                   = let* _ := check_parameterStatements parameters found in
                     Ok found).
  { unfold parameterStatements. destruct parameters; [contradiction|].
    rewrite Hmain. reflexivity. }
  split; [|split].
  - rewrite Hphase. split.
    + intros (f & Hf). apply bind_ok_inv in Hf as ([] & Hcheck & _).
      pose proof (proj1 (check_parameterStatements_ok parameters found Hlen)
                        Hcheck) as Hsome.
      clear Hcheck. rename Hsome into Hcheck.
      assert (Hfirst : forall i, i < length parameters ->
                exists n type, In (ConstStatement n type) (statements main)
                               /\ findIndex_name n parameters = Some i).
      { intros i Hi. destruct (Hcheck i Hi) as (j & Hj).
        rewrite (Hfound i Hi) in Hj. injection Hj as Hj.
        apply last_place_some in Hj as [Hj|(k & s & _ & Hk & Hs)];
          [discriminate|].
        destruct s as [| | n type | |]; try discriminate Hs.
        simpl in Hs. apply bool_decide_eq_true in Hs.
        exists n, type. split; [|exact Hs].
        apply list_elem_of_In, list_elem_of_lookup. eauto. }
      split.
      * apply NoDup_alt. intros i k x Hi Hk.
        destruct (Hfirst i (lookup_lt_Some _ _ _ Hi)) as (n & _ & _ & Hn).
        destruct (Hfirst k (lookup_lt_Some _ _ _ Hk)) as (n' & _ & _ & Hn').
        apply findIndex_name_spec in Hn as [Hn1 Hn2].
        apply findIndex_name_spec in Hn' as [Hn1' Hn2'].
        assert (n = x) by congruence. assert (n' = x) by congruence. subst.
        destruct (Nat.lt_trichotomy i k) as [Hlt|[->|Hlt]]; [|reflexivity|].
        -- exfalso. apply (Hn2' i Hlt). exact Hi.
        -- exfalso. apply (Hn2 k Hlt). exact Hk.
      * intros n Hn. apply list_elem_of_In, list_elem_of_lookup in Hn as (i & Hi).
        destruct (Hfirst i (lookup_lt_Some _ _ _ Hi)) as (n' & type & Hin & Hn').
        apply findIndex_name_spec in Hn' as [Hn1 _].
        assert (n' = n) by congruence. subst. eauto.
    + intros [Hnd Hall].
      assert (Hcheck : check_parameterStatements parameters found = Ok tt).
      { apply (check_parameterStatements_ok parameters found Hlen).
        intros i Hi.
        rewrite (Hfound i Hi).
        destruct (lookup_lt_is_Some_2 parameters i Hi) as [n Hn].
        destruct (Hall n) as (type & Hin).
        { apply list_elem_of_In, list_elem_of_lookup. eauto. }
        destruct (last_place_is_Some parameters i (statements main) 0 None)
          as [j Hj]; [|rewrite Hj; eauto].
        right. exists (ConstStatement n type). split; [exact Hin|].
        simpl. apply bool_decide_eq_true. apply findIndex_name_spec.
        split; [exact Hn|]. intros k Hk Hkn.
        rewrite NoDup_alt in Hnd. specialize (Hnd _ _ _ Hkn Hn). lia. }
      rewrite Hcheck. simpl. eauto.
  - intros map H. unfold statementsToIR in H.
    apply bind_ok_inv in H as (f & Hf & _). eauto.
  - intros kind msg H. unfold statementsToIR. rewrite H. reflexivity.
Qed.

Lemma statementsToIR_parameters_witness :
  statementsToIR (fun _ _ map => Ok map) (fun _ _ => false) ["A"; "A"]
    (mkProgram TestingProgram
       [(mkModule "m" [ConstStatement "A" (Builtin IntType None);
                       FuncStatement "main" [] [Builtin BoolType None]], true)])
  = Throw InternalError "parameter A not found (hint: must come before main)".
Proof.
  apply (proj2 (proj2 (statementsToIR_parameters
           (fun _ _ map => Ok map) (fun _ _ => false) ["A"; "A"]
           (mkProgram TestingProgram
              [(mkModule "m" [ConstStatement "A" (Builtin IntType None);
                              FuncStatement "main" [] [Builtin BoolType None]],
                true)])
           (mkModule "m" [ConstStatement "A" (Builtin IntType None);
                          FuncStatement "main" [] [Builtin BoolType None]])
           ltac:(discriminate) eq_refl))).
  reflexivity.
Defined.

End CompileParameters.

(** * Fields, enum members and user types *)

Module DataDefinitions.
Import Types IRText Entry Structs.

#[local] Arguments String.append _ _ : simpl nomatch.

(** ** Fields of a [DataDefinition] *)

(** [findField]: the index of the first field of that name; [None] is
    [-1]. *)

Fixpoint findField_from (fields : list DataField) (name : string) (i : nat)
    : option nat :=
  match fields with
  | [] => None
  | f :: fields' =>
      if String.eqb (field_name f) name then Some i
      else findField_from fields' name (S i)
  end.

Definition findField (fields : list DataField) (name : string) : option nat :=
  findField_from fields name 0.

Definition hasField (fields : list DataField) (name : string) : bool :=
  match findField fields name with Some _ => true | None => false end.

Definition hasMember (fields : list DataField) (name : string) : bool :=
  hasField fields name || String.eqb name "copy".

Definition nFields (fields : list DataField) : nat := length fields.

(** [getFieldIndex]; [toString] is the text of the definition, which the
    message shows. *)

Definition getFieldIndex (toString : string) (fields : list DataField)
    (name : string) : Result nat :=
  match findField fields name with
  | None =>
      Throw TypeError ("field " ++ name ++ " not find in " ++ toString)
  | Some i => Ok i
  end.

(** [getFieldName(i)] and [getFieldType(site, i)] read [this.#fields[i]];
    [None] is the error of reading a property of [undefined]. *)

Definition getFieldName (fields : list DataField) (i : nat) : option string :=
  field_name <$> fields !! i.

Definition getFieldType (fields : list DataField) (i : nat) : option Ty :=
  field_type <$> fields !! i.

Lemma findField_from_spec (fields : list DataField) (name : string) :
  forall i0 i,
    findField_from fields name i0 = Some i <->
    exists k f,
      i = i0 + k /\ fields !! k = Some f /\ field_name f = name
      /\ forall k' f', k' < k -> fields !! k' = Some f' ->
                       field_name f' <> name.
Proof.
  induction fields as [|f0 fields IH]; intros i0 i; simpl.
  - split; [discriminate | intros (k & f & _ & H & _); discriminate H].
  - destruct (String.eqb_spec (field_name f0) name) as [E|E].
    + split.
      * intros [= <-]. exists 0, f0. split; [lia|]. split; [reflexivity|].
        split; [exact E|]. intros k' f' Hk'. lia.
      * intros (k & f & -> & Hk & Hn & Hfirst).
        destruct k as [|k]; [f_equal; lia|].
        exfalso. apply (Hfirst 0 f0); [lia | reflexivity | exact E].
    + rewrite IH. split.
      * intros (k & f & -> & Hk & Hn & Hfirst).
        exists (S k), f. split; [lia|]. split; [exact Hk|].
        split; [exact Hn|].
        intros [|k'] f' Hk' Hf'; simpl in Hf'.
        -- injection Hf' as <-. exact E.
        -- apply (Hfirst k' f'); [lia | exact Hf'].
      * intros (k & f & -> & Hk & Hn & Hfirst).
        destruct k as [|k]; simpl in Hk.
        -- injection Hk as <-. contradiction.
        -- exists k, f. split; [lia|]. split; [exact Hk|].
           split; [exact Hn|].
           intros k' f' Hk' Hf'. apply (Hfirst (S k') f'); [lia | exact Hf'].
Qed.

Lemma findField_from_none (fields : list DataField) (name : string) :
  forall i0,
    findField_from fields name i0 = None <->
    Forall (fun f => field_name f <> name) fields.
Proof.
  induction fields as [|f0 fields IH]; intros i0; simpl.
  - split; [constructor | reflexivity].
  - rewrite Forall_cons.
    destruct (String.eqb_spec (field_name f0) name) as [E|E].
    + split; [discriminate | intros [H _]; contradiction].
    + rewrite IH. tauto.
Qed.

(** The index of a field and the name of a field are inverse to each
    other.  [getFieldIndex(name)] gives the index of the first field of
    that name, at which [getFieldName] gives the name back, and it fails
    with a type error exactly when no field has the name; in a definition
    whose field names are pairwise different, [getFieldIndex] of the name
    at index [i] gives [i] back. *)

Theorem field_index_and_name (toString : string) (fields : list DataField)
    (name : string) (i : nat) :
  (getFieldIndex toString fields name = Ok i ->
   getFieldName fields i = Some name /\ i < nFields fields
   /\ forall k, k < i -> getFieldName fields k <> Some name) /\
  (getFieldIndex toString fields name
   = Throw TypeError ("field " +:+ name +:+ " not find in " +:+ toString)
   <-> hasField fields name = false) /\
  (hasField fields name = false <->
   Forall (fun f => field_name f <> name) fields) /\
  (NoDup (List.map field_name fields) ->
   getFieldName fields i = Some name ->
   getFieldIndex toString fields name = Ok i) /\
  (nFields fields <= i -> getFieldName fields i = None).
Proof.
  unfold getFieldIndex, getFieldName, hasField, findField, nFields.
  split; [|split; [|split; [|split]]].
  - destruct (findField_from fields name 0) as [j|] eqn:E; [|discriminate].
    intros [= ->].
    apply findField_from_spec in E as (k & f & -> & Hk & Hn & Hfirst).
    simpl. split; [rewrite Hk; simpl; congruence|].
    split; [eapply lookup_lt_Some; exact Hk|].
    intros k' Hk' Hname.
    destruct (fields !! k') as [f'|] eqn:Ef'; [|discriminate].
    simpl in Hname. injection Hname as Hname.
    exact (Hfirst k' f' Hk' Ef' Hname).
  - destruct (findField_from fields name 0); split; intros; congruence.
  - rewrite <- (findField_from_none fields name 0).
    destruct (findField_from fields name 0); split; intros; congruence.
  - intros Hnd Hname.
    destruct (fields !! i) as [f|] eqn:Ef; [|discriminate].
    simpl in Hname. injection Hname as Hname.
    destruct (findField_from fields name 0) as [j|] eqn:E.
    + apply findField_from_spec in E as (k & f' & -> & Hk & Hn & _).
      simpl. f_equal.
      rewrite NoDup_alt in Hnd. apply (Hnd k i name).
      * rewrite list_lookup_fmap, Hk. simpl. congruence.
      * rewrite list_lookup_fmap, Ef. simpl. congruence.
    + exfalso. apply findField_from_none in E.
      rewrite List.Forall_forall in E. apply (E f); [|exact Hname].
      apply list_elem_of_In, list_elem_of_lookup. eauto.
  - intros Hi. rewrite (lookup_ge_None_2 _ _ Hi). reflexivity.
Qed.

Lemma field_index_and_name_witness :
  getFieldName [mkDataField "a" (Builtin IntType None);
                mkDataField "b" (Builtin BoolType None)] 1 = Some "b"
  /\ 1 < nFields [mkDataField "a" (Builtin IntType None);
                  mkDataField "b" (Builtin BoolType None)]
  /\ forall k, k < 1 ->
       getFieldName [mkDataField "a" (Builtin IntType None);
                     mkDataField "b" (Builtin BoolType None)] k <> Some "b".
Proof.
  apply (proj1 (field_index_and_name "S {a: Int, b: Bool}"
                  [mkDataField "a" (Builtin IntType None);
                   mkDataField "b" (Builtin BoolType None)] "b" 1)).
  reflexivity.
Defined.

End DataDefinitions.

(** * Enum statements *)

Module Enums.
Import Types IRText Entry Structs.

#[local] Arguments String.append _ _ : simpl nomatch.

(** An enum member as a [DataDefinition]: its name, its fields and
    whether its automatic method [copy] is used.  An enum statement: its
    path, its members, and the entries that [this.#impl.toIR(map)] sets. *)

Record EnumMember : Type := mkEnumMember {
  member_name : string;
  member_fields : list DataField;
  member_usesCopy : bool
}.

Record EnumStatement : Type := mkEnumStatement {
  enum_path : string;
  enum_members : list EnumMember;
  enum_impl : list (string * IR)
}.

(** [Statement.path] for a statement of a module, whose base path the
    constructor of [Module] sets, and [EnumMember.path]. *)

Definition statement_path (moduleName name : string) : string :=
  "__module__" +:+ moduleName +:+ "__" +:+ name.

Definition member_path (e : EnumStatement) (m : EnumMember) : string :=
  enum_path e +:+ "__" +:+ member_name m.

(** What [DataDefinition.toIR] reads of a member that is registered with
    its enum, in the record of module [Structs]. *)

Definition member_definition (e : EnumStatement) (m : EnumMember)
    : StructStatement :=
  mkStructStatement (member_path e m) (member_fields m) (member_usesCopy m) [].

Section EnumToIR.
Variable copy_definition : StructStatement -> list string -> IR.

(** [EnumStatement.toIR]: [member.toIR(map)] for each member, which is
    [DataDefinition.toIR] with [isConstr = true], then the impl block. *)

Fixpoint members_toIR (e : EnumStatement) (members : list EnumMember)
    (map : IRDefinitions) : IRDefinitions :=
  match members with
  | [] => map
  | m :: members' =>
      members_toIR e members'
        (DataDefinition_toIR copy_definition (member_definition e m) true map)
  end.

Definition EnumStatement_toIR (e : EnumStatement) (map : IRDefinitions)
    : IRDefinitions :=
  set_all (enum_impl e) (members_toIR e (enum_members e) map).

(** The keys that [DataDefinition.toIR] sets. *)

Definition keys_set (s : StructStatement) : list string :=
  List.map (getter_key s) (fields s)
  ++ (if usesCopy s then [copy_key s] else []).

Lemma DataDefinition_toIR_other (s : StructStatement) (isConstr : bool)
    (k : string) (map : IRDefinitions) :
  ~ In k (keys_set s) ->
  map_get k (DataDefinition_toIR copy_definition s isConstr map)
  = map_get k map.
Proof.
  unfold keys_set, DataDefinition_toIR. intros Hk.
  assert (Hg : map_get k (set_getters s isConstr 0 (fields s) map)
               = map_get k map).
  { apply map_get_set_getters_other. intros f Hf E. apply Hk.
    apply List.in_or_app. left. rewrite <- E. apply List.in_map.
    exact Hf. }
  destruct (usesCopy s); [|exact Hg].
  rewrite map_get_set_ne; [exact Hg|].
  intros ->. apply Hk. apply List.in_or_app. right. left. reflexivity.
Qed.

Lemma DataDefinition_toIR_getter (s : StructStatement) (isConstr : bool)
    (map : IRDefinitions) (i : nat) (f : DataField) :
  NoDup (List.map field_name (fields s)) ->
  fields s !! i = Some f ->
  (usesCopy s = true -> field_name f <> "copy") ->
  map_get (getter_key s f) (DataDefinition_toIR copy_definition s isConstr map)
  = Some (index_getter isConstr i f).
Proof.
  intros Hnd Hi Hcopy. unfold DataDefinition_toIR.
  pose proof (map_get_set_getters s isConstr (fields s) Hnd 0 map i f Hi) as Hg.
  destruct (usesCopy s); [|exact Hg].
  rewrite map_get_set_ne; [exact Hg|].
  unfold getter_key, copy_key. intros E.
  apply append_inv_head in E. apply (append_inv_head "__") in E.
  apply Hcopy; [reflexivity | exact E].
Qed.

Lemma members_toIR_other (e : EnumStatement) (k : string)
    (members : list EnumMember) :
  ~ In k (List.concat
            (List.map (fun m => keys_set (member_definition e m)) members)) ->
  forall map, map_get k (members_toIR e members map) = map_get k map.
Proof.
  induction members as [|m members IH]; simpl; intros Hk map; [reflexivity|].
  rewrite IH by (intros H; apply Hk, List.in_or_app; right; exact H).
  apply DataDefinition_toIR_other.
  intros H. apply Hk, List.in_or_app. left. exact H.
Qed.

Lemma members_toIR_app (e : EnumStatement) (l1 l2 : list EnumMember)
    (map : IRDefinitions) :
  members_toIR e (l1 ++ l2) map = members_toIR e l2 (members_toIR e l1 map).
Proof.
  revert map. induction l1 as [|m l1 IH]; intros map; simpl; [reflexivity|].
  apply IH.
Qed.

End EnumToIR.

(** The text of an index-based getter on the constructor encoding. *)

Definition constr_getter_text (i : nat) (bool : bool) : string :=
  if Nat.ltb i 20 then
    if bool then
      "(self) -> {__helios__common__unBoolData(__helios__common__field_"
      +:+ nat_to_string i +:+ "(self))}"
    else "__helios__common__field_" +:+ nat_to_string i
  else
    "(self) -> {"
    +:+ (if bool then "__helios__common__unBoolData(" else "")
    +:+ "__core__headList("
    +:+ repeat_string i "__core__tailList("
    +:+ "__core__sndPair(__core__unConstrData(self))"
    +:+ repeat_string i ")"
    +:+ ")"
    +:+ (if bool then ")" else "")
    +:+ "}".

Lemma IR_text_constr_getter (i : nat) (f : DataField) :
  IR_text (index_getter true i f) = constr_getter_text i (isBool f).
Proof.
  unfold index_getter, constr_getter_text, getterBaseName.
  destruct (Nat.ltb i 20); destruct (isBool f);
    cbn [IR_text foldr];
    rewrite ?IR_text_tailList; cbn [IR_text];
    rewrite ?append_nil_r, ?append_assoc; reflexivity.
Qed.

(** The getters of the fields of an enum member take the field by its
    index from the constructor encoding, also when the member has a
    single field (a member is never represented by its field alone, as a
    struct with one field is).  The definition is still there after
    [EnumStatement.toIR] when no later member and no entry of the impl
    block uses the same key. *)

Theorem enum_member_getters
    (copy_definition : StructStatement -> list string -> IR)
    (e : EnumStatement) (before after : list EnumMember) (m : EnumMember)
    (i : nat) (f : DataField) (map : IRDefinitions) :
  enum_members e = before ++ m :: after ->
  NoDup (List.map field_name (member_fields m)) ->
  member_fields m !! i = Some f ->
  (member_usesCopy m = true -> field_name f <> "copy") ->
  map_get (getter_key (member_definition e m) f)
    (DataDefinition_toIR copy_definition (member_definition e m) true map)
  = Some (index_getter true i f)
  /\ IR_text (index_getter true i f) = constr_getter_text i (isBool f)
  /\ (~ In (getter_key (member_definition e m) f)
         (List.concat
            (List.map (fun m' => keys_set (member_definition e m')) after)
          ++ List.map fst (enum_impl e)) ->
      map_get (getter_key (member_definition e m) f)
        (EnumStatement_toIR copy_definition e map)
      = Some (index_getter true i f)).
Proof.
  intros He Hnd Hi Hcopy. split; [|split].
  - apply DataDefinition_toIR_getter; assumption.
  - apply IR_text_constr_getter.
  - intros Hk. unfold EnumStatement_toIR.
    rewrite map_get_set_all
      by (intros H; apply Hk, List.in_or_app; right; exact H).
    rewrite He, members_toIR_app. simpl.
    rewrite members_toIR_other
      by (intros H; apply Hk, List.in_or_app; left; exact H).
    apply DataDefinition_toIR_getter; assumption.
Qed.

Lemma enum_member_getters_witness :
  map_get "__module__m__E__A__x"
    (EnumStatement_toIR (fun _ _ => IRstr "")
       (mkEnumStatement "__module__m__E"
          [mkEnumMember "A" [mkDataField "x" (Builtin IntType None)] false;
           mkEnumMember "B" [] false] [])
       [])
  = Some (IRstr "__helios__common__field_0").
Proof.
  apply (proj2 (proj2 (enum_member_getters (fun _ _ => IRstr "")
           (mkEnumStatement "__module__m__E"
              [mkEnumMember "A" [mkDataField "x" (Builtin IntType None)] false;
               mkEnumMember "B" [] false] [])
           [] [mkEnumMember "B" [] false]
           (mkEnumMember "A" [mkDataField "x" (Builtin IntType None)] false)
           0 (mkDataField "x" (Builtin IntType None)) []
           eq_refl ltac:(repeat constructor; intros H; inversion H)
           eq_refl ltac:(discriminate)))).
  intros [].
Defined.

(** ** Paths and base types *)

Lemma prefix_append (a b : string) : String.prefix a (a +:+ b) = true.
Proof.
  induction a as [|c a IH]; simpl; [destruct b; reflexivity|].
  destruct (ascii_dec c c); [exact IH | congruence].
Qed.

Lemma prefix_append_both (a b c : string) :
  String.prefix (a +:+ b) (a +:+ c) = String.prefix b c.
Proof.
  induction a as [|x a IH]; simpl; [reflexivity|].
  destruct (ascii_dec x x); [exact IH | congruence].
Qed.

Lemma prefix_longer (a : string) (c : ascii) (b : string) :
  String.prefix (a +:+ String c b) a = false.
Proof.
  induction a as [|x a IH]; simpl; [reflexivity|].
  destruct (ascii_dec x x); [exact IH | congruence].
Qed.

(** The type of an enum is a base type of the type of each of its
    members, and the type of a member is not a base type of the type of
    its enum.  Between the types of two statements of one module the
    relation compares the names: the first type is a base type of the
    second exactly when its name is a prefix of the name of the
    second. *)

Theorem user_type_paths (e : EnumStatement) (m : EnumMember)
    (moduleName n1 n2 : string) :
  isBaseOf (StatementType (enum_path e)) (StatementType (member_path e m))
  = Some true
  /\ isBaseOf (StatementType (member_path e m)) (StatementType (enum_path e))
     = Some false
  /\ isBaseOf (StatementType (statement_path moduleName n1))
              (StatementType (statement_path moduleName n2))
     = Some (String.prefix n1 n2).
Proof.
  unfold member_path, statement_path. simpl. split; [|split].
  - rewrite prefix_append. reflexivity.
  - change ("__" +:+ member_name m) with (String "_" ("_" +:+ member_name m)).
    rewrite prefix_longer. reflexivity.
  - rewrite !prefix_append_both. reflexivity.
Qed.

End Enums.

(** * Impl blocks *)

Module Impl.
Import Types IRText Entry Structs.

#[local] Arguments String.append _ _ : simpl nomatch.

(** A statement of an impl block: a function statement, which is a method
    or not ([FuncStatement.isMethod]), or a constant; [toIRInternal] gives
    its definition, for a function from the key it is stored under. *)

Inductive ImplKind : Type :=
| ImplFunc (isMethod : bool)
| ImplConst.

Record ImplStatement : Type := mkImplStatement {
  impl_name : string;
  impl_kind : ImplKind;
  impl_toIRInternal : string -> IR
}.

Definition isMethod (s : ImplStatement) : bool :=
  match impl_kind s with
  | ImplFunc b => b
  | ImplConst => false
  end.

(** An impl block: the text and the path of its type expression, its
    statements, and the number of statements that [eval] has got to
    ([#statementValues.length]). *)

Record ImplDefinition : Type := mkImplDefinition {
  selfType : string;
  selfPath : string;
  impl_statements : list ImplStatement;
  evaluated : nat
}.

(** What a lookup returns: an automatic member, or the value of the
    statement at an index. *)

Inductive Member : Type :=
| AutomaticMember (name : string)
| StatementValue (i : nat).

(** The loops of [getInstanceMember] and [getTypeMember] over the
    evaluated statements, from index [i] on; [wanted] tells the kind of
    statement that the operator accepts, and [wrong] is the message for
    the other kind. *)

Fixpoint find_member (wanted : ImplStatement -> bool) (wrong undefined : string)
    (name : string) (dryRun : bool) (used : gset string)
    (stmts : list ImplStatement) (i n : nat)
    : Result (Member * gset string) :=
  match n, stmts with
  | S n', s :: stmts' =>
      if String.eqb name (impl_name s) then
        if wanted s then
          Ok (StatementValue i, if dryRun then used else {[name]} ∪ used)
        else Throw ReferenceError wrong
      else find_member wanted wrong undefined name dryRun used stmts' (S i) n'
  | S _, [] => Throw InternalError "this.#statements[i] is undefined"
  | 0, _ => Throw ReferenceError undefined
  end.

(** [ImplDefinition.getInstanceMember]: the result and the new set
    [#usedStatements]. *)

Definition getInstanceMember (d : ImplDefinition) (used : gset string)
    (name : string) (dryRun : bool) : Result (Member * gset string) :=
  if String.eqb name "serialize" then
    Ok (AutomaticMember name, {[name]} ∪ used)
  else
    find_member isMethod
      ("'" +:+ selfType d +:+ "." +:+ name
       +:+ "' isn't a method (did you mean '" +:+ selfType d +:+ "::" +:+ name
       +:+ "'?)")
      ("'" +:+ selfType d +:+ "." +:+ name +:+ "' undefined")
      name dryRun used (impl_statements d) 0 (evaluated d).

(** [ImplDefinition.getTypeMember]. *)

Definition getTypeMember (d : ImplDefinition) (used : gset string)
    (name : string) (dryRun : bool) : Result (Member * gset string) :=
  if String.eqb name "__eq" || String.eqb name "__neq"
     || String.eqb name "from_data" then
    Ok (AutomaticMember name, {[name]} ∪ used)
  else
    find_member (fun s => negb (isMethod s))
      ("'" +:+ selfType d +:+ "::" +:+ name
       +:+ "' is a method (did you mean '" +:+ selfType d +:+ "." +:+ name
       +:+ "'?)")
      ("'" +:+ selfType d +:+ "::" +:+ name +:+ "' undefined")
      name dryRun used (impl_statements d) 0 (evaluated d).

(** [ImplDefinition.toIR]. *)

Definition set_if_used (used : gset string) (name : string) (key : string)
    (target : string) (map : IRDefinitions) : IRDefinitions :=
  if bool_decide (name ∈ used) then map_set key (IRstr target) map else map.

Definition member_key (d : ImplDefinition) (name : string) : string :=
  selfPath d +:+ "__" +:+ name.

Fixpoint statements_toIR (d : ImplDefinition) (stmts : list ImplStatement)
    (map : IRDefinitions) : IRDefinitions :=
  match stmts with
  | [] => map
  | s :: stmts' =>
      statements_toIR d stmts'
        (map_set (member_key d (impl_name s))
                 (impl_toIRInternal s (member_key d (impl_name s))) map)
  end.

Definition ImplDefinition_toIR (d : ImplDefinition) (used : gset string)
    (map : IRDefinitions) : IRDefinitions :=
  let map := set_if_used used "__eq" (selfPath d +:+ "____eq")
               "__helios__common____eq" map in
  let map := set_if_used used "__neq" (selfPath d +:+ "____neq")
               "__helios__common____neq" map in
  let map := set_if_used used "serialize" (selfPath d +:+ "__serialize")
               "__helios__common__serialize" map in
  let map := set_if_used used "from_data" (selfPath d +:+ "__from_data")
               "__helios__common__identity" map in
  statements_toIR d (impl_statements d) map.

(** *** Lookups *)

(** The first evaluated statement of a name. *)

Definition first_named (d : ImplDefinition) (name : string) (i : nat)
    (s : ImplStatement) : Prop :=
  i < evaluated d /\ impl_statements d !! i = Some s /\ impl_name s = name
  /\ forall k s', k < i -> impl_statements d !! k = Some s' ->
                  impl_name s' <> name.

Definition none_named (d : ImplDefinition) (name : string) : Prop :=
  forall k s, k < evaluated d -> impl_statements d !! k = Some s ->
              impl_name s <> name.

Lemma find_member_first (wanted : ImplStatement -> bool)
    (wrong undefined name : string) (dryRun : bool) (used : gset string)
    (stmts : list ImplStatement) :
  forall i0 n k s,
    k < n -> stmts !! k = Some s -> impl_name s = name ->
    (forall k' s', k' < k -> stmts !! k' = Some s' -> impl_name s' <> name) ->
    find_member wanted wrong undefined name dryRun used stmts i0 n
    = if wanted s
      then Ok (StatementValue (i0 + k),
               if dryRun then used else {[name]} ∪ used)
      else Throw ReferenceError wrong.
Proof.
  induction stmts as [|s0 stmts IH]; intros i0 n k s Hk Hs Hn Hfirst;
    [discriminate Hs|].
  destruct n as [|n]; [lia|]. simpl.
  destruct k as [|k]; simpl in Hs.
  - injection Hs as ->. rewrite Hn, String.eqb_refl, Nat.add_0_r.
    reflexivity.
  - destruct (String.eqb_spec name (impl_name s0)) as [E|E].
    + exfalso. apply (Hfirst 0 s0); [lia | reflexivity | congruence].
    + rewrite (IH (S i0) n k s); [|lia | exact Hs | exact Hn|].
      * replace (S i0 + k) with (i0 + S k) by lia. reflexivity.
      * intros k' s' Hk' Hs'. apply (Hfirst (S k') s'); [lia | exact Hs'].
Qed.

Lemma find_member_none (wanted : ImplStatement -> bool)
    (wrong undefined name : string) (dryRun : bool) (used : gset string)
    (stmts : list ImplStatement) :
  forall i0 n,
    n <= length stmts ->
    (forall k s, k < n -> stmts !! k = Some s -> impl_name s <> name) ->
    find_member wanted wrong undefined name dryRun used stmts i0 n
    = Throw ReferenceError undefined.
Proof.
  induction stmts as [|s0 stmts IH]; intros i0 n Hlen Hnone; simpl in Hlen.
  - destruct n; [reflexivity | lia].
  - destruct n as [|n]; [reflexivity|]. simpl.
    destruct (String.eqb_spec name (impl_name s0)) as [E|E].
    + exfalso. apply (Hnone 0 s0); [lia | reflexivity | congruence].
    + apply IH; [lia|].
      intros k s Hk Hs. apply (Hnone (S k) s); [lia | exact Hs].
Qed.

(** A member of an impl block is reached by exactly one of the two
    operators.  For a name that is not an automatic member, the first
    evaluated statement of that name decides: a method is found by the
    instance lookup and refused by the type lookup, which says that it is
    a method; anything else is found by the type lookup and refused by
    the instance lookup; and when no statement has the name both lookups
    fail with "undefined" (the block being evaluated once).  A lookup
    marks the statement as used unless it is a dry run. *)

Theorem impl_member_lookup (d : ImplDefinition) (used : gset string)
    (name : string) (dryRun : bool) :
  name <> "serialize" -> name <> "__eq" -> name <> "__neq" ->
  name <> "from_data" ->
  (forall i s, first_named d name i s -> isMethod s = true ->
     getInstanceMember d used name dryRun
     = Ok (StatementValue i, if dryRun then used else {[name]} ∪ used)
     /\ getTypeMember d used name dryRun
        = Throw ReferenceError
            ("'" +:+ selfType d +:+ "::" +:+ name
             +:+ "' is a method (did you mean '" +:+ selfType d +:+ "."
             +:+ name +:+ "'?)")) /\
  (forall i s, first_named d name i s -> isMethod s = false ->
     getTypeMember d used name dryRun
     = Ok (StatementValue i, if dryRun then used else {[name]} ∪ used)
     /\ getInstanceMember d used name dryRun
        = Throw ReferenceError
            ("'" +:+ selfType d +:+ "." +:+ name
             +:+ "' isn't a method (did you mean '" +:+ selfType d +:+ "::"
             +:+ name +:+ "'?)")) /\
  (none_named d name -> evaluated d <= length (impl_statements d) ->
   getInstanceMember d used name dryRun
   = Throw ReferenceError ("'" +:+ selfType d +:+ "." +:+ name +:+ "' undefined")
   /\ getTypeMember d used name dryRun
      = Throw ReferenceError
          ("'" +:+ selfType d +:+ "::" +:+ name +:+ "' undefined")).
Proof.
  intros H1 H2 H3 H4.
  assert (E1 : String.eqb name "serialize" = false)
    by (apply String.eqb_neq; exact H1).
  assert (E2 : String.eqb name "__eq" || String.eqb name "__neq"
               || String.eqb name "from_data" = false).
  { apply String.eqb_neq in H2, H3, H4. rewrite H2, H3, H4. reflexivity. }
  unfold getInstanceMember, getTypeMember. rewrite E1, E2.
  split; [|split].
  - intros i s (Hi & Hs & Hn & Hfirst) Hm. split.
    + rewrite (find_member_first _ _ _ _ _ _ _ 0 _ i s Hi Hs Hn Hfirst).
      rewrite Hm. reflexivity.
    + rewrite (find_member_first _ _ _ _ _ _ _ 0 _ i s Hi Hs Hn Hfirst).
      rewrite Hm. reflexivity.
  - intros i s (Hi & Hs & Hn & Hfirst) Hm. split.
    + rewrite (find_member_first _ _ _ _ _ _ _ 0 _ i s Hi Hs Hn Hfirst).
      rewrite Hm. reflexivity.
    + rewrite (find_member_first _ _ _ _ _ _ _ 0 _ i s Hi Hs Hn Hfirst).
      rewrite Hm. reflexivity.
  - intros Hnone Hlen. split; apply find_member_none; assumption.
Qed.

Lemma impl_member_lookup_witness :
  getInstanceMember
    (mkImplDefinition "S" "__module__m__S"
       [mkImplStatement "total" (ImplFunc true) (fun _ => IRstr "");
        mkImplStatement "ZERO" ImplConst (fun _ => IRstr "")] 2)
    ∅ "total" false
  = Ok (StatementValue 0, {["total"]} ∪ ∅)
  /\ getTypeMember
       (mkImplDefinition "S" "__module__m__S"
          [mkImplStatement "total" (ImplFunc true) (fun _ => IRstr "");
           mkImplStatement "ZERO" ImplConst (fun _ => IRstr "")] 2)
       ∅ "total" false
     = Throw ReferenceError
         "'S::total' is a method (did you mean 'S.total'?)".
Proof.
  apply (proj1 (impl_member_lookup
           (mkImplDefinition "S" "__module__m__S"
              [mkImplStatement "total" (ImplFunc true) (fun _ => IRstr "");
               mkImplStatement "ZERO" ImplConst (fun _ => IRstr "")] 2)
           ∅ "total" false
           ltac:(discriminate) ltac:(discriminate) ltac:(discriminate)
           ltac:(discriminate))
         0 (mkImplStatement "total" (ImplFunc true) (fun _ => IRstr ""))).
  - split; [simpl; lia|]. split; [reflexivity|]. split; [reflexivity|].
    intros k s' Hk. lia.
  - reflexivity.
Defined.

(** *** Definitions *)

Definition automatic (name target : string) : Prop :=
  In (name, target)
     [("__eq", "__helios__common____eq");
      ("__neq", "__helios__common____neq");
      ("serialize", "__helios__common__serialize");
      ("from_data", "__helios__common__identity")].

Lemma member_key_inj (d : ImplDefinition) (n n' : string) :
  member_key d n = member_key d n' -> n = n'.
Proof.
  unfold member_key. intros H.
  apply append_inv_head in H. apply (append_inv_head "__") in H. exact H.
Qed.

Lemma statements_toIR_other (d : ImplDefinition) (name : string)
    (stmts : list ImplStatement) :
  Forall (fun s => impl_name s <> name) stmts ->
  forall map,
    map_get (member_key d name) (statements_toIR d stmts map)
    = map_get (member_key d name) map.
Proof.
  induction 1 as [|s stmts Hs _ IH]; intros map; simpl; [reflexivity|].
  rewrite IH. apply map_get_set_ne.
  intros E. apply member_key_inj in E. congruence.
Qed.

Lemma statements_toIR_last (d : ImplDefinition) (s : ImplStatement)
    (pre post : list ImplStatement) :
  Forall (fun s' => impl_name s' <> impl_name s) post ->
  forall map,
    map_get (member_key d (impl_name s))
            (statements_toIR d (pre ++ s :: post) map)
    = Some (impl_toIRInternal s (member_key d (impl_name s))).
Proof.
  intros Hpost. induction pre as [|s0 pre IH]; intros map; simpl.
  - rewrite (statements_toIR_other d _ _ Hpost). apply map_get_set_eq.
  - apply IH.
Qed.

Lemma set_if_used_get (used : gset string) (name key target k : string)
    (map : IRDefinitions) :
  map_get k (set_if_used used name key target map)
  = if bool_decide (name ∈ used) && String.eqb key k
    then Some (IRstr target) else map_get k map.
Proof.
  unfold set_if_used. destruct (bool_decide (name ∈ used)); simpl;
    [|reflexivity].
  destruct (String.eqb_spec key k) as [->|Hne].
  - apply map_get_set_eq.
  - apply map_get_set_ne. congruence.
Qed.

(** The definitions of an impl block.  Every statement gets a definition
    under the key of its name, used or not (the last statement of a name
    is the one that stays).  An automatic member gets its definition
    exactly when it has been looked up before, and a statement of the
    same name replaces that definition.  A type lookup of [__eq],
    [__neq] or [from_data] marks the member as used, also in a dry
    run. *)

Theorem impl_definitions (d : ImplDefinition) (used : gset string)
    (map : IRDefinitions) :
  (forall pre s post,
     impl_statements d = pre ++ s :: post ->
     Forall (fun s' => impl_name s' <> impl_name s) post ->
     map_get (member_key d (impl_name s)) (ImplDefinition_toIR d used map)
     = Some (impl_toIRInternal s (member_key d (impl_name s)))) /\
  (forall name target,
     automatic name target ->
     Forall (fun s => impl_name s <> name) (impl_statements d) ->
     map_get (member_key d name) (ImplDefinition_toIR d used map)
     = if bool_decide (name ∈ used) then Some (IRstr target)
       else map_get (member_key d name) map) /\
  (forall name target dryRun,
     automatic name target -> name <> "serialize" ->
     Forall (fun s => impl_name s <> name) (impl_statements d) ->
     exists used',
       getTypeMember d used name dryRun = Ok (AutomaticMember name, used')
       /\ map_get (member_key d name) (ImplDefinition_toIR d used' map)
          = Some (IRstr target)).
Proof.
  assert (Hauto : forall used0 name target,
            automatic name target ->
            Forall (fun s => impl_name s <> name) (impl_statements d) ->
            map_get (member_key d name) (ImplDefinition_toIR d used0 map)
            = if bool_decide (name ∈ used0) then Some (IRstr target)
              else map_get (member_key d name) map).
  { intros used0 name target Hin Hnone. unfold ImplDefinition_toIR.
    rewrite (statements_toIR_other d _ _ Hnone).
    rewrite !set_if_used_get. unfold member_key.
    destruct Hin as [E|[E|[E|[E|[]]]]]; injection E as <- <-;
      repeat match goal with
             | |- context [String.eqb (?p +:+ ?a) (?p +:+ "__" +:+ ?b)] =>
                 let e := fresh in
                 destruct (String.eqb_spec (p +:+ a) (p +:+ "__" +:+ b)) as [e|e];
                 [apply append_inv_head in e; try discriminate e
                 | try (exfalso; apply e; reflexivity)]
             end;
      rewrite ?andb_false_r, ?andb_true_r;
      destruct (bool_decide _); reflexivity. }
  split; [|split].
  - intros pre s post E Hpost. unfold ImplDefinition_toIR. rewrite E.
    apply statements_toIR_last. exact Hpost.
  - intros name target. apply Hauto.
  - intros name target dryRun Hin Hne Hnone.
    exists ({[name]} ∪ used). split.
    + unfold getTypeMember.
      destruct Hin as [E|[E|[E|[E|[]]]]]; injection E as <- <-;
        try reflexivity. contradiction.
    + rewrite (Hauto _ name target Hin Hnone).
      rewrite bool_decide_eq_true_2 by set_solver. reflexivity.
Qed.

Lemma impl_definitions_witness :
  map_get "__module__m__S____eq"
    (ImplDefinition_toIR
       (mkImplDefinition "S" "__module__m__S"
          [mkImplStatement "total" (ImplFunc true) (fun _ => IRstr "f")] 1)
       {["__eq"]} [])
  = Some (IRstr "__helios__common____eq").
Proof.
  pose proof (proj1 (proj2 (impl_definitions
           (mkImplDefinition "S" "__module__m__S"
              [mkImplStatement "total" (ImplFunc true) (fun _ => IRstr "f")] 1)
           {["__eq"]} []))
         "__eq" "__helios__common____eq"
         (or_introl eq_refl)
         ltac:(repeat constructor; discriminate)) as H.
  rewrite bool_decide_eq_true_2 in H by set_solver. exact H.
Defined.

End Impl.

(** * Members of user types *)

Module Members.
Import Types Inference Calls IRText Entry Structs DataDefinitions Enums Impl.

#[local] Arguments String.append _ _ : simpl nomatch.

(** [Instance.new(type)] for one type that is not a function type. *)

Definition Instance_new (type : Ty) : Instance :=
  match type with
  | ErrorType => ErrorInstance
  | VoidType => VoidInstance
  | _ => DataInstance type
  end.

(** What a member lookup returns: a function instance of a function type,
    another instance, a member of the impl block, or the type of the enum
    member at an index. *)

Inductive MemberValue : Type :=
| FuncInstance (fn : FuncType)
| Value (v : Instance)
| ImplMember (m : Member)
| MemberType (i : nat).

(** The type of the automatic method [copy]: every field is a named
    argument with a default value. *)

Definition copy_type (fields : list DataField) (type : Ty) : FuncType :=
  mkFuncType
    (List.map (fun f => mkArgType (Some (field_name f)) (field_type f) true)
              fields)
    [type].

(** [DataDefinition.getInstanceMember]; [defName] is
    [this.name.toString()] and [type] is [this.type].  The result comes
    with the new value of [#usedAutoMethods.has("copy")]. *)

Definition DataDefinition_getInstanceMember (defName : string)
    (fields : list DataField) (type : Ty) (usesCopy : bool) (name : string)
    : Result (MemberValue * bool) :=
  if String.eqb name "copy" then
    Ok (FuncInstance (copy_type fields type), true)
  else
    match findField fields name with
    | None =>
        Throw ReferenceError ("'" +:+ defName +:+ "." +:+ name +:+ "' undefined")
    | Some i =>
        match fields !! i with
        | Some f => Ok (Value (Instance_new (field_type f)), usesCopy)
        | None => Throw InternalError "this.#fields[i] is undefined"
        end
    end.

(** [StructStatement.getInstanceMember] for the struct [s] with the impl
    block [d]; the result comes with the new value of
    [#usedAutoMethods.has("copy")] and the new set [#usedStatements] of
    the impl block. *)

Definition StructStatement_getInstanceMember (defName : string)
    (s : StructStatement) (d : ImplDefinition) (used : gset string)
    (name : string) (dryRun : bool)
    : Result (MemberValue * bool * gset string) :=
  if hasMember (fields s) name then
    let* r := DataDefinition_getInstanceMember defName (fields s)
                (StatementType (path s)) (usesCopy s) name in
    Ok (fst r, snd r, used)
  else
    let* r := getInstanceMember d used name dryRun in
    Ok (ImplMember (fst r), usesCopy s, snd r).

(** [EnumStatement.findEnumMember]: the index of the first member of that
    name; [None] is [-1]. *)

Fixpoint findEnumMember_from (members : list EnumMember) (name : string)
    (i : nat) : option nat :=
  match members with
  | [] => None
  | m :: members' =>
      if String.eqb (member_name m) name then Some i
      else findEnumMember_from members' name (S i)
  end.

Definition findEnumMember (e : EnumStatement) (name : string) : option nat :=
  findEnumMember_from (enum_members e) name 0.

Definition hasEnumMember (e : EnumStatement) (name : string) : bool :=
  match findEnumMember e name with Some _ => true | None => false end.

Section EnumLookups.

(** The message of [EnumStatement.getInstanceMember] interpolates
    [this.toString] without calling it, which gives the text of the
    method, and then [this.toString()], the text of the enum. *)

Variable toString_method : string.
Variable enumText : string.

(** [EnumStatement.getInstanceMember] and [EnumStatement.getTypeMember]
    for the enum [e] with the impl block [d]. *)

Definition EnumStatement_getInstanceMember (e : EnumStatement)
    (d : ImplDefinition) (used : gset string) (name : string)
    (dryRun : bool) : Result (Member * gset string) :=
  if hasEnumMember e name then
    Throw ReferenceError
      ("'" +:+ name +:+ "' is an enum of '" +:+ toString_method
       +:+ "' (did you mean '" +:+ enumText +:+ "::" +:+ name +:+ "'?)")
  else getInstanceMember d used name dryRun.

Definition EnumStatement_getTypeMember (e : EnumStatement)
    (d : ImplDefinition) (used : gset string) (name : string)
    (dryRun : bool) : Result (MemberValue * gset string) :=
  match findEnumMember e name with
  | None =>
      let* r := getTypeMember d used name dryRun in
      Ok (ImplMember (fst r), snd r)
  | Some i => Ok (MemberType i, used)
  end.

(** [EnumMember.getInstanceMember] for a member [m] that is registered
    with the enum [e]. *)

Definition EnumMember_getInstanceMember (e : EnumStatement) (m : EnumMember)
    (d : ImplDefinition) (used : gset string) (name : string)
    (dryRun : bool) : Result (MemberValue * bool * gset string) :=
  if hasField (member_fields m) name then
    let* r := DataDefinition_getInstanceMember (member_name m)
                (member_fields m) (StatementType (member_path e m))
                (member_usesCopy m) name in
    Ok (fst r, snd r, used)
  else
    let* r := EnumStatement_getInstanceMember e d used name dryRun in
    Ok (ImplMember (fst r), member_usesCopy m, snd r).

End EnumLookups.

(** ** The entries that an impl block sets *)

(** [ImplDefinition.toIR] as a list of entries, in the order in which
    they are set. *)

Definition automatic_entry (d : ImplDefinition) (used : gset string)
    (name target : string) : list (string * IR) :=
  if bool_decide (name ∈ used)
  then [(selfPath d +:+ "__" +:+ name, IRstr target)]
  else [].

Definition statement_entry (d : ImplDefinition) (s : ImplStatement)
    : string * IR :=
  (member_key d (impl_name s),
   impl_toIRInternal s (member_key d (impl_name s))).

Definition impl_entries (d : ImplDefinition) (used : gset string)
    : list (string * IR) :=
  automatic_entry d used "__eq" "__helios__common____eq"
  ++ automatic_entry d used "__neq" "__helios__common____neq"
  ++ automatic_entry d used "serialize" "__helios__common__serialize"
  ++ automatic_entry d used "from_data" "__helios__common__identity"
  ++ List.map (statement_entry d) (impl_statements d).

Lemma set_all_app (l1 l2 : list (string * IR)) (map : IRDefinitions) :
  set_all (l1 ++ l2) map = set_all l2 (set_all l1 map).
Proof.
  revert map. induction l1 as [|[k v] l1 IH]; intros map; simpl;
    [reflexivity | apply IH].
Qed.

Lemma set_all_statements (d : ImplDefinition) (stmts : list ImplStatement)
    (map : IRDefinitions) :
  set_all (List.map (statement_entry d) stmts) map
  = statements_toIR d stmts map.
Proof.
  revert map. induction stmts as [|s stmts IH]; intros map; simpl;
    [reflexivity | apply IH].
Qed.

Lemma set_all_automatic (d : ImplDefinition) (used : gset string)
    (name target : string) (map : IRDefinitions) :
  set_all (automatic_entry d used name target) map
  = set_if_used used name (selfPath d +:+ "__" +:+ name) target map.
Proof.
  unfold automatic_entry, set_if_used.
  destruct (bool_decide (name ∈ used)); reflexivity.
Qed.

Lemma set_all_impl_entries (d : ImplDefinition) (used : gset string)
    (map : IRDefinitions) :
  set_all (impl_entries d used) map = ImplDefinition_toIR d used map.
Proof.
  unfold impl_entries, ImplDefinition_toIR.
  rewrite !set_all_app, set_all_statements, !set_all_automatic.
  reflexivity.
Qed.

(** ** Lookups in a struct *)

Lemma hasMember_copy (fields : list DataField) :
  hasMember fields "copy" = true.
Proof. unfold hasMember. apply orb_true_r. Qed.

Lemma findField_lookup (fields : list DataField) (name : string) (i : nat) :
  findField fields name = Some i ->
  exists f, fields !! i = Some f /\ field_name f = name.
Proof.
  unfold findField. intros H.
  apply findField_from_spec in H as (k & f & -> & Hk & Hn & _).
  exists f. auto.
Qed.

Lemma DataDefinition_field (defName : string) (fields : list DataField)
    (type : Ty) (usesCopy : bool) (name : string) (i : nat) (f : DataField) :
  name <> "copy" -> findField fields name = Some i -> fields !! i = Some f ->
  DataDefinition_getInstanceMember defName fields type usesCopy name
  = Ok (Value (Instance_new (field_type f)), usesCopy).
Proof.
  intros Hc Hi Hf. unfold DataDefinition_getInstanceMember.
  destruct (String.eqb_spec name "copy") as [E|_]; [contradiction|].
  rewrite Hi, Hf. reflexivity.
Qed.

Lemma copy_type_nNonOptArgs (fields : list DataField) (type : Ty) :
  nNonOptArgs (copy_type fields type) = 0.
Proof.
  unfold nNonOptArgs, copy_type. simpl.
  induction fields as [|f fields IH]; simpl; [reflexivity | exact IH].
Qed.

(** In a struct the automatic method [copy] and the fields come before
    the impl block.  A lookup of [copy] gives a function that can be
    called without arguments and gives the struct back, and marks the
    method as used.  A lookup of a field gives a value of the type of the
    first field of that name, and the impl block is not asked: but when
    the impl block has a statement of the same name, the definition that
    [toIR] leaves under the key of the field getter is the definition of
    that statement. *)

Theorem struct_member_lookup
    (copy_definition : StructStatement -> list string -> IR)
    (defName : string) (s : StructStatement) (d : ImplDefinition)
    (used : gset string) (dryRun : bool) :
  (StructStatement_getInstanceMember defName s d used "copy" dryRun
   = Ok (FuncInstance (copy_type (fields s) (StatementType (path s))),
         true, used)
   /\ checkCall (copy_type (fields s) (StatementType (path s)))
        ([] : list Instance) []
      = Ok [StatementType (path s)]) /\
  (forall name i f,
     name <> "copy" ->
     findField (fields s) name = Some i -> fields s !! i = Some f ->
     StructStatement_getInstanceMember defName s d used name dryRun
     = Ok (Value (Instance_new (field_type f)), usesCopy s, used)) /\
  (forall name,
     hasMember (fields s) name = false ->
     StructStatement_getInstanceMember defName s d used name dryRun
     = let* r := getInstanceMember d used name dryRun in
       Ok (ImplMember (fst r), usesCopy s, snd r)) /\
  (forall i f pre st post used' map,
     findField (fields s) (impl_name st) = Some i ->
     fields s !! i = Some f ->
     impl_statements d = pre ++ st :: post ->
     Forall (fun s' => impl_name s' <> impl_name st) post ->
     selfPath d = path s ->
     impl s = impl_entries d used' ->
     map_get (getter_key s f) (StructStatement_toIR copy_definition s map)
     = Some (impl_toIRInternal st (getter_key s f))).
Proof.
  split; [|split; [|split]].
  - split.
    + unfold StructStatement_getInstanceMember.
      rewrite hasMember_copy. reflexivity.
    + unfold checkCall. rewrite copy_type_nNonOptArgs. simpl. reflexivity.
  - intros name i f Hc Hi Hf. unfold StructStatement_getInstanceMember.
    unfold hasMember, hasField. rewrite Hi. simpl.
    rewrite (DataDefinition_field _ _ _ _ _ _ _ Hc Hi Hf). reflexivity.
  - intros name Hm. unfold StructStatement_getInstanceMember.
    rewrite Hm. reflexivity.
  - intros i f pre st post used' map Hi Hf Hst Hpost Hpath Himpl.
    destruct (findField_lookup _ _ _ Hi) as (f' & Hf' & Hname).
    rewrite Hf in Hf'. injection Hf' as <-.
    assert (Hkey : getter_key s f = member_key d (impl_name st)).
    { unfold getter_key, member_key. rewrite Hpath, Hname. reflexivity. }
    unfold StructStatement_toIR. rewrite Himpl, set_all_impl_entries.
    unfold ImplDefinition_toIR. rewrite Hst, Hkey.
    apply statements_toIR_last. exact Hpost.
Qed.

Lemma struct_member_lookup_witness :
  StructStatement_getInstanceMember "Pair"
    (mkStructStatement "__module__m__Pair"
       [mkDataField "a" (Builtin IntType None);
        mkDataField "b" (Builtin BoolType None)]
       false [])
    (mkImplDefinition "Pair" "__module__m__Pair"
       [mkImplStatement "b" (ImplFunc true) (fun key => IRstr key)] 1)
    ∅ "b" false
  = Ok (Value (DataInstance (Builtin BoolType None)), false, ∅)
  /\ map_get "__module__m__Pair__b"
       (StructStatement_toIR (fun _ _ => IRstr "copy")
          (mkStructStatement "__module__m__Pair"
             [mkDataField "a" (Builtin IntType None);
              mkDataField "b" (Builtin BoolType None)]
             false [("__module__m__Pair__b", IRstr "__module__m__Pair__b")])
          [])
     = Some (IRstr "__module__m__Pair__b").
Proof.
  split.
  - apply (proj1 (proj2 (struct_member_lookup (fun _ _ => IRstr "copy") "Pair"
             (mkStructStatement "__module__m__Pair"
                [mkDataField "a" (Builtin IntType None);
                 mkDataField "b" (Builtin BoolType None)]
                false [])
             (mkImplDefinition "Pair" "__module__m__Pair"
                [mkImplStatement "b" (ImplFunc true) (fun key => IRstr key)] 1)
             ∅ false)) "b" 1 (mkDataField "b" (Builtin BoolType None)));
      [discriminate | reflexivity | reflexivity].
  - apply (proj2 (proj2 (proj2 (struct_member_lookup
             (fun _ _ => IRstr "copy") "Pair"
             (mkStructStatement "__module__m__Pair"
                [mkDataField "a" (Builtin IntType None);
                 mkDataField "b" (Builtin BoolType None)]
                false [("__module__m__Pair__b", IRstr "__module__m__Pair__b")])
             (mkImplDefinition "Pair" "__module__m__Pair"
                [mkImplStatement "b" (ImplFunc true) (fun key => IRstr key)] 1)
             ∅ false)))
           1 (mkDataField "b" (Builtin BoolType None)) []
           (mkImplStatement "b" (ImplFunc true) (fun key => IRstr key)) []
           ∅ []);
      try reflexivity. constructor.
Defined.

(** The claim about single-field structs fails as stated, without the
    condition on the impl block: for [struct S { from_data: Bool }],
    after a lookup of the automatic member [S::from_data], the impl block
    sets the key of the getter of the field after [StructStatement.toIR]
    has set it, so the getter of the one field, of type [Bool], ends as
    the identity function and not as the primitive that unwraps a
    boolean. *)


(** ** Lookups in an enum *)

Lemma findEnumMember_from_none (members : list EnumMember) (name : string) :
  forall i0,
    findEnumMember_from members name i0 = None <->
    Forall (fun m => member_name m <> name) members.
Proof.
  induction members as [|m members IH]; intros i0; simpl.
  - split; [constructor | reflexivity].
  - rewrite Forall_cons.
    destruct (String.eqb_spec (member_name m) name) as [E|E].
    + split; [discriminate | intros [H _]; contradiction].
    + rewrite IH. tauto.
Qed.

(** An enum member hands every name that is not one of its fields to its
    enum, [copy] as well: the automatic method [copy] of a member is
    found only when the member has a field called [copy], and then in
    the place of that field.  Without such a field, and without a member
    or an evaluated impl statement called [copy] in the enum, the lookup
    of [copy] fails as undefined.  The name of a member of the enum is
    refused by the instance lookup, and found by the type lookup of the
    enum before the impl block is asked. *)

Theorem enum_member_lookup (toString_method enumText : string)
    (e : EnumStatement) (m : EnumMember) (d : ImplDefinition)
    (used : gset string) (dryRun : bool) :
  (forall name i f,
     name <> "copy" ->
     findField (member_fields m) name = Some i ->
     member_fields m !! i = Some f ->
     EnumMember_getInstanceMember toString_method enumText e m d used name
       dryRun
     = Ok (Value (Instance_new (field_type f)), member_usesCopy m, used)) /\
  (hasField (member_fields m) "copy" = true ->
   EnumMember_getInstanceMember toString_method enumText e m d used "copy"
     dryRun
   = Ok (FuncInstance
           (copy_type (member_fields m) (StatementType (member_path e m))),
         true, used)) /\
  (hasField (member_fields m) "copy" = false ->
   Forall (fun m' => member_name m' <> "copy") (enum_members e) ->
   none_named d "copy" -> evaluated d <= length (impl_statements d) ->
   EnumMember_getInstanceMember toString_method enumText e m d used "copy"
     dryRun
   = Throw ReferenceError ("'" +:+ selfType d +:+ ".copy' undefined")) /\
  (forall name i,
     hasField (member_fields m) name = false ->
     findEnumMember e name = Some i ->
     EnumMember_getInstanceMember toString_method enumText e m d used name
       dryRun
     = Throw ReferenceError
         ("'" +:+ name +:+ "' is an enum of '" +:+ toString_method
          +:+ "' (did you mean '" +:+ enumText +:+ "::" +:+ name +:+ "'?)")
     /\ EnumStatement_getTypeMember e d used name dryRun
        = Ok (MemberType i, used)).
Proof.
  split; [|split; [|split]].
  - intros name i f Hc Hi Hf. unfold EnumMember_getInstanceMember.
    unfold hasField. rewrite Hi.
    rewrite (DataDefinition_field _ _ _ _ _ _ _ Hc Hi Hf). reflexivity.
  - intros Hf. unfold EnumMember_getInstanceMember. rewrite Hf. reflexivity.
  - intros Hf Hm Hnone Hev. unfold EnumMember_getInstanceMember.
    rewrite Hf. unfold EnumStatement_getInstanceMember, hasEnumMember,
      findEnumMember.
    rewrite (proj2 (findEnumMember_from_none _ _ 0) Hm).
    unfold getInstanceMember. simpl.
    rewrite find_member_none; [reflexivity | exact Hev | exact Hnone].
  - intros name i Hf Hi. split.
    + unfold EnumMember_getInstanceMember. rewrite Hf.
      unfold EnumStatement_getInstanceMember, hasEnumMember. rewrite Hi.
      reflexivity.
    + unfold EnumStatement_getTypeMember. rewrite Hi. reflexivity.
Qed.

Lemma enum_member_lookup_witness :
  EnumMember_getInstanceMember "toString() {...}" "enum E {A, B}"
    (mkEnumStatement "__module__m__E"
       [mkEnumMember "A" [mkDataField "x" (Builtin IntType None)] false;
        mkEnumMember "B" [] false] [])
    (mkEnumMember "A" [mkDataField "x" (Builtin IntType None)] false)
    (mkImplDefinition "E" "__module__m__E" [] 0)
    ∅ "copy" false
  = Throw ReferenceError "'E.copy' undefined".
Proof.
  apply (proj1 (proj2 (proj2 (enum_member_lookup
           "toString() {...}" "enum E {A, B}"
           (mkEnumStatement "__module__m__E"
              [mkEnumMember "A" [mkDataField "x" (Builtin IntType None)] false;
               mkEnumMember "B" [] false] [])
           (mkEnumMember "A" [mkDataField "x" (Builtin IntType None)] false)
           (mkImplDefinition "E" "__module__m__E" [] 0)
           ∅ false)))).
  - reflexivity.
  - repeat constructor; discriminate.
  - intros k s Hk. simpl in Hk. lia.
  - simpl. lia.
Defined.

End Members.
